(** * Topic relationship graph and anomaly detection

    A shallow embedding of [src/utils/graph_builder.py] (the [GraphBuilder]
    class over a networkx [DiGraph]) and of the detectors of
    [src/agents/validator.py] ([ValidatorAgent]), together with the
    properties of the graph store, the relationship builder and the anomaly
    detectors.

    Conventions of the embedding:
    - a Python [str] is a [string] holding its UTF-8 encoding; splitting at
      the ASCII dot and comparing byte-wise agree with Python's code-point
      operations on such encodings;
    - [str.isdigit] and [int] read the Unicode database and the digit limit
      of the interpreter, which the repository does not determine: they are
      a parameter ([Py.Numerals]) of the code that calls them, and what
      every interpreter makes of ASCII numerals is a stated condition
      ([reads_decimals]);
    - a Python [int] is a [Z]; the quotient of a true division is the exact
      rational, not its rounding to a float;
    - a Python [dict] is an association list in insertion order with unique
      keys ([Dict.t]); assigning to a key that is present keeps its position;
    - the object state [self.graph] is passed explicitly: a mutating method
      takes the graph and returns the new one;
    - networkx's [DiGraph] is modelled by the three dictionaries it keeps
      ([_node], [_succ], [_pred]) and the methods the source calls;
    - calls whose result the repository does not determine (the cycle
      enumeration of networkx, the language model behind the resolution
      strategies) are parameters. *)

From Stdlib Require Import List String Ascii ZArith QArith Lia Bool.
From Stdlib Require Import Permutation Sorted DecimalString OrdersEx.
From Stdlib Require DecimalPos DecimalZ.
Import ListNotations.

Local Open Scope string_scope.
Local Open Scope list_scope.
Local Open Scope nat_scope.

(** ** Python built-ins used by the source *)

Module Py.

(** [s.split(sep)] for a one-character separator: never the empty list. *)
Fixpoint split (sep : ascii) (s : string) : list string :=
  match s with
  | EmptyString => [EmptyString]
  | String c rest =>
      if Ascii.eqb c sep then EmptyString :: split sep rest
      else match split sep rest with
           | [] => [String c EmptyString]
           | p :: ps => String c p :: ps
           end
  end.

(** [parts[-1]]: [None] stands for the [IndexError] on an empty list. *)
Fixpoint last_item {A : Type} (l : list A) : option A :=
  match l with
  | [] => None
  | [x] => Some x
  | _ :: l' => last_item l'
  end.

(** [parts[-1] = x] on a non-empty list. *)
Definition set_last_item {A : Type} (l : list A) (x : A) : list A :=
  removelast l ++ [x].

(** [s.isdigit()] and [int(s)] are answered by the interpreter: by its
    Unicode database, which knows the digits of every script, and by its
    limit on the number of digits of an integer.  Neither is part of the
    repository, so that the two built-ins are a parameter of the code that
    calls them; [None] is the [ValueError] of [int]. *)
Record Numerals := {
  isdigit : string -> bool;
  int : string -> option Z
}.

(** [str(n)] for an integer. *)
Definition str (n : Z) : string := NilZero.string_of_int (Z.to_int n).

(** [sep.join(parts)]. *)
Definition join (sep : string) (parts : list string) : string :=
  String.concat sep parts.

(** [list(range(a, b))]. *)
Definition range (a b : Z) : list Z :=
  map (fun k => (a + Z.of_nat k)%Z) (seq 0 (Z.to_nat (b - a))).

(** Truth value of an [Optional[str]]: [None] and [""] are false. *)
Definition truthy (o : option string) : bool :=
  match o with
  | None => false
  | Some s => negb (String.eqb s "")
  end.

(** [o or default] for an [Optional[str]]. *)
Definition or_else (o : option string) (default : string) : string :=
  match o with
  | Some s => if String.eqb s "" then default else s
  | None => default
  end.

(** [a / b] on integers (true division), as the exact quotient; [None] is
    the [ZeroDivisionError]. *)
Definition truediv (a b : Z) : option Q :=
  match b with
  | Zpos p => Some (Qmake a p)
  | Zneg p => Some (Qmake (- a) p)
  | Z0 => None
  end.

End Py.

(** ** Insertion-ordered dictionaries *)

Module Dict.

Definition t (V : Type) : Type := list (string * V).

Definition empty {V : Type} : t V := [].

(** [d.get(k)] *)
Fixpoint get {V : Type} (d : t V) (k : string) : option V :=
  match d with
  | [] => None
  | (k', v) :: d' => if String.eqb k' k then Some v else get d' k
  end.

(** [k in d] *)
Definition mem {V : Type} (d : t V) (k : string) : bool :=
  match get d k with Some _ => true | None => false end.

(** [d[k] = v]: a present key keeps its place, a new key goes last. *)
Fixpoint set {V : Type} (d : t V) (k : string) (v : V) : t V :=
  match d with
  | [] => [(k, v)]
  | (k', v') :: d' =>
      if String.eqb k' k then (k', v) :: d' else (k', v') :: set d' k v
  end.

(** [d[k]] for a key of [d]; [default] stands in where Python raises
    [KeyError]. *)
Definition item {V : Type} (d : t V) (k : string) (default : V) : V :=
  match get d k with Some v => v | None => default end.

(** [list(d)] / [d.keys()] *)
Definition keys {V : Type} (d : t V) : list string := map fst d.

(** [d.items()] *)
Definition items {V : Type} (d : t V) : list (string * V) := d.

End Dict.

(** ** Data model ([src/models]) *)

Inductive RelationshipType :=
  hierarchical | cross_reference | forward_reference | backward_reference.

Inductive RelationshipStatus := valid | broken | ambiguous.

Inductive Severity := low | medium | high | critical.

Inductive AnomalyType :=
  | missing_referenced_topic
  | broken_cross_reference
  | circular_reference
  | numbering_gap
  | duplicate_topic
  | orphan_content
  | ambiguous_boundary.

Record TopicPosition := { pos_start : Z; pos_end : Z }.

Module Topic.
Record t := mk {
  id : string;
  title : string;
  content : string;
  parent : option string;
  children : list string;
  cross_references : list string;
  forward_references : list string;
  backward_references : list string;
  position : option TopicPosition;
  confidence : Q
}.
End Topic.

Module Relationship.
Record t := mk {
  source : string;
  target : string;
  type : RelationshipType;
  status : RelationshipStatus;
  context : option string;
  severity : option Severity
}.
End Relationship.

Module Anomaly.
Record t := mk {
  type : AnomalyType;
  location : string;
  severity : Severity;
  description : string;
  resolution_strategies : list string;
  affected_topics : list string
}.
End Anomaly.

(** ** The part of networkx's [DiGraph] that the source uses *)

Module nx.

(** Attribute dictionary of a node: empty for a node that [add_edge]
    created, the three keyword arguments of [add_topic] otherwise. *)
Record NodeAttr := { n_title : string; n_content : string; n_confidence : Q }.

(** Attribute dictionary of an edge: the four keyword arguments that
    [add_relationship] passes. *)
Record EdgeAttr := {
  e_type : RelationshipType;
  e_status : RelationshipStatus;
  e_context : option string;
  e_severity : option Severity
}.

Record DiGraph := {
  _node : Dict.t (option NodeAttr);
  _succ : Dict.t (Dict.t EdgeAttr);
  _pred : Dict.t (Dict.t EdgeAttr)
}.

(** [nx.DiGraph()] *)
Definition empty : DiGraph :=
  {| _node := Dict.empty; _succ := Dict.empty; _pred := Dict.empty |}.

(** [G.add_node(n, **attr)]: a new node gets fresh adjacency
    dictionaries, a known node only has its attributes updated. *)
Definition add_node (G : DiGraph) (n : string) (attr : NodeAttr) : DiGraph :=
  if Dict.mem (_succ G) n then
    {| _node := Dict.set (_node G) n (Some attr);
       _succ := _succ G;
       _pred := _pred G |}
  else
    {| _node := Dict.set (_node G) n (Some attr);
       _succ := Dict.set (_succ G) n Dict.empty;
       _pred := Dict.set (_pred G) n Dict.empty |}.

(** The first lines of [add_edge], for each end point: a node that is not
    in the graph is added with an empty attribute dictionary. *)
Definition ensure_node (G : DiGraph) (n : string) : DiGraph :=
  if Dict.mem (_succ G) n then G
  else
    {| _node := Dict.set (_node G) n None;
       _succ := Dict.set (_succ G) n Dict.empty;
       _pred := Dict.set (_pred G) n Dict.empty |}.

(** [d[k]] on an adjacency dictionary. *)
Definition inner {V : Type} (d : Dict.t (Dict.t V)) (k : string) : Dict.t V :=
  Dict.item d k Dict.empty.

(** [G.add_edge(u, v, **attr)]: both end points become nodes; the edge's
    attribute dictionary is the one already stored for [(u, v)], if any,
    updated with [attr] (which here assigns all of its keys), and is
    stored under [_succ[u][v]] and [_pred[v][u]]. *)
Definition add_edge (G : DiGraph) (u v : string) (attr : EdgeAttr) : DiGraph :=
  let G1 := ensure_node (ensure_node G u) v in
  let succ' := Dict.set (_succ G1) u (Dict.set (inner (_succ G1) u) v attr) in
  let pred' := Dict.set (_pred G1) v (Dict.set (inner (_pred G1) v) u attr) in
  {| _node := _node G1; _succ := succ'; _pred := pred' |}.

(** [G.nodes()] *)
Definition nodes (G : DiGraph) : list string := Dict.keys (_node G).

(** [n in G] *)
Definition has_node (G : DiGraph) (n : string) : bool := Dict.mem (_node G) n.

(** [G.edges(data=True)] *)
Definition edges (G : DiGraph) : list (string * string * EdgeAttr) :=
  flat_map (fun '(u, nbrs) => map (fun '(v, d) => (u, v, d)) nbrs) (_succ G).

(** [G.get_edge_data(u, v)] *)
Definition get_edge_data (G : DiGraph) (u v : string) : option EdgeAttr :=
  Dict.get (inner (_succ G) u) v.

Definition has_edge (G : DiGraph) (u v : string) : bool :=
  match get_edge_data G u v with Some _ => true | None => false end.

Definition in_degree (G : DiGraph) (n : string) : nat :=
  List.length (inner (_pred G) n).

Definition out_degree (G : DiGraph) (n : string) : nat :=
  List.length (inner (_succ G) n).

(** [dict(G.degree())] *)
Definition degree (G : DiGraph) : Dict.t nat :=
  map (fun n => (n, in_degree G n + out_degree G n)) (nodes G).

Definition number_of_nodes (G : DiGraph) : nat := List.length (_node G).

(** [G.number_of_edges()], which networkx computes as half the degree sum. *)
Definition number_of_edges (G : DiGraph) : nat :=
  Nat.div (list_sum (map snd (degree G))) 2.

End nx.

(** [list.sort()] on a list whose elements are compared with [lt]: a stable
    insertion sort.  On the tuples sorted here the order is total, so every
    sorting algorithm returns the same list ([SortFacts.sort_unique]). *)
Module PySort.

Section Sort.
Context {A : Type} (lt : A -> A -> bool).

Fixpoint insert (x : A) (l : list A) : list A :=
  match l with
  | [] => [x]
  | y :: l' => if lt y x then y :: insert x l' else x :: y :: l'
  end.

Fixpoint sort (l : list A) : list A :=
  match l with
  | [] => []
  | x :: l' => insert x (sort l')
  end.
End Sort.

(** [<] on tuples [(int, str)]: lexicographic, strings by code point. *)
Definition tuple_lt (a b : Z * string) : bool :=
  ((fst a <? fst b)%Z || ((fst a =? fst b)%Z && String.ltb (snd a) (snd b))).

End PySort.

(** ** [GraphBuilder] ([src/utils/graph_builder.py]) *)

(** The dictionary that [get_statistics] returns. *)
Record Statistics := {
  total_nodes : nat;
  total_edges : nat;
  orphan_nodes : nat;
  circular_references : nat;
  average_degree : Q
}.

(** A cycle as [nx.simple_cycles] yields it: a list of nodes that is never
    empty, kept as its first node and the rest. *)
Definition Cycle : Type := (string * list string)%type.

Definition cycle_nodes (c : Cycle) : list string := fst c :: snd c.

(** [list(nx.simple_cycles(G))]: [None] when the call raises. *)
Definition SimpleCycles : Type := nx.DiGraph -> option (list Cycle).

Module GraphBuilder.

(** [__init__] *)
Definition init : nx.DiGraph := nx.empty.

Definition add_topic (graph : nx.DiGraph) (topic : Topic.t) : nx.DiGraph :=
  nx.add_node graph (Topic.id topic)
    {| nx.n_title := Topic.title topic;
       nx.n_content := Topic.content topic;
       nx.n_confidence := Topic.confidence topic |}.

Definition add_relationship (graph : nx.DiGraph) (relationship : Relationship.t)
  : nx.DiGraph :=
  nx.add_edge graph
    (Relationship.source relationship)
    (Relationship.target relationship)
    {| nx.e_type := Relationship.type relationship;
       nx.e_status := Relationship.status relationship;
       nx.e_context := Relationship.context relationship;
       nx.e_severity := Relationship.severity relationship |}.

(** [Relationship(source=.., target=.., type=.., status="valid")] *)
Definition valid_relationship (source target : string) (type : RelationshipType)
  : Relationship.t :=
  Relationship.mk source target type valid None None.

Definition add_references (source : string) (type : RelationshipType)
    (refs : list string) (graph : nx.DiGraph) : nx.DiGraph :=
  fold_left
    (fun g ref => add_relationship g (valid_relationship source ref type))
    refs graph.

(** Body of the second loop of [build_from_topics]. *)
Definition add_topic_relationships (graph : nx.DiGraph) (topic : Topic.t)
  : nx.DiGraph :=
  let g1 :=
    match Topic.parent topic with
    | Some p =>
        if Py.truthy (Some p)
        then add_relationship graph
               (valid_relationship p (Topic.id topic) hierarchical)
        else graph
    | None => graph
    end in
  let g2 := add_references (Topic.id topic) cross_reference
              (Topic.cross_references topic) g1 in
  let g3 := add_references (Topic.id topic) forward_reference
              (Topic.forward_references topic) g2 in
  add_references (Topic.id topic) backward_reference
    (Topic.backward_references topic) g3.

Definition build_from_topics (graph : nx.DiGraph) (topics : list Topic.t)
  : nx.DiGraph :=
  fold_left add_topic_relationships topics (fold_left add_topic topics graph).

Definition is_hierarchical (t : RelationshipType) : bool :=
  match t with hierarchical => true | _ => false end.

Definition get_topic_hierarchy (graph : nx.DiGraph) : Dict.t (list string) :=
  fold_left
    (fun hierarchy node =>
       let children :=
         map fst
           (filter (fun '(_, data) => is_hierarchical (nx.e_type data))
              (nx.inner (nx._succ graph) node)) in
       match children with
       | [] => hierarchy
       | _ => Dict.set hierarchy node children
       end)
    (nx.nodes graph) Dict.empty.

Definition find_broken_references (graph : nx.DiGraph) : list Relationship.t :=
  fold_left
    (fun broken_list '(source, target, data) =>
       if negb (nx.has_node graph target)
       then broken_list ++
              [Relationship.mk source target (nx.e_type data) broken
                 (nx.e_context data) (Some high)]
       else broken_list)
    (nx.edges graph) [].

(** The [try]/[except] around the library call: an exception gives []. *)
Definition detect_circular_references (simple_cycles : SimpleCycles)
    (graph : nx.DiGraph) : list Cycle :=
  match simple_cycles graph with
  | Some cycles => cycles
  | None => []
  end.

Definition get_orphan_nodes (graph : nx.DiGraph) : list string :=
  filter
    (fun node =>
       (nx.in_degree graph node =? 0) && (nx.out_degree graph node =? 0))
    (nx.nodes graph).

(** [None] would be an exception escaping [get_statistics]. *)
Definition get_statistics (simple_cycles : SimpleCycles) (graph : nx.DiGraph)
  : option Statistics :=
  match Py.truediv
          (Z.of_nat (list_sum (map snd (nx.degree graph))))
          (Z.of_nat (Nat.max (nx.number_of_nodes graph) 1)) with
  | Some avg =>
      Some {| total_nodes := nx.number_of_nodes graph;
              total_edges := nx.number_of_edges graph;
              orphan_nodes := List.length (get_orphan_nodes graph);
              circular_references :=
                List.length (detect_circular_references simple_cycles graph);
              average_degree := avg |}
  | None => None
  end.

End GraphBuilder.

(** ** [ValidatorAgent] ([src/agents/validator.py]) *)

(** [_llm_generate_strategies] asks a language model; the strategies it
    returns for the anomaly at a given position of the list are a parameter. *)
Definition StrategyOracle : Type := nat -> Anomaly.t -> list string.

Module ValidatorAgent.

(** [Anomaly(type=.., location=.., severity=.., description=..,
    affected_topics=..)]: the strategies default to the empty list. *)
Definition new_anomaly (type : AnomalyType) (location : string)
    (severity : Severity) (description : string)
    (affected_topics : list string) : Anomaly.t :=
  Anomaly.mk type location severity description [] affected_topics.

Definition _construct_missing_id (reference_id : string) (missing_num : Z)
  : string :=
  let parts := Py.split "." reference_id in
  let parts := Py.set_last_item parts (Py.str missing_num) in
  Py.join "." parts.

(** First loop of [_check_numbering_gaps]: [topic_groups]. *)
Definition group_topics (topics : list Topic.t) : Dict.t (list string) :=
  fold_left
    (fun topic_groups topic =>
       let parent := Py.or_else (Topic.parent topic) "root" in
       let topic_groups :=
         if negb (Dict.mem topic_groups parent)
         then Dict.set topic_groups parent []
         else topic_groups in
       Dict.set topic_groups parent
         (Dict.item topic_groups parent [] ++ [Topic.id topic]))
    topics Dict.empty.

(** The loop that fills [numeric_children]; both exceptions of the [try]
    block skip the child. *)
Definition numeric_children_of (py : Py.Numerals) (children : list string)
  : list (Z * string) :=
  fold_left
    (fun numeric_children child_id =>
       let parts := Py.split "." child_id in
       match Py.last_item parts with
       | None => numeric_children
       | Some seg =>
           if Py.isdigit py seg then
             match Py.int py seg with
             | Some n => numeric_children ++ [(n, child_id)]
             | None => numeric_children
             end
           else numeric_children
       end)
    children [].

Definition gap_anomaly (current_id next_id : string) (missing_num : Z)
  : Anomaly.t :=
  let missing_id := _construct_missing_id current_id missing_num in
  new_anomaly numbering_gap
    ("Between " ++ current_id ++ " and " ++ next_id)
    high
    ("Missing topic " ++ missing_id ++ " in sequence")
    [current_id; next_id].

(** The loop [for i in range(len(numeric_children) - 1)]. *)
Definition check_gaps (numeric_children : list (Z * string))
    (anomalies : list Anomaly.t) : list Anomaly.t :=
  fold_left
    (fun anomalies i =>
       match nth_error numeric_children i,
             nth_error numeric_children (i + 1) with
       | Some (current_num, current_id), Some (next_num, next_id) =>
           if (next_num - current_num >? 1)%Z then
             fold_left
               (fun anomalies missing_num =>
                  anomalies ++ [gap_anomaly current_id next_id missing_num])
               (Py.range (current_num + 1) next_num) anomalies
           else anomalies
       | _, _ => anomalies
       end)
    (seq 0 (List.length numeric_children - 1)) anomalies.

Definition _check_numbering_gaps (py : Py.Numerals) (topics : list Topic.t)
  : list Anomaly.t :=
  fold_left
    (fun anomalies '(parent, children) =>
       let numeric_children := numeric_children_of py children in
       match numeric_children with
       | [] => anomalies
       | _ =>
           let numeric_children :=
             PySort.sort PySort.tuple_lt numeric_children in
           check_gaps numeric_children anomalies
       end)
    (Dict.items (group_topics topics)) [].

(** [ref_id in topic_ids] for the set of the topics' ids. *)
Definition in_topic_ids (topics : list Topic.t) (ref_id : string) : bool :=
  existsb (String.eqb ref_id) (map Topic.id topics).

Definition broken_anomaly (topic_id ref_id : string) : Anomaly.t :=
  new_anomaly broken_cross_reference
    (topic_id ++ " → " ++ ref_id)
    high
    ("Topic " ++ topic_id ++ " references " ++ ref_id ++ ", which does not exist")
    [topic_id].

Definition _validate_cross_references (topics : list Topic.t)
  : list Anomaly.t :=
  fold_left
    (fun anomalies topic =>
       let all_refs :=
         Topic.cross_references topic ++
         Topic.forward_references topic ++
         Topic.backward_references topic in
       fold_left
         (fun anomalies ref_id =>
            if negb (in_topic_ids topics ref_id)
            then anomalies ++ [broken_anomaly (Topic.id topic) ref_id]
            else anomalies)
         all_refs anomalies)
    topics [].

Definition cycle_anomaly (cycle : Cycle) : Anomaly.t :=
  new_anomaly circular_reference
    (Py.join " → " (cycle_nodes cycle ++ [fst cycle]))
    medium
    ("Circular reference detected involving " ++
     Py.str (Z.of_nat (List.length (cycle_nodes cycle))) ++ " topics")
    (cycle_nodes cycle).

Definition _detect_circular_references (simple_cycles : SimpleCycles)
    (graph_builder : nx.DiGraph) : list Anomaly.t :=
  fold_left
    (fun anomalies cycle => anomalies ++ [cycle_anomaly cycle])
    (GraphBuilder.detect_circular_references simple_cycles graph_builder) [].

Definition orphan_anomaly (orphan_id : string) : Anomaly.t :=
  new_anomaly orphan_content
    orphan_id
    low
    ("Topic " ++ orphan_id ++ " has no connections to other topics")
    [orphan_id].

Definition _find_orphan_content (graph_builder : nx.DiGraph)
  : list Anomaly.t :=
  fold_left
    (fun anomalies orphan_id => anomalies ++ [orphan_anomaly orphan_id])
    (GraphBuilder.get_orphan_nodes graph_builder) [].

Definition duplicate_anomaly (topic_id : string) : Anomaly.t :=
  new_anomaly duplicate_topic
    topic_id
    critical
    ("Duplicate topic ID: " ++ topic_id)
    [topic_id].

(** One step of the loop of [_check_duplicates] on the pair
    [(anomalies, seen_ids)]. *)
Definition check_duplicate_step
    (state : list Anomaly.t * Dict.t Topic.t) (topic : Topic.t)
  : list Anomaly.t * Dict.t Topic.t :=
  let '(anomalies, seen_ids) := state in
  if Dict.mem seen_ids (Topic.id topic)
  then (anomalies ++ [duplicate_anomaly (Topic.id topic)], seen_ids)
  else (anomalies, Dict.set seen_ids (Topic.id topic) topic).

Definition _check_duplicates (topics : list Topic.t) : list Anomaly.t :=
  fst (fold_left check_duplicate_step topics ([], Dict.empty)).

Definition needs_strategies (s : Severity) : bool :=
  match s with high | critical => true | _ => false end.

Definition set_strategies (a : Anomaly.t) (strategies : list string)
  : Anomaly.t :=
  Anomaly.mk (Anomaly.type a) (Anomaly.location a) (Anomaly.severity a)
    (Anomaly.description a) strategies (Anomaly.affected_topics a).

(** [_generate_resolution_strategies]: the anomalies of the list are
    updated in place, the one at position [i] with the oracle's answer. *)
Fixpoint generate_from (llm : StrategyOracle) (i : nat)
    (anomalies : list Anomaly.t) : list Anomaly.t :=
  match anomalies with
  | [] => []
  | anomaly :: rest =>
      (if needs_strategies (Anomaly.severity anomaly)
       then set_strategies anomaly (llm i anomaly)
       else anomaly) :: generate_from llm (S i) rest
  end.

Definition _generate_resolution_strategies (llm : StrategyOracle)
    (anomalies : list Anomaly.t) : list Anomaly.t :=
  generate_from llm 0 anomalies.

Definition validate (py : Py.Numerals) (llm : StrategyOracle)
    (simple_cycles : SimpleCycles)
    (topics : list Topic.t) (graph_builder : nx.DiGraph) : list Anomaly.t :=
  let anomalies := [] in
  let anomalies := anomalies ++ _check_numbering_gaps py topics in
  let anomalies := anomalies ++ _validate_cross_references topics in
  let anomalies :=
    anomalies ++ _detect_circular_references simple_cycles graph_builder in
  let anomalies := anomalies ++ _find_orphan_content graph_builder in
  let anomalies := anomalies ++ _check_duplicates topics in
  _generate_resolution_strategies llm anomalies.

End ValidatorAgent.

(** ** Sample inputs *)

Definition topic (id : string) (parent : option string)
    (cross forward backward : list string) : Topic.t :=
  Topic.mk id "Title" "Content" parent [] cross forward backward None (95 # 100).

Definition no_cycles : SimpleCycles := fun _ => Some [].

(** The answer of [_llm_generate_strategies] when the model call fails. *)
Definition manual_review : StrategyOracle :=
  fun _ _ => ["Manual review required"].

(** Three topics that refer to each other in a circle, by references of
    three types. *)
Definition circle_topics : list Topic.t :=
  [topic "A" None ["B"] [] []; topic "B" None [] ["C"] [];
   topic "C" None [] [] ["A"]].

Definition circle : nx.DiGraph :=
  GraphBuilder.build_from_topics GraphBuilder.init circle_topics.

(** ** Vocabulary of the properties *)

(** The references of a topic that name no topic of the list, in the order
    in which the detector meets them. *)
Definition missing_references (topics : list Topic.t) (t : Topic.t)
  : list string :=
  filter (fun ref_id => negb (ValidatorAgent.in_topic_ids topics ref_id))
    (Topic.cross_references t ++ Topic.forward_references t ++
     Topic.backward_references t).

(** Number of anomalies of a list that carry a given location. *)
Definition count_at (location : string) (anomalies : list Anomaly.t) : nat :=
  List.length
    (filter (fun a => String.eqb (Anomaly.location a) location) anomalies).

(** An anomaly as a detector creates it, before strategies are attached. *)
Definition without_strategies (a : Anomaly.t) : Anomaly.t :=
  ValidatorAgent.set_strategies a [].

(** [sum(dict(G.degree()).values())] *)
Definition degree_sum (graph : nx.DiGraph) : nat :=
  list_sum (map snd (nx.degree graph)).

(** [x] is among [ids]. *)
Definition occurs (x : string) (ids : list string) : bool :=
  existsb (String.eqb x) ids.

(** Number of occurrences of [x] in [ids]. *)
Definition occurrences (x : string) (ids : list string) : nat :=
  count_occ string_dec ids x.

(** [all_refs] of [_validate_cross_references]: the three reference lists
    of a topic, one after the other. *)
Definition all_references (t : Topic.t) : list string :=
  Topic.cross_references t ++ Topic.forward_references t ++
  Topic.backward_references t.

(** The state of a [DiGraph] that networkx maintains: the three
    dictionaries have the same keys in the same order, no node is listed
    twice, an adjacency dictionary lists a neighbour once, and the target of
    an edge is a node. *)
Definition well_formed (G : nx.DiGraph) : Prop :=
  Dict.keys (nx._succ G) = nx.nodes G /\
  Dict.keys (nx._pred G) = nx.nodes G /\
  NoDup (nx.nodes G) /\
  (forall u, NoDup (Dict.keys (nx.inner (nx._succ G) u))) /\
  (forall u v, nx.has_edge G u v = true -> nx.has_node G v = true).

(** Number of entries of [G.edges()] that go from [s] to [t]. *)
Definition edge_count (G : nx.DiGraph) (s t : string) : nat :=
  List.length
    (filter (fun '(u, v, _) => String.eqb u s && String.eqb v t) (nx.edges G)).

(** The graphs that the methods of [GraphBuilder] produce. *)
Inductive constructed : nx.DiGraph -> Prop :=
| constructed_init : constructed GraphBuilder.init
| constructed_add_topic g t :
    constructed g -> constructed (GraphBuilder.add_topic g t)
| constructed_add_relationship g r :
    constructed g -> constructed (GraphBuilder.add_relationship g r).

(** The attribute dictionary that [add_relationship] stores for a
    relationship. *)
Definition edge_attributes (r : Relationship.t) : nx.EdgeAttr :=
  {| nx.e_type := Relationship.type r;
     nx.e_status := Relationship.status r;
     nx.e_context := Relationship.context r;
     nx.e_severity := Relationship.severity r |}.

(** The attributes of the edges that [build_from_topics] adds. *)
Definition valid_attributes (type : RelationshipType) : nx.EdgeAttr :=
  {| nx.e_type := type; nx.e_status := valid;
     nx.e_context := None; nx.e_severity := None |}.

(** A topic with another [children] list. *)
Definition with_children (t : Topic.t) (children : list string) : Topic.t :=
  Topic.mk (Topic.id t) (Topic.title t) (Topic.content t) (Topic.parent t)
    children (Topic.cross_references t) (Topic.forward_references t)
    (Topic.backward_references t) (Topic.position t) (Topic.confidence t).

(** The test of [get_orphan_nodes]. *)
Definition is_orphan (g : nx.DiGraph) (node : string) : bool :=
  (nx.in_degree g node =? 0) && (nx.out_degree g node =? 0).

(** No relationship that [build_from_topics] derives from [topics] starts
    or ends at [x]: a topic with a parent neither is [x] nor has [x] as
    parent, and a topic with references neither is [x] nor refers to [x]. *)
Definition unconnected (topics : list Topic.t) (x : string) : Prop :=
  forall t, In t topics ->
    (forall p, Topic.parent t = Some p -> p <> "" -> p <> x /\ Topic.id t <> x) /\
    (forall r, In r (all_references t) -> Topic.id t <> x /\ r <> x).

(** A node of a well-formed graph without incoming and outgoing edges. *)
Definition no_edges (g : nx.DiGraph) (x : string) : Prop :=
  well_formed g /\ nx.inner (nx._succ g) x = [] /\ nx.inner (nx._pred g) x = [].

(** The key under which [_check_numbering_gaps] groups a topic. *)
Definition group_key (t : Topic.t) : string :=
  Py.or_else (Topic.parent t) "root".

(** The ids of the topics of a group, in list order. *)
Definition group_members (topics : list Topic.t) (key : string) : list string :=
  map Topic.id (filter (fun t => String.eqb (group_key t) key) topics).

(** The elements of a list in the order of their first occurrence. *)
Fixpoint first_occurrences (l : list string) : list string :=
  match l with
  | [] => []
  | x :: l' =>
      x :: filter (fun y => negb (String.eqb y x)) (first_occurrences l')
  end.

(** *** ASCII numerals *)

Definition is_digit_char (c : ascii) : bool :=
  let n := nat_of_ascii c in (48 <=? n) && (n <=? 57).

Fixpoint all_digits (s : string) : bool :=
  match s with
  | EmptyString => true
  | String c rest => is_digit_char c && all_digits rest
  end.

(** A numeral of ASCII digits: at least one character, all of them among
    [0] to [9]. *)
Definition is_decimal (s : string) : bool :=
  match s with
  | EmptyString => false
  | _ => all_digits s
  end.

(** The number that a numeral of ASCII digits denotes in base ten. *)
Definition decimal_value (s : string) : option Z :=
  match s with
  | EmptyString => None
  | _ => option_map Z.of_uint (NilEmpty.uint_of_string s)
  end.

(** The text holds ASCII characters only. *)
Fixpoint is_ascii (s : string) : bool :=
  match s with
  | EmptyString => true
  | String c rest => (nat_of_ascii c <? 128) && is_ascii rest
  end.

(** The built-ins as far as ASCII text goes: the numerals are the strings
    of ASCII digits, read in base ten. *)
Definition ascii_numerals : Py.Numerals :=
  {| Py.isdigit := is_decimal; Py.int := decimal_value |}.

(** What every interpreter makes of ASCII text.  Of the ASCII characters
    the Unicode database counts [0] to [9] as digits and no other, so that
    on ASCII text [isdigit] holds of the numerals of ASCII digits only; and
    [int] reads such a numeral in base ten when it has at most 640 digits,
    the least value to which the interpreter's limit can be set. *)
Definition reads_decimals (py : Py.Numerals) : Prop :=
  (forall s, is_ascii s = true -> Py.isdigit py s = is_decimal s) /\
  (forall s, is_decimal s = true -> String.length s <= 640 ->
             Py.int py s = decimal_value s).

(** The number that the trailing segment of an id denotes, when it is
    numeric for the interpreter. *)
Definition trailing_number_in (py : Py.Numerals) (id : string) : option Z :=
  match Py.last_item (Py.split "." id) with
  | Some seg => if Py.isdigit py seg then Py.int py seg else None
  | None => None
  end.

(** The number that the trailing segment of an id denotes, when it is a
    numeral of ASCII digits. *)
Definition trailing_number (id : string) : option Z :=
  trailing_number_in ascii_numerals id.

(** The trailing segment of the id is ASCII text of at most 640
    characters. *)
Definition plain_id (id : string) : bool :=
  match Py.last_item (Py.split "." id) with
  | Some seg => is_ascii seg && (String.length seg <=? 640)
  | None => true
  end.

(** The ids of a group that take part in the gap analysis, each with its
    number. *)
Definition numbered (py : Py.Numerals) (children : list string)
  : list (Z * string) :=
  flat_map
    (fun id => match trailing_number_in py id with
               | Some n => [(n, id)]
               | None => []
               end)
    children.

(** The adjacent pairs of a list. *)
Definition neighbours {A : Type} (l : list A) : list (A * A) :=
  combine l (tl l).

(** The anomalies for the integers strictly between two neighbours. *)
Definition missing_between (pair : (Z * string) * (Z * string))
  : list Anomaly.t :=
  let '((current_num, current_id), (next_num, next_id)) := pair in
  map (ValidatorAgent.gap_anomaly current_id next_id)
    (Py.range (current_num + 1) next_num).

(** The anomalies of one group. *)
Definition gaps_in_group (py : Py.Numerals) (children : list string)
  : list Anomaly.t :=
  flat_map missing_between
    (neighbours (PySort.sort PySort.tuple_lt (numbered py children))).

(** The body of the loop over [i], as a function of the two neighbours. *)
Definition pair_anomalies (a b : option (Z * string)) : list Anomaly.t :=
  match a, b with
  | Some (current_num, current_id), Some (next_num, next_id) =>
      if (next_num - current_num >? 1)%Z
      then map (ValidatorAgent.gap_anomaly current_id next_id)
             (Py.range (current_num + 1) next_num)
      else []
  | _, _ => []
  end.

(** The elements of a list are in the order of [list.sort()]: none is
    smaller than its predecessor. *)
Definition ascending (l : list (Z * string)) : Prop :=
  Sorted (fun a b => PySort.tuple_lt b a = false) l.

(** Two neighbours of a sorted list of numbered ids are in number order. *)
Definition by_number (a b : Z * string) : Prop := (fst a <= fst b)%Z.

(** The pair of nodes is an edge of the graph. *)
Definition edge (G : nx.DiGraph) (p : string * string) : Prop :=
  nx.has_edge G (fst p) (snd p) = true.

(** The edges that a cycle follows: from each node to the next and from
    the last node back to the first. *)
Definition cycle_edges (c : list string) : list (string * string) :=
  combine c (tl c ++ firstn 1 c).

(** A simple cycle of a graph: a non-empty sequence of distinct nodes that
    follows edges, of any type, back to its start. *)
Definition is_simple_cycle (G : nx.DiGraph) (c : list string) : Prop :=
  c <> [] /\ NoDup c /\ Forall (edge G) (cycle_edges c).

(** The same cycle written from another start node. *)
Definition rotation (c c' : list string) : Prop :=
  exists l1 l2, c = l1 ++ l2 /\ c' = l2 ++ l1.

(** What the documentation of [nx.simple_cycles] promises of the cycles it
    yields: each is a simple cycle of the graph, every simple cycle of the
    graph is among them, written from some start node, and none is there
    twice. *)
Definition lists_simple_cycles (G : nx.DiGraph) (cycles : list Cycle) : Prop :=
  Forall (fun c => is_simple_cycle G (cycle_nodes c)) cycles /\
  (forall c, is_simple_cycle G c ->
             exists c0, In c0 cycles /\ rotation (cycle_nodes c0) c) /\
  ForallOrdPairs
    (fun c1 c2 => ~ rotation (cycle_nodes c1) (cycle_nodes c2)) cycles.

(** *** A reference enumeration of the simple cycles

    The cycle enumeration of networkx is not part of the repository.  The
    functions below enumerate the simple cycles of a graph in a plain way:
    they show that a result as [lists_simple_cycles] describes it exists
    for every graph that [GraphBuilder] can build. *)

Definition without (w : string) (l : list string) : list string :=
  filter (fun y => negb (String.eqb y w)) l.

(** The paths that start at [v], continue along edges through nodes of
    [remaining], and visit no node twice; [fuel] bounds their length. *)
Fixpoint simple_paths (G : nx.DiGraph) (fuel : nat) (remaining : list string)
    (v : string) : list (list string) :=
  match fuel with
  | 0 => []
  | S fuel' =>
      [v] ::
      flat_map
        (fun w =>
           if nx.has_edge G v w
           then map (cons v) (simple_paths G fuel' (without w remaining) w)
           else [])
        remaining
  end.

(** The path ends at a node with an edge back to [start]. *)
Definition closes (G : nx.DiGraph) (start : string) (path : list string) : bool :=
  nx.has_edge G (last path start) start.

(** The simple cycles through [start] and otherwise through nodes of
    [later], written from [start]. *)
Definition cycles_from (G : nx.DiGraph) (start : string) (later : list string)
  : list (list string) :=
  filter (closes G start) (simple_paths G (S (List.length later)) later start).

(** The simple cycles through the nodes of [order], each written from the
    node of it that comes first in [order]. *)
Fixpoint cycles_of (G : nx.DiGraph) (order : list string) : list (list string) :=
  match order with
  | [] => []
  | start :: later => cycles_from G start later ++ cycles_of G later
  end.

Definition as_cycle (path : list string) : Cycle := (hd "" path, tl path).

Definition reference_cycles : SimpleCycles :=
  fun G => Some (map as_cycle (cycles_of G (nx.nodes G))).

(** ** Further vocabulary of the graph store *)

(** The attributes that [add_topic] stores for a topic. *)
Definition node_attributes (t : Topic.t) : nx.NodeAttr :=
  {| nx.n_title := Topic.title t;
     nx.n_content := Topic.content t;
     nx.n_confidence := Topic.confidence t |}.

(** The targets of the [hierarchical] edges that leave a node, in the
    order in which the edges were first added. *)
Definition hierarchical_children (g : nx.DiGraph) (node : string) : list string :=
  map fst
    (filter (fun '(_, data) => GraphBuilder.is_hierarchical (nx.e_type data))
       (nx.inner (nx._succ g) node)).

(** The node is an end point of the relationship. *)
Definition is_end_point (r : Relationship.t) (node : string) : bool :=
  String.eqb node (Relationship.source r) ||
  String.eqb node (Relationship.target r).

Definition nonempty {A : Type} (l : list A) : bool :=
  match l with [] => false | _ => true end.

(** The id is named by a topic of the list: as its id, as its parent or
    among its references. *)
Definition named_by (topics : list Topic.t) (x : string) : Prop :=
  exists t, In t topics /\
            (x = Topic.id t \/ Topic.parent t = Some x \/
             In x (all_references t)).

(** [g] has the nodes of [g0] and behind them nodes without attributes
    that [topics] name; the attributes of the nodes of [g0] are the same. *)
Definition extends (topics : list Topic.t) (g0 g : nx.DiGraph) : Prop :=
  well_formed g /\
  (exists extra,
      nx.nodes g = nx.nodes g0 ++ extra /\
      forall x, In x extra ->
                named_by topics x /\ Dict.get (nx._node g) x = Some None) /\
  (forall x, nx.has_node g0 x = true ->
             Dict.get (nx._node g) x = Dict.get (nx._node g0) x).

(** [export_to_dict]: the list under ["nodes"], one entry per node with
    its id and its attribute dictionary ([None] is the empty one), and the
    list under ["edges"], one entry per edge with its end points and its
    attribute dictionary. *)
Definition export_to_dict (graph : nx.DiGraph)
  : list (string * option nx.NodeAttr) *
    list (string * string * nx.EdgeAttr) :=
  (map (fun node => (node, Dict.item (nx._node graph) node None))
     (nx.nodes graph),
   nx.edges graph).

(** Number of entries of all inner dictionaries of an adjacency. *)
Definition adjacency_size {V : Type} (d : Dict.t (Dict.t V)) : nat :=
  list_sum (map (fun kv => List.length (snd kv)) d).

(** Successors and predecessors hold the same edges, and as many. *)
Definition mirrored (G : nx.DiGraph) : Prop :=
  adjacency_size (nx._succ G) = adjacency_size (nx._pred G) /\
  forall u v, Dict.mem (nx.inner (nx._succ G) u) v =
              Dict.mem (nx.inner (nx._pred G) v) u.

(** End points of an exported edge. *)
Definition end_points (e : string * string * nx.EdgeAttr) : string * string :=
  let '(u, v, _) := e in (u, v).

(** [sep in s] for a one-character [sep]. *)
Fixpoint has_char (sep : ascii) (s : string) : bool :=
  match s with
  | EmptyString => false
  | String c rest => Ascii.eqb c sep || has_char sep rest
  end.

(** The segments of an id before the trailing one. *)
Definition leading_segments (id : string) : list string :=
  removelast (Py.split "." id).

(** The gaps between the neighbours of a list of numbered ids: the two
    neighbours and an integer strictly between their numbers. *)
Definition gaps_between (l : list (Z * string)) : list (string * string * Z) :=
  flat_map
    (fun pair : (Z * string) * (Z * string) =>
       let '((current_num, current_id), (next_num, next_id)) := pair in
       map (fun m => (current_id, next_id, m))
         (Py.range (current_num + 1) next_num))
    (neighbours l).

(** The gaps of the group of a key. *)
Definition group_gaps (py : Py.Numerals) (topics : list Topic.t)
    (key : string) : list (string * string * Z) :=
  gaps_between
    (PySort.sort PySort.tuple_lt (numbered py (group_members topics key))).

(** The numbers that the ids of the group of a key carry. *)
Definition group_numbers (py : Py.Numerals) (topics : list Topic.t)
    (key : string) : list Z :=
  map fst (numbered py (group_members topics key)).

Definition gap_number (gap : string * string * Z) : Z := snd gap.

Definition anomaly_of_gap (gap : string * string * Z) : Anomaly.t :=
  let '(current_id, next_id, m) := gap in
  ValidatorAgent.gap_anomaly current_id next_id m.

(** ** Ancestors *)

(** What [nx.shortest_path(G, source, target)] does: it returns a path,
    raises [NetworkXNoPath], or fails with another exception.
    [nx.has_path] is [True] where it returns and [False] on
    [NetworkXNoPath]. *)
Inductive PathResult :=
| Found (path : list string)
| NoPath
| Failed.

Definition ShortestPath := nx.DiGraph -> string -> string -> PathResult.

Module Ancestors.

(** The loop of [_is_hierarchical_path] over [range(len(path) - 1)]; a pair
    without edge data passes.  The indices of the range are within the
    path, so that the [IndexError] branches are out of reach. *)
Fixpoint hierarchical_steps (graph : nx.DiGraph) (path : list string)
    (indices : list nat) : bool :=
  match indices with
  | [] => true
  | i :: rest =>
      match nth_error path i, nth_error path (i + 1) with
      | Some u, Some v =>
          match nx.get_edge_data graph u v with
          | Some edge_data =>
              if negb (GraphBuilder.is_hierarchical (nx.e_type edge_data))
              then false
              else hierarchical_steps graph path rest
          | None => hierarchical_steps graph path rest
          end
      | _, _ => true
      end
  end.

Definition _is_hierarchical_path (graph : nx.DiGraph) (path : list string)
  : bool :=
  hierarchical_steps graph path (seq 0 (List.length path - 1)).

(** The loop of [get_topic_ancestors] over the nodes; an exception ends it
    with the ancestors found so far. *)
Fixpoint ancestors_among (shortest_path : ShortestPath) (graph : nx.DiGraph)
    (topic_id : string) (nodes : list string) : list string :=
  match nodes with
  | [] => []
  | node :: rest =>
      match shortest_path graph node topic_id with
      | Found path =>
          if _is_hierarchical_path graph path
          then node :: ancestors_among shortest_path graph topic_id rest
          else ancestors_among shortest_path graph topic_id rest
      | NoPath => ancestors_among shortest_path graph topic_id rest
      | Failed => []
      end
  end.

Definition get_topic_ancestors (shortest_path : ShortestPath)
    (graph : nx.DiGraph) (topic_id : string) : list string :=
  if negb (nx.has_node graph topic_id) then []
  else ancestors_among shortest_path graph topic_id (nx.nodes graph).

End Ancestors.

(** A path of the graph from [s] to [t]: it starts at [s], ends at [t] and
    follows edges. *)
Definition is_path (G : nx.DiGraph) (s t : string) (path : list string) : Prop :=
  hd_error path = Some s /\ Py.last_item path = Some t /\
  Forall (edge G) (neighbours path).

(** What networkx documents for [shortest_path] between nodes of the
    graph: a path with the fewest edges when there is a path, and
    [NetworkXNoPath] when there is none. *)
Definition finds_shortest_paths (shortest_path : ShortestPath)
    (G : nx.DiGraph) : Prop :=
  forall s t,
    nx.has_node G s = true -> nx.has_node G t = true ->
    match shortest_path G s t with
    | Found path =>
        is_path G s t path /\
        forall path', is_path G s t path' ->
                      List.length path <= List.length path'
    | NoPath => forall path', ~ is_path G s t path'
    | Failed => False
    end.

(** A step of a path passes [_is_hierarchical_path]: the pair is no edge,
    or a hierarchical one. *)
Definition hierarchical_or_absent (G : nx.DiGraph) (p : string * string)
  : bool :=
  match nx.get_edge_data G (fst p) (snd p) with
  | Some d => GraphBuilder.is_hierarchical (nx.e_type d)
  | None => true
  end.

(** The answers of [shortest_path] on a graph with the single edge from
    ["1"] to ["1.1"]. *)
Definition parent_and_child : nx.DiGraph :=
  GraphBuilder.build_from_topics GraphBuilder.init
    [topic "1" None [] [] []; topic "1.1" (Some "1") [] [] []].

Definition direct_paths : ShortestPath :=
  fun G s t =>
    if String.eqb s t then Found [s]
    else if nx.has_edge G s t then Found [s; t]
    else NoPath.

(** ** The client of the language model

    [LLMClient] of [utils/llm_utils.py].  The calls to the OpenAI API are
    parameters: a chat completion gets the model name, the messages, the
    temperature and the token limit and returns the content of the first
    choice, an embedding request gets the model name and the input; [None]
    is an exception of the API.  Floats are rationals. *)
Module LLMClient.

Record Message := { role : string; content : string }.

Definition ChatApi := string -> list Message -> Q -> Z -> option string.

Definition EmbedApi := string -> string -> option (list Q).

(** A value of [self.cache]: a response text or an embedding. *)
Inductive Cached :=
| Text (result : string)
| Vector (embedding : list Q).

Record t := {
  gpt4_model : string;
  gpt35_model : string;
  embedding_model : string;
  max_tokens : Z;
  temperature : Q;
  cache : Dict.t Cached
}.

Definition with_cache (self : t) (cache' : Dict.t Cached) : t :=
  {| gpt4_model := gpt4_model self;
     gpt35_model := gpt35_model self;
     embedding_model := embedding_model self;
     max_tokens := max_tokens self;
     temperature := temperature self;
     cache := cache' |}.

(** [{system_message}] in an f-string. *)
Definition format_optional (o : option string) : string :=
  match o with
  | Some s => s
  | None => "None"
  end.

(** [temperature or self.temperature]: [None] and [0.0] are false. *)
Definition or_temperature (o : option Q) (default : Q) : Q :=
  match o with
  | Some x => if Qeq_bool x 0 then default else x
  | None => default
  end.

(** [max_tokens or self.max_tokens]: [None] and [0] are false. *)
Definition or_max_tokens (o : option Z) (default : Z) : Z :=
  match o with
  | Some x => if (x =? 0)%Z then default else x
  | None => default
  end.

Definition messages_for (prompt : string) (system_message : option string)
  : list Message :=
  let messages := [] in
  let messages :=
    match system_message with
    | Some s =>
        if Py.truthy system_message
        then messages ++ [{| role := "system"; content := s |}]
        else messages
    | None => messages
    end in
  messages ++ [{| role := "user"; content := prompt |}].

(** The result is the returned value, [None] for the exception that is
    raised again, and the client afterwards. *)
Definition call_gpt4 (api : ChatApi) (self : t) (prompt : string)
    (system_message : option string) (temperature' : option Q)
    (max_tokens' : option Z) : option Cached * t :=
  let cache_key :=
    ("gpt4:" ++ format_optional system_message ++ ":" ++ prompt)%string in
  match Dict.get (cache self) cache_key with
  | Some cached => (Some cached, self)
  | None =>
      let messages := messages_for prompt system_message in
      match api (gpt4_model self) messages
              (or_temperature temperature' (temperature self))
              (or_max_tokens max_tokens' (max_tokens self)) with
      | Some result =>
          (Some (Text result),
           with_cache self (Dict.set (cache self) cache_key (Text result)))
      | None => (None, self)
      end
  end.

Definition call_gpt35 (api : ChatApi) (self : t) (prompt : string)
    (system_message : option string) (temperature' : option Q)
    (max_tokens' : option Z) : option Cached * t :=
  let cache_key :=
    ("gpt35:" ++ format_optional system_message ++ ":" ++ prompt)%string in
  match Dict.get (cache self) cache_key with
  | Some cached => (Some cached, self)
  | None =>
      let messages := messages_for prompt system_message in
      match api (gpt35_model self) messages
              (or_temperature temperature' (temperature self))
              (or_max_tokens max_tokens' (max_tokens self)) with
      | Some result =>
          (Some (Text result),
           with_cache self (Dict.set (cache self) cache_key (Text result)))
      | None => (None, self)
      end
  end.

(** A byte that continues a character of the UTF-8 encoding. *)
Definition is_continuation (c : ascii) : bool :=
  let n := nat_of_ascii c in (128 <=? n) && (n <? 192).

(** [text[:n]]: the first [n] characters, each with all its bytes. *)
Fixpoint take_chars (n : nat) (text : string) : string :=
  match text with
  | EmptyString => EmptyString
  | String c rest =>
      if is_continuation c then String c (take_chars n rest)
      else match n with
           | 0 => EmptyString
           | S n' => String c (take_chars n' rest)
           end
  end.

Definition get_embedding (api : EmbedApi) (self : t) (text : string)
  : option Cached * t :=
  let cache_key := ("embed:" ++ take_chars 100 text)%string in
  match Dict.get (cache self) cache_key with
  | Some cached => (Some cached, self)
  | None =>
      match api (embedding_model self) text with
      | Some embedding =>
          (Some (Vector embedding),
           with_cache self (Dict.set (cache self) cache_key (Vector embedding)))
      | None => (None, self)
      end
  end.

Definition clear_cache (self : t) : t := with_cache self Dict.empty.

End LLMClient.

(** The key under which a chat call of a model family is cached. *)
Definition chat_key (family : string) (system_message : option string)
    (prompt : string) : string :=
  (family ++ ":" ++ LLMClient.format_optional system_message ++ ":" ++ prompt)%string.

(** Every entry of the cache has the type of the call that stored it: a
    text under the keys of the chat calls, an embedding under the keys of
    [get_embedding]; the cache has no other keys. *)
Definition typed_cache (cache : Dict.t LLMClient.Cached) : Prop :=
  forall key value,
    Dict.get cache key = Some value ->
    (exists rest result,
        (key = ("gpt4:" ++ rest)%string \/ key = ("gpt35:" ++ rest)%string) /\
        value = LLMClient.Text result) \/
    (exists rest embedding,
        key = ("embed:" ++ rest)%string /\ value = LLMClient.Vector embedding).

(** A client as [__init__] leaves it, with the defaults of the settings. *)
Definition new_client : LLMClient.t :=
  {| LLMClient.gpt4_model := "gpt-4-turbo-preview";
     LLMClient.gpt35_model := "gpt-3.5-turbo";
     LLMClient.embedding_model := "text-embedding-3-small";
     LLMClient.max_tokens := 4096;
     LLMClient.temperature := 2 # 10;
     LLMClient.cache := Dict.empty |}.

(** An API that answers with the content of the last message and the
    temperature class it was called with, and one that always fails. *)
Definition echo_api : LLMClient.ChatApi :=
  fun _ messages temperature _ =>
    Some (String.concat "|" (map LLMClient.content messages) ++
          (if Qeq_bool temperature (2 # 10) then "@default" else "@custom"))%string.

Definition failing_api : LLMClient.ChatApi := fun _ _ _ _ => None.

(** A text of one hundred characters followed by [suffix]. *)
Fixpoint padded (n : nat) (suffix : string) : string :=
  match n with
  | 0 => suffix
  | S n' => String "a" (padded n' suffix)
  end.

(** An embedding API that answers with the length of its input. *)
Definition length_api : LLMClient.EmbedApi :=
  fun _ text => Some [inject_Z (Z.of_nat (String.length text))].

(** The number of characters of a text in UTF-8. *)
Fixpoint char_count (text : string) : nat :=
  match text with
  | EmptyString => 0
  | String c rest =>
      (if LLMClient.is_continuation c then 0 else 1) + char_count rest
  end.

(** The text does not start in the middle of a character. *)
Definition starts_a_char (text : string) : bool :=
  match text with
  | EmptyString => true
  | String c _ => negb (LLMClient.is_continuation c)
  end.

(** ** The relationship mapper

    [RelationshipMapperAgent] of [agents/mapper.py].  What the embedding
    request, the similarity test and the verification by the language model
    answer is a parameter, by the positions of the topics in the list:
    [embeds i] tells that [get_embedding] returned for the topic at
    position [i], and [related i j] is the context of the relationship when
    the similarity of the topics at [i] and [j] reaches the threshold and
    the model confirms the relationship. *)
Module RelationshipMapperAgent.

(** [enumerate(l)] *)
Definition enumerate {A : Type} (l : list A) : list (nat * A) :=
  combine (seq 0 (List.length l)) l.

(** First loop of [_detect_implicit_references]: [topic_embeddings], with
    the position of the embedded topic in place of the vector. *)
Definition topic_embeddings (embeds : nat -> bool) (topics : list Topic.t)
  : Dict.t nat :=
  fold_left
    (fun topic_embeddings '(i, topic) =>
       if embeds i then Dict.set topic_embeddings (Topic.id topic) i
       else topic_embeddings)
    (enumerate topics) Dict.empty.

Definition implicit_reference (source target context : string)
  : Relationship.t :=
  Relationship.mk source target cross_reference valid (Some context) None.

Definition _detect_implicit_references (embeds : nat -> bool)
    (related : nat -> nat -> option string) (topics : list Topic.t)
  : list Relationship.t :=
  let topic_embeddings := topic_embeddings embeds topics in
  fold_left
    (fun implicit_refs '(i, topic) =>
       if negb (Dict.mem topic_embeddings (Topic.id topic)) then implicit_refs
       else
         fold_left
           (fun implicit_refs '(j, other_topic) =>
              if String.eqb (Topic.id topic) (Topic.id other_topic)
              then implicit_refs
              else if negb (Dict.mem topic_embeddings (Topic.id other_topic))
              then implicit_refs
              else if existsb (String.eqb (Topic.id other_topic))
                        (Topic.cross_references topic)
              then implicit_refs
              else match related i j with
                   | Some context =>
                       implicit_refs ++
                       [implicit_reference (Topic.id topic)
                          (Topic.id other_topic) context]
                   | None => implicit_refs
                   end)
           (enumerate topics) implicit_refs)
    (enumerate topics) [].

(** The graph of the [GraphBuilder] that [map_relationships] returns. *)
Definition map_relationships (embeds : nat -> bool)
    (related : nat -> nat -> option string) (graph : nx.DiGraph)
    (topics : list Topic.t) : nx.DiGraph :=
  let graph := GraphBuilder.build_from_topics graph topics in
  let implicit_refs := _detect_implicit_references embeds related topics in
  fold_left GraphBuilder.add_relationship implicit_refs graph.

End RelationshipMapperAgent.

(** The relationship links the pair of nodes. *)
Definition links (u v : string) (r : Relationship.t) : bool :=
  String.eqb (Relationship.source r) u && String.eqb (Relationship.target r) v.

(** An implicit reference as the mapper creates them: a valid cross
    reference between the ids of two topics of the list with different
    ids, the second not among the cross references of the first. *)
Definition implicit_between (topics : list Topic.t) (r : Relationship.t)
  : Prop :=
  Relationship.type r = cross_reference /\
  Relationship.status r = valid /\
  Relationship.source r <> Relationship.target r /\
  exists topic other_topic,
    In topic topics /\ In other_topic topics /\
    Relationship.source r = Topic.id topic /\
    Relationship.target r = Topic.id other_topic /\
    ~ In (Topic.id other_topic) (Topic.cross_references topic).

(** Every pair of topics is related, with one context. *)
Definition all_related : nat -> nat -> option string :=
  fun _ _ => Some "Implicit semantic similarity: 0.80".

(** ** The hierarchy of the parser

    [_find_parent_id] and [_build_hierarchy] of [agents/parser.py].  The
    topics of the list are distinct objects, as [_validate_topics] creates
    them; an object is named by its position in the list, and [topic_map]
    maps an id to the position of the object it holds. *)
Module DocumentParserAgent.

Definition _find_parent_id (topic_id : string) : option string :=
  let parts := Py.split "." topic_id in
  if 1 <? List.length parts
  then Some (Py.join "." (removelast parts))
  else None.

(** [topic.parent = parent_id] *)
Definition set_parent (parent_id : string) (topic : Topic.t) : Topic.t :=
  Topic.mk (Topic.id topic) (Topic.title topic) (Topic.content topic)
    (Some parent_id) (Topic.children topic) (Topic.cross_references topic)
    (Topic.forward_references topic) (Topic.backward_references topic)
    (Topic.position topic) (Topic.confidence topic).

(** [topic.children.append(child_id)] *)
Definition append_child (child_id : string) (topic : Topic.t) : Topic.t :=
  Topic.mk (Topic.id topic) (Topic.title topic) (Topic.content topic)
    (Topic.parent topic) (Topic.children topic ++ [child_id])
    (Topic.cross_references topic) (Topic.forward_references topic)
    (Topic.backward_references topic) (Topic.position topic)
    (Topic.confidence topic).

(** The object at position [i] is updated in place. *)
Fixpoint update_at {A : Type} (objects : list A) (i : nat) (f : A -> A)
  : list A :=
  match objects, i with
  | [], _ => []
  | x :: rest, 0 => f x :: rest
  | x :: rest, S i' => x :: update_at rest i' f
  end.

(** [{topic.id: topic for topic in topics}] *)
Definition topic_map (topics : list Topic.t) : Dict.t nat :=
  fold_left
    (fun topic_map '(i, topic) => Dict.set topic_map (Topic.id topic) i)
    (RelationshipMapperAgent.enumerate topics) Dict.empty.

(** Body of the loop of [_build_hierarchy] for the object at position
    [i]. *)
Definition build_step (topic_map : Dict.t nat) (objects : list Topic.t)
    (i : nat) : list Topic.t :=
  match nth_error objects i with
  | Some topic =>
      match _find_parent_id (Topic.id topic) with
      | Some parent_id =>
          if Py.truthy (Some parent_id) then
            match Dict.get topic_map parent_id with
            | Some j =>
                update_at (update_at objects i (set_parent parent_id))
                  j (append_child (Topic.id topic))
            | None => objects
            end
          else objects
      | None => objects
      end
  | None => objects
  end.

Definition _build_hierarchy (topics : list Topic.t) : list Topic.t :=
  fold_left (build_step (topic_map topics))
    (seq 0 (List.length topics)) topics.

End DocumentParserAgent.

(** The parent that [_build_hierarchy] assigns to a topic of the list. *)
Definition assigned_parent (topics : list Topic.t) (t : Topic.t)
  : option string :=
  match DocumentParserAgent._find_parent_id (Topic.id t) with
  | Some p =>
      if Py.truthy (Some p) && Dict.mem (DocumentParserAgent.topic_map topics) p
      then Some p else None
  | None => None
  end.

(** The object at position [j] receives the topic [c] as a child. *)
Definition adopts (topics : list Topic.t) (j : nat) (c : Topic.t) : bool :=
  match assigned_parent topics c with
  | Some p =>
      match Dict.get (DocumentParserAgent.topic_map topics) p with
      | Some j' => j' =? j
      | None => false
      end
  | None => false
  end.

(** The object at position [j] after the first [k] rounds of the loop. *)
Definition adopted (topics : list Topic.t) (k j : nat) (t : Topic.t)
  : Topic.t :=
  Topic.mk (Topic.id t) (Topic.title t) (Topic.content t)
    (if j <? k
     then match assigned_parent topics t with
          | Some p => Some p
          | None => Topic.parent t
          end
     else Topic.parent t)
    (Topic.children t ++
     map Topic.id (filter (adopts topics j) (firstn k topics)))
    (Topic.cross_references t) (Topic.forward_references t)
    (Topic.backward_references t) (Topic.position t) (Topic.confidence t).

(** The last position of the list at which the id occurs. *)
Definition last_position (topics : list Topic.t) (p : string) (j : nat)
  : Prop :=
  (exists t, nth_error topics j = Some t /\ Topic.id t = p) /\
  forall j' t', j < j' -> nth_error topics j' = Some t' -> Topic.id t' <> p.

(** A topic as [_validate_topics] creates it. *)
Definition fresh_topic (t : Topic.t) : Prop :=
  Topic.parent t = None /\ Topic.children t = [].

(** [_build_hierarchy] writes to the parent and the children of a topic
    and to no other field. *)
Definition same_but_hierarchy (t t' : Topic.t) : Prop :=
  Topic.id t' = Topic.id t /\ Topic.title t' = Topic.title t /\
  Topic.content t' = Topic.content t /\
  Topic.cross_references t' = Topic.cross_references t /\
  Topic.forward_references t' = Topic.forward_references t /\
  Topic.backward_references t' = Topic.backward_references t /\
  Topic.position t' = Topic.position t /\
  Topic.confidence t' = Topic.confidence t.

(** An interpreter that knows the Arabic-Indic digits beside the ASCII
    ones: a digit [U+0660] to [U+0669], two bytes in UTF-8, reads as the
    ASCII digit of its value. *)
Fixpoint western_digits (s : string) : string :=
  match s with
  | EmptyString => EmptyString
  | String c1 t =>
      match t with
      | String c2 rest =>
          if (nat_of_ascii c1 =? 217) &&
             (160 <=? nat_of_ascii c2) && (nat_of_ascii c2 <=? 169)
          then String (ascii_of_nat (nat_of_ascii c2 - 112))
                 (western_digits rest)
          else String c1 (western_digits t)
      | EmptyString => String c1 EmptyString
      end
  end.

Definition arabic_indic_numerals : Py.Numerals :=
  {| Py.isdigit := fun s => is_decimal (western_digits s);
     Py.int := fun s => decimal_value (western_digits s) |}.

(** ** Lemmas on the built-ins and on dictionaries *)

Section FoldAppend.
Context {A B : Type}.

(** A loop that appends to a list is a [flat_map]. *)
Lemma fold_left_append (f : A -> list B) (l : list A) (init : list B) :
  fold_left (fun acc x => acc ++ f x) l init = init ++ flat_map f l.
Proof.
  revert init. induction l as [|x l IH]; intros init; simpl.
  - now rewrite app_nil_r.
  - rewrite IH. now rewrite app_assoc.
Qed.

Lemma fold_left_append_one (f : A -> B) (l : list A) (init : list B) :
  fold_left (fun acc x => acc ++ [f x]) l init = init ++ map f l.
Proof.
  revert init. induction l as [|x l IH]; intros init; simpl.
  - now rewrite app_nil_r.
  - rewrite IH. now rewrite <- app_assoc.
Qed.

Lemma fold_left_ext (f g : B -> A -> B) (l : list A) (init : B) :
  (forall b a, f b a = g b a) -> fold_left f l init = fold_left g l init.
Proof.
  intros E. revert init. induction l as [|x l IH]; intros init; simpl; auto.
  rewrite E. apply IH.
Qed.
End FoldAppend.

Module DictFacts.
Import Dict.

Section Facts.
Context {V : Type}.
Implicit Types (d : Dict.t V) (k : string) (v : V).

Lemma mem_In_keys d k : mem d k = true <-> In k (keys d).
Proof.
  unfold mem. induction d as [|[k' v'] d IH]; simpl.
  - split; [discriminate | tauto].
  - destruct (String.eqb_spec k' k) as [->|Hne].
    + split; auto.
    + rewrite IH. split; [auto | intros [?|?]; [congruence | auto]].
Qed.

Lemma mem_false_keys d k : mem d k = false <-> ~ In k (keys d).
Proof.
  rewrite <- mem_In_keys. destruct (mem d k); split; congruence.
Qed.

Lemma get_set_same d k v : get (set d k v) k = Some v.
Proof.
  induction d as [|[k' v'] d IH]; simpl.
  - now rewrite String.eqb_refl.
  - destruct (String.eqb_spec k' k) as [->|Hne]; simpl.
    + now rewrite String.eqb_refl.
    + destruct (String.eqb_spec k' k); [contradiction | exact IH].
Qed.

Lemma get_set_other d k k' v : k <> k' -> get (set d k v) k' = get d k'.
Proof.
  intros Hne. induction d as [|[k0 v0] d IH]; simpl.
  - destruct (String.eqb_spec k k'); [contradiction | reflexivity].
  - destruct (String.eqb_spec k0 k) as [->|Hne0]; simpl.
    + destruct (String.eqb_spec k k'); [contradiction | reflexivity].
    + destruct (String.eqb_spec k0 k'); [reflexivity | exact IH].
Qed.

Lemma mem_set_same d k v : mem (set d k v) k = true.
Proof. unfold mem. now rewrite get_set_same. Qed.

Lemma mem_set_other d k k' v : k <> k' -> mem (set d k v) k' = mem d k'.
Proof. intros H. unfold mem. now rewrite get_set_other. Qed.

Lemma keys_set d k v :
  keys (set d k v) = if mem d k then keys d else keys d ++ [k].
Proof.
  unfold mem. induction d as [|[k' v'] d IH]; simpl; auto.
  destruct (String.eqb_spec k' k) as [->|Hne]; simpl; auto.
  rewrite IH. now destruct (get d k).
Qed.

Lemma set_set d k v v' : set (set d k v) k v' = set d k v'.
Proof.
  induction d as [|[k' v0] d IH]; simpl.
  - now rewrite String.eqb_refl.
  - destruct (String.eqb_spec k' k) as [->|Hne]; simpl.
    + now rewrite String.eqb_refl.
    + destruct (String.eqb_spec k' k); [contradiction | now rewrite IH].
Qed.

Lemma set_absent d k v : mem d k = false -> set d k v = d ++ [(k, v)].
Proof.
  unfold mem. induction d as [|[k' v'] d IH]; simpl; auto.
  destruct (String.eqb_spec k' k) as [->|Hne]; [discriminate|].
  intros H. now rewrite IH.
Qed.

Lemma length_set d k v :
  List.length (set d k v) =
  if mem d k then List.length d else S (List.length d).
Proof.
  unfold mem. induction d as [|[k' v'] d IH]; simpl; auto.
  destruct (String.eqb_spec k' k) as [->|Hne]; simpl; auto.
  rewrite IH. now destruct (get d k).
Qed.

Lemma NoDup_keys_set d k v : NoDup (keys d) -> NoDup (keys (set d k v)).
Proof.
  intros H. rewrite keys_set. destruct (mem d k) eqn:E; auto.
  apply mem_false_keys in E.
  apply NoDup_app; auto.
  - constructor; [intros [] | constructor].
  - intros x Hx [<-|[]]. contradiction.
Qed.

Lemma get_In d k v : get d k = Some v -> In (k, v) d.
Proof.
  induction d as [|[k' v'] d IH]; simpl; [discriminate|].
  destruct (String.eqb_spec k' k) as [->|Hne].
  - intros [= ->]. now left.
  - intros H. right. auto.
Qed.

Lemma In_get d k v : NoDup (keys d) -> In (k, v) d -> get d k = Some v.
Proof.
  induction d as [|[k' v'] d IH]; simpl; [tauto|].
  intros Hnd [[= -> ->]|Hin].
  - now rewrite String.eqb_refl.
  - inversion Hnd as [|? ? Hnotin Hnd']; subst.
    destruct (String.eqb_spec k' k) as [->|Hne]; auto.
    exfalso. apply Hnotin. change (In (fst (k, v)) (map fst d)).
    now apply in_map.
Qed.

Lemma item_set_same d k v default : item (set d k v) k default = v.
Proof. unfold item. now rewrite get_set_same. Qed.

Lemma item_set_other d k k' v default :
  k <> k' -> item (set d k v) k' default = item d k' default.
Proof. intros H. unfold item. now rewrite get_set_other. Qed.

End Facts.
End DictFacts.

(** ** The detectors as list comprehensions *)

Module Detectors.
Import ValidatorAgent.

Lemma find_orphan_content_map (g : nx.DiGraph) :
  _find_orphan_content g = map orphan_anomaly (GraphBuilder.get_orphan_nodes g).
Proof. unfold _find_orphan_content. now rewrite fold_left_append_one. Qed.

Lemma detect_circular_references_map (sc : SimpleCycles) (g : nx.DiGraph) :
  _detect_circular_references sc g =
  map cycle_anomaly (GraphBuilder.detect_circular_references sc g).
Proof. unfold _detect_circular_references. now rewrite fold_left_append_one. Qed.

Lemma fold_left_filter_append {A B : Type} (p : A -> bool) (f : A -> B)
    (l : list A) (init : list B) :
  fold_left (fun acc x => if p x then acc ++ [f x] else acc) l init =
  init ++ map f (filter p l).
Proof.
  revert init. induction l as [|x l IH]; intros init; simpl.
  - now rewrite app_nil_r.
  - rewrite IH. destruct (p x); simpl; auto. now rewrite <- app_assoc.
Qed.

Lemma validate_cross_references_flat_map (topics : list Topic.t) :
  _validate_cross_references topics =
  flat_map
    (fun t => map (broken_anomaly (Topic.id t)) (missing_references topics t))
    topics.
Proof.
  unfold _validate_cross_references.
  rewrite <- (app_nil_l (flat_map _ topics)).
  rewrite <- fold_left_append.
  apply fold_left_ext. intros acc t.
  apply fold_left_filter_append.
Qed.

Lemma in_topic_ids_spec (topics : list Topic.t) (r : string) :
  in_topic_ids topics r = true <-> exists t, In t topics /\ Topic.id t = r.
Proof.
  unfold in_topic_ids. rewrite existsb_exists. split.
  - intros (x & Hin & E). apply String.eqb_eq in E. subst x.
    apply in_map_iff in Hin. destruct Hin as (t & E & Hin). eauto.
  - intros (t & Hin & E). exists r. split.
    + apply in_map_iff. eauto.
    + apply String.eqb_refl.
Qed.

End Detectors.

(** ** Graph statistics *)

Lemma truediv_positive (a b : Z) :
  (0 < b)%Z ->
  exists q, Py.truediv a b = Some q /\ (q == inject_Z a / inject_Z b)%Q.
Proof.
  intros Hb. destruct b as [|p|p]; try lia.
  exists (Qmake a p). split; [reflexivity | apply Qmake_Qdiv].
Qed.

Lemma degree_sum_no_nodes (graph : nx.DiGraph) :
  nx.number_of_nodes graph = 0 -> degree_sum graph = 0.
Proof.
  unfold nx.number_of_nodes, degree_sum, nx.degree, nx.nodes, Dict.keys.
  destruct (nx._node graph); [reflexivity | discriminate].
Qed.

(** C10: [get_statistics] returns on every graph, the empty one included:
    the divisor [max(number_of_nodes, 1)] is never 0, [average_degree] is
    the degree sum divided by it, and it is 0 on a graph without nodes. *)
Theorem get_statistics_average_degree
    (simple_cycles : SimpleCycles) (graph : nx.DiGraph) :
  exists s,
    GraphBuilder.get_statistics simple_cycles graph = Some s /\
    (average_degree s ==
       inject_Z (Z.of_nat (degree_sum graph)) /
       inject_Z (Z.of_nat (Nat.max (nx.number_of_nodes graph) 1)))%Q /\
    (nx.number_of_nodes graph = 0 -> (average_degree s == 0)%Q).
Proof.
  unfold GraphBuilder.get_statistics. fold (degree_sum graph).
  destruct (truediv_positive (Z.of_nat (degree_sum graph))
              (Z.of_nat (Nat.max (nx.number_of_nodes graph) 1)))
    as (q & Hq & Hval); [lia|].
  rewrite Hq. eexists. split; [reflexivity|]. simpl. split; [exact Hval|].
  intros Hn. rewrite Hval, (degree_sum_no_nodes graph Hn), Hn. reflexivity.
Qed.

(** ** Duplicate topics *)

Lemma fold_left_snoc {A B : Type} (f : B -> A -> B) (l : list A) (x : A) (init : B) :
  fold_left f (l ++ [x]) init = f (fold_left f l init) x.
Proof. now rewrite fold_left_app. Qed.

Lemma occurs_In (x : string) (ids : list string) :
  occurs x ids = true <-> In x ids.
Proof.
  unfold occurs. rewrite existsb_exists. split.
  - intros (y & Hin & E). apply String.eqb_eq in E. now subst.
  - intros H. exists x. split; [assumption | apply String.eqb_refl].
Qed.

Lemma occurs_app (x : string) (l1 l2 : list string) :
  occurs x (l1 ++ l2) = occurs x l1 || occurs x l2.
Proof. apply existsb_app. Qed.

(** The dictionary [seen_ids] holds exactly the ids met so far. *)
Lemma seen_ids_spec (topics : list Topic.t) (x : string) :
  Dict.mem
    (snd (fold_left ValidatorAgent.check_duplicate_step topics ([], Dict.empty))) x
  = occurs x (map Topic.id topics).
Proof.
  induction topics as [|t topics IH] using rev_ind; [reflexivity|].
  rewrite fold_left_snoc, map_app, occurs_app. simpl.
  destruct (fold_left ValidatorAgent.check_duplicate_step topics ([], Dict.empty))
    as [anomalies seen] eqn:E.
  simpl in IH. unfold ValidatorAgent.check_duplicate_step.
  destruct (Dict.mem seen (Topic.id t)) eqn:Hm; simpl.
  - rewrite <- IH. destruct (String.eqb_spec x (Topic.id t)) as [->|Hne].
    + rewrite Hm. reflexivity.
    + now rewrite !orb_false_r.
  - destruct (String.eqb_spec x (Topic.id t)) as [->|Hne].
    + rewrite DictFacts.mem_set_same. now rewrite orb_true_r.
    + rewrite DictFacts.mem_set_other by congruence.
      rewrite IH. now rewrite !orb_false_r.
Qed.

Lemma check_duplicates_snoc (topics : list Topic.t) (t : Topic.t) :
  ValidatorAgent._check_duplicates (topics ++ [t]) =
  ValidatorAgent._check_duplicates topics ++
  (if occurs (Topic.id t) (map Topic.id topics)
   then [ValidatorAgent.duplicate_anomaly (Topic.id t)] else []).
Proof.
  unfold ValidatorAgent._check_duplicates. rewrite fold_left_snoc.
  rewrite <- seen_ids_spec.
  destruct (fold_left ValidatorAgent.check_duplicate_step topics ([], Dict.empty))
    as [anomalies seen].
  simpl. destruct (Dict.mem seen (Topic.id t)); simpl; auto.
  now rewrite app_nil_r.
Qed.

Lemma count_at_app (x : string) (l1 l2 : list Anomaly.t) :
  count_at x (l1 ++ l2) = count_at x l1 + count_at x l2.
Proof. unfold count_at. now rewrite filter_app, length_app. Qed.

Lemma occurrences_snoc (x y : string) (ids : list string) :
  occurrences x (ids ++ [y]) =
  occurrences x ids + (if String.eqb y x then 1 else 0).
Proof.
  unfold occurrences. rewrite count_occ_app. simpl.
  destruct (string_dec y x) as [->|Hne].
  - now rewrite String.eqb_refl.
  - destruct (String.eqb_spec y x); [contradiction | reflexivity].
Qed.

Lemma occurs_false_occurrences (x : string) (ids : list string) :
  occurs x ids = false -> occurrences x ids = 0.
Proof.
  intros H. apply count_occ_not_In. rewrite <- occurs_In. congruence.
Qed.

Lemma occurs_true_occurrences (x : string) (ids : list string) :
  occurs x ids = true -> occurrences x ids > 0.
Proof.
  intros H. apply count_occ_In. now apply occurs_In.
Qed.

Lemma check_duplicates_count (topics : list Topic.t) (x : string) :
  count_at x (ValidatorAgent._check_duplicates topics) =
  occurrences x (map Topic.id topics) - 1.
Proof.
  induction topics as [|t topics IH] using rev_ind; [reflexivity|].
  rewrite check_duplicates_snoc, count_at_app, map_app. cbn [map].
  rewrite occurrences_snoc, IH.
  simpl. destruct (occurs (Topic.id t) (map Topic.id topics)) eqn:Ho.
  - unfold count_at. simpl.
    destruct (String.eqb_spec (Topic.id t) x) as [E|Hne]; simpl.
    + rewrite E in Ho. apply occurs_true_occurrences in Ho. lia.
    + lia.
  - unfold count_at. simpl.
    destruct (String.eqb_spec (Topic.id t) x) as [E|Hne]; simpl.
    + rewrite E in Ho. apply occurs_false_occurrences in Ho. lia.
    + lia.
Qed.

Lemma check_duplicates_shape (topics : list Topic.t) :
  Forall
    (fun a => exists x, a = ValidatorAgent.duplicate_anomaly x /\
                        occurrences x (map Topic.id topics) >= 2)
    (ValidatorAgent._check_duplicates topics).
Proof.
  induction topics as [|t topics IH] using rev_ind; [constructor|].
  rewrite check_duplicates_snoc. apply Forall_app. split.
  - eapply Forall_impl; [|exact IH]. intros a (x & -> & Hx).
    exists x. split; auto. rewrite map_app. cbn [map].
    rewrite occurrences_snoc. lia.
  - destruct (occurs (Topic.id t) (map Topic.id topics)) eqn:Ho; constructor;
      [|constructor].
    exists (Topic.id t). split; auto.
    rewrite map_app. cbn [map]. rewrite occurrences_snoc, String.eqb_refl.
    apply occurs_true_occurrences in Ho. lia.
Qed.

(** C6: walking the list in order, a topic whose id was met before adds
    one [duplicate_topic] anomaly of severity [critical], any other topic
    adds none; so an id is reported once per occurrence after its first,
    and an id that occurs exactly twice, such as ["7"], is reported exactly
    once, when its second occurrence is reached. *)
Theorem check_duplicates_later_occurrences (topics : list Topic.t) :
  ValidatorAgent._check_duplicates [] = [] /\
  (forall t,
      ValidatorAgent._check_duplicates (topics ++ [t]) =
      ValidatorAgent._check_duplicates topics ++
      (if occurs (Topic.id t) (map Topic.id topics)
       then [ValidatorAgent.duplicate_anomaly (Topic.id t)] else [])) /\
  (forall x,
      count_at x (ValidatorAgent._check_duplicates topics) =
      occurrences x (map Topic.id topics) - 1) /\
  Forall
    (fun a => Anomaly.type a = duplicate_topic /\
              Anomaly.severity a = critical /\
              Anomaly.affected_topics a = [Anomaly.location a] /\
              occurrences (Anomaly.location a) (map Topic.id topics) >= 2)
    (ValidatorAgent._check_duplicates topics) /\
  (occurrences "7" (map Topic.id topics) = 2 ->
   count_at "7" (ValidatorAgent._check_duplicates topics) = 1 /\
   forall first rest second,
     topics = first ++ second :: rest ->
     Topic.id second = "7" ->
     occurs "7" (map Topic.id first) = true ->
     count_at "7" (ValidatorAgent._check_duplicates first) = 0 /\
     count_at "7" (ValidatorAgent._check_duplicates (first ++ [second])) = 1).
Proof.
  split; [reflexivity|]. split; [apply check_duplicates_snoc|].
  split; [apply check_duplicates_count|]. split.
  - eapply Forall_impl; [|apply check_duplicates_shape].
    intros a (x & -> & Hx). simpl. auto.
  - intros H7. split; [rewrite check_duplicates_count; lia|].
    intros first rest second -> Hid Hocc.
    rewrite !check_duplicates_count.
    rewrite map_app in H7. simpl in H7. unfold occurrences in *.
    rewrite count_occ_app in H7. simpl in H7.
    destruct (string_dec (Topic.id second) "7"); [|contradiction].
    rewrite map_app, count_occ_app. simpl.
    destruct (string_dec (Topic.id second) "7"); [|contradiction].
    apply occurs_true_occurrences in Hocc. unfold occurrences in Hocc. lia.
Qed.

(** ** Broken references *)

Lemma count_occ_filter (p : string -> bool) (l : list string) (x : string) :
  count_occ string_dec (filter p l) x =
  if p x then count_occ string_dec l x else 0.
Proof.
  induction l as [|y l IH]; simpl.
  - now destruct (p x).
  - destruct (p y) eqn:Hy; simpl; destruct (string_dec y x) as [->|Hne];
      rewrite IH; try rewrite Hy; auto.
Qed.

Lemma missing_references_count (topics : list Topic.t) (t : Topic.t) (r : string) :
  occurrences r (missing_references topics t) =
  if ValidatorAgent.in_topic_ids topics r then 0
  else occurrences r (all_references t).
Proof.
  unfold occurrences, missing_references. fold (all_references t).
  rewrite count_occ_filter. now destruct (ValidatorAgent.in_topic_ids topics r).
Qed.

(** C5, as the code has it: every topic, in list order, contributes one
    [broken_cross_reference] anomaly for every entry of the concatenation
    [cross_references + forward_references + backward_references] that is
    the id of no topic of the list, in the order of the entries; an id
    entered several times is reported as many times.  Each anomaly has
    severity [high], the location ["<source> → <target>"] and the source as
    its only affected topic; a topic whose concatenation has a single entry,
    an unknown id, contributes exactly one anomaly. *)
Theorem validate_cross_references_per_entry (topics : list Topic.t) :
  ValidatorAgent._validate_cross_references topics =
    flat_map
      (fun t =>
         map (ValidatorAgent.broken_anomaly (Topic.id t))
           (missing_references topics t))
      topics /\
  (forall t r,
      occurrences r (missing_references topics t) =
      if ValidatorAgent.in_topic_ids topics r then 0
      else occurrences r (all_references t)) /\
  (forall r,
      ValidatorAgent.in_topic_ids topics r = true <->
      exists t, In t topics /\ Topic.id t = r) /\
  (forall source r,
      let a := ValidatorAgent.broken_anomaly source r in
      Anomaly.type a = broken_cross_reference /\
      Anomaly.severity a = high /\
      Anomaly.location a = (source ++ " → " ++ r)%string /\
      Anomaly.affected_topics a = [source]) /\
  (forall t r,
      all_references t = [r] ->
      ValidatorAgent.in_topic_ids topics r = false ->
      map (ValidatorAgent.broken_anomaly (Topic.id t))
        (missing_references topics t) =
      [ValidatorAgent.broken_anomaly (Topic.id t) r]).
Proof.
  split; [apply Detectors.validate_cross_references_flat_map|].
  split; [intros; apply missing_references_count|].
  split; [apply Detectors.in_topic_ids_spec|].
  split; [intros; simpl; auto|].
  intros t r Hrefs Hr. unfold missing_references.
  fold (all_references t). rewrite Hrefs. simpl. now rewrite Hr.
Qed.

(** C5 as stated fails: an unknown id entered in two of the reference
    lists of one topic is reported twice, not once. *)
Lemma broken_reference_reported_per_entry :
  let t := topic "1" None ["99.9"] ["99.9"] [] in
  In "99.9" (all_references t) /\
  ValidatorAgent.in_topic_ids [t] "99.9" = false /\
  count_at (Anomaly.location (ValidatorAgent.broken_anomaly "1" "99.9"))
    (ValidatorAgent._validate_cross_references [t]) = 2 /\
  ~ (forall topics t r,
        In t topics -> In r (all_references t) ->
        ValidatorAgent.in_topic_ids topics r = false ->
        count_at
          (Anomaly.location (ValidatorAgent.broken_anomaly (Topic.id t) r))
          (ValidatorAgent._validate_cross_references topics) = 1).
Proof.
  cbv zeta. split; [now left|]. split; [reflexivity|]. split; [reflexivity|].
  intros claim.
  specialize (claim [topic "1" None ["99.9"] ["99.9"] []]
                (topic "1" None ["99.9"] ["99.9"] []) "99.9").
  assert (H : count_at
                (Anomaly.location (ValidatorAgent.broken_anomaly "1" "99.9"))
                (ValidatorAgent._validate_cross_references
                   [topic "1" None ["99.9"] ["99.9"] []]) = 2) by reflexivity.
  simpl Topic.id in claim. rewrite H in claim.
  assert (2 = 1) by (apply claim; [now left | now left | reflexivity]).
  discriminate.
Qed.

(** ** The graph store *)

Module GraphFacts.
Import nx.

Lemma mem_same_keys {V W : Type} (d1 : Dict.t V) (d2 : Dict.t W) (k : string) :
  Dict.keys d1 = Dict.keys d2 -> Dict.mem d1 k = Dict.mem d2 k.
Proof.
  intros E. destruct (Dict.mem d2 k) eqn:H2.
  - apply DictFacts.mem_In_keys. rewrite E. now apply DictFacts.mem_In_keys.
  - apply DictFacts.mem_false_keys. rewrite E.
    now apply DictFacts.mem_false_keys.
Qed.

Lemma inner_set_same {V : Type} (d : Dict.t (Dict.t V)) k m :
  inner (Dict.set d k m) k = m.
Proof. apply DictFacts.item_set_same. Qed.

Lemma inner_set_other {V : Type} (d : Dict.t (Dict.t V)) k k' m :
  k <> k' -> inner (Dict.set d k m) k' = inner d k'.
Proof. apply DictFacts.item_set_other. Qed.

Lemma inner_absent {V : Type} (d : Dict.t (Dict.t V)) k :
  Dict.mem d k = false -> inner d k = Dict.empty.
Proof.
  unfold Dict.mem, inner, Dict.item. now destruct (Dict.get d k).
Qed.

Lemma inner_set_empty {V : Type} (d : Dict.t (Dict.t V)) k x :
  Dict.mem d k = false -> inner (Dict.set d k Dict.empty) x = inner d x.
Proof.
  intros H. destruct (string_dec k x) as [->|Hne].
  - now rewrite inner_set_same, inner_absent.
  - now apply inner_set_other.
Qed.

(** *** [ensure_node] *)

Lemma ensure_node_succ (G : DiGraph) n x :
  inner (_succ (ensure_node G n)) x = inner (_succ G) x.
Proof.
  unfold ensure_node. destruct (Dict.mem (_succ G) n) eqn:E; simpl; auto.
  now apply inner_set_empty.
Qed.

Lemma ensure_node_pred (G : DiGraph) n x :
  Dict.keys (_pred G) = Dict.keys (_succ G) ->
  inner (_pred (ensure_node G n)) x = inner (_pred G) x.
Proof.
  intros K. unfold ensure_node.
  destruct (Dict.mem (_succ G) n) eqn:E; simpl; auto.
  apply inner_set_empty. now rewrite (mem_same_keys _ (_succ G)).
Qed.

Lemma ensure_node_mem (G : DiGraph) n :
  Dict.mem (_succ (ensure_node G n)) n = true.
Proof.
  unfold ensure_node. destruct (Dict.mem (_succ G) n) eqn:E; simpl; auto.
  apply DictFacts.mem_set_same.
Qed.

Lemma ensure_node_mem_other (G : DiGraph) n m :
  Dict.mem (_succ G) m = true -> Dict.mem (_succ (ensure_node G n)) m = true.
Proof.
  intros H. unfold ensure_node.
  destruct (Dict.mem (_succ G) n) eqn:E; simpl; auto.
  destruct (string_dec n m) as [->|Hne].
  - apply DictFacts.mem_set_same.
  - now rewrite DictFacts.mem_set_other.
Qed.

Lemma ensure_node_known (G : DiGraph) n :
  Dict.mem (_succ G) n = true -> ensure_node G n = G.
Proof. intros H. unfold ensure_node. now rewrite H. Qed.

Lemma ensure_node_nodes (G : DiGraph) n :
  Dict.keys (_succ G) = nodes G ->
  nodes (ensure_node G n) = if has_node G n then nodes G else nodes G ++ [n].
Proof.
  intros K. unfold ensure_node, has_node.
  rewrite (mem_same_keys (_node G) (_succ G)) by (symmetry; exact K).
  destruct (Dict.mem (_succ G) n) eqn:E; simpl; auto.
  unfold nodes. simpl. rewrite DictFacts.keys_set.
  rewrite (mem_same_keys (_node G) (_succ G)) by (symmetry; exact K).
  now rewrite E.
Qed.

Lemma keys_set_new {V : Type} (d : Dict.t V) k v :
  Dict.mem d k = false -> Dict.keys (Dict.set d k v) = Dict.keys d ++ [k].
Proof. intros H. now rewrite DictFacts.keys_set, H. Qed.

Lemma keys_set_known {V : Type} (d : Dict.t V) k v :
  Dict.mem d k = true -> Dict.keys (Dict.set d k v) = Dict.keys d.
Proof. intros H. now rewrite DictFacts.keys_set, H. Qed.

Lemma has_node_In (G : DiGraph) n : has_node G n = true <-> In n (nodes G).
Proof. apply DictFacts.mem_In_keys. Qed.

End GraphFacts.

Module WellFormed.
Import nx GraphFacts.

Lemma has_edge_inner (G G' : DiGraph) u v :
  inner (_succ G') u = inner (_succ G) u -> has_edge G' u v = has_edge G u v.
Proof. intros E. unfold has_edge, get_edge_data. now rewrite E. Qed.

Lemma well_formed_empty : well_formed nx.empty.
Proof.
  repeat split; try constructor.
  intros u v H. cbv in H. discriminate H.
Qed.

Lemma succ_mem_node (G : DiGraph) n :
  well_formed G -> Dict.mem (_succ G) n = has_node G n.
Proof. intros (K & _). apply mem_same_keys. exact K. Qed.

Lemma pred_mem_node (G : DiGraph) n :
  well_formed G -> Dict.mem (_pred G) n = has_node G n.
Proof. intros (_ & K & _). apply mem_same_keys. exact K. Qed.

Lemma well_formed_ensure_node (G : DiGraph) n :
  well_formed G -> well_formed (ensure_node G n).
Proof.
  intros W. pose proof (succ_mem_node G n W) as Hs.
  pose proof (pred_mem_node G n W) as Hp.
  destruct W as (Ks & Kp & Nd & Ni & Ht).
  unfold ensure_node. destruct (Dict.mem (_succ G) n) eqn:E.
  - repeat split; auto.
  - assert (Hn : Dict.mem (_node G) n = false) by (symmetry; exact Hs).
    assert (Hp' : Dict.mem (_pred G) n = false) by congruence.
    unfold well_formed, nodes. simpl. repeat split.
    + rewrite !keys_set_new; auto. now f_equal.
    + rewrite !keys_set_new; auto. now f_equal.
    + now apply DictFacts.NoDup_keys_set.
    + intros u. rewrite inner_set_empty; auto.
    + intros u v H. unfold has_node. simpl.
      assert (H' : has_edge G u v = true).
      { rewrite <- H. symmetry. apply has_edge_inner. simpl.
        now apply inner_set_empty. }
      apply Ht in H'. unfold has_node in H'.
      destruct (string_dec n v) as [->|Hne].
      * apply DictFacts.mem_set_same.
      * now rewrite DictFacts.mem_set_other.
Qed.

Lemma well_formed_add_node (G : DiGraph) n attr :
  well_formed G -> well_formed (add_node G n attr).
Proof.
  intros W. pose proof (succ_mem_node G n W) as Hs.
  pose proof (pred_mem_node G n W) as Hp.
  destruct W as (Ks & Kp & Nd & Ni & Ht).
  unfold add_node. destruct (Dict.mem (_succ G) n) eqn:E.
  - assert (Hn : Dict.mem (_node G) n = true) by (symmetry; exact Hs).
    unfold well_formed, nodes. simpl. repeat split.
    + rewrite keys_set_known; auto.
    + rewrite keys_set_known; auto.
    + now apply DictFacts.NoDup_keys_set.
    + exact Ni.
    + intros u v H. unfold has_node. simpl.
      apply (Ht u v) in H. unfold has_node in H.
      destruct (string_dec n v) as [->|Hne].
      * apply DictFacts.mem_set_same.
      * now rewrite DictFacts.mem_set_other.
  - assert (Hn : Dict.mem (_node G) n = false) by (symmetry; exact Hs).
    assert (Hp' : Dict.mem (_pred G) n = false) by congruence.
    unfold well_formed, nodes. simpl. repeat split.
    + rewrite !keys_set_new; auto. now f_equal.
    + rewrite !keys_set_new; auto. now f_equal.
    + now apply DictFacts.NoDup_keys_set.
    + intros u. rewrite inner_set_empty; auto.
    + intros u v H. unfold has_node. simpl.
      assert (H' : has_edge G u v = true).
      { rewrite <- H. symmetry. apply has_edge_inner. simpl.
        now apply inner_set_empty. }
      apply Ht in H'. unfold has_node in H'.
      destruct (string_dec n v) as [->|Hne].
      * apply DictFacts.mem_set_same.
      * now rewrite DictFacts.mem_set_other.
Qed.

Lemma add_edge_succ (G : DiGraph) u v attr x :
  inner (_succ (add_edge G u v attr)) x =
  if String.eqb x u then Dict.set (inner (_succ G) u) v attr
  else inner (_succ G) x.
Proof.
  unfold add_edge. simpl. destruct (String.eqb_spec x u) as [->|Hne].
  - rewrite inner_set_same. now rewrite !ensure_node_succ.
  - rewrite inner_set_other by congruence. now rewrite !ensure_node_succ.
Qed.

Lemma add_edge_nodes (G : DiGraph) u v attr :
  nodes (add_edge G u v attr) = nodes (ensure_node (ensure_node G u) v).
Proof. reflexivity. Qed.

Lemma well_formed_add_edge (G : DiGraph) u v attr :
  well_formed G -> well_formed (add_edge G u v attr).
Proof.
  intros W.
  assert (W1 : well_formed (ensure_node (ensure_node G u) v))
    by now apply well_formed_ensure_node, well_formed_ensure_node.
  assert (Mu : Dict.mem (_succ (ensure_node (ensure_node G u) v)) u = true)
    by apply ensure_node_mem_other, ensure_node_mem.
  assert (Mv : Dict.mem (_succ (ensure_node (ensure_node G u) v)) v = true)
    by apply ensure_node_mem.
  pose proof (succ_mem_node _ v W1) as Hsv.
  pose proof (pred_mem_node _ v W1) as Hpv.
  set (G1 := ensure_node (ensure_node G u) v) in *.
  destruct W1 as (Ks & Kp & Nd & Ni & Ht).
  unfold well_formed. rewrite add_edge_nodes. fold G1. repeat split.
  - unfold add_edge. fold G1. simpl. rewrite keys_set_known; auto.
  - unfold add_edge. fold G1. simpl. rewrite keys_set_known; auto. congruence.
  - exact Nd.
  - intros x. unfold add_edge. fold G1. simpl.
    destruct (string_dec u x) as [->|Hne].
    + rewrite inner_set_same. apply DictFacts.NoDup_keys_set, Ni.
    + rewrite inner_set_other by assumption. apply Ni.
  - intros x y H. unfold has_node. change (_node (add_edge G u v attr)) with (_node G1).
    unfold has_edge, get_edge_data in H. unfold add_edge in H. fold G1 in H.
    simpl in H. destruct (string_dec u x) as [->|Hne].
    + rewrite inner_set_same in H. destruct (string_dec v y) as [->|Hne'].
      * change (has_node G1 y = true). congruence.
      * rewrite DictFacts.get_set_other in H by assumption. apply (Ht x y H).
    + rewrite inner_set_other in H by assumption. apply (Ht x y H).
Qed.

Lemma constructed_well_formed (g : DiGraph) : constructed g -> well_formed g.
Proof.
  induction 1.
  - apply well_formed_empty.
  - now apply well_formed_add_node.
  - now apply well_formed_add_edge.
Qed.

End WellFormed.

(** ** Edges to unknown nodes *)

Module Dangling.
Import nx GraphFacts WellFormed.

(** Both end points of an added relationship are nodes afterwards. *)
Lemma add_relationship_end_points (g : DiGraph) (r : Relationship.t) :
  well_formed g ->
  has_node (GraphBuilder.add_relationship g r) (Relationship.source r) = true /\
  has_node (GraphBuilder.add_relationship g r) (Relationship.target r) = true.
Proof.
  intros W. unfold GraphBuilder.add_relationship.
  set (attr := {| e_type := _ |}).
  pose proof (well_formed_add_edge g (Relationship.source r)
                (Relationship.target r) attr W) as W'.
  split.
  - rewrite <- (succ_mem_node _ _ W'). unfold add_edge. simpl.
    apply DictFacts.mem_set_same.
  - rewrite <- (pred_mem_node _ _ W'). unfold add_edge. simpl.
    apply DictFacts.mem_set_same.
Qed.

(** An unknown target is appended to the nodes. *)
Lemma add_relationship_unknown_target (g : DiGraph) (r : Relationship.t) :
  well_formed g ->
  has_node g (Relationship.target r) = false ->
  Relationship.source r <> Relationship.target r ->
  nodes (GraphBuilder.add_relationship g r) =
  nodes (ensure_node g (Relationship.source r)) ++ [Relationship.target r].
Proof.
  intros W Ht Hne. unfold GraphBuilder.add_relationship.
  rewrite add_edge_nodes.
  pose proof (well_formed_ensure_node g (Relationship.source r) W) as W1.
  rewrite ensure_node_nodes by apply W1.
  replace (has_node (ensure_node g (Relationship.source r))
             (Relationship.target r)) with false; [reflexivity|].
  symmetry.
  destruct (has_node (ensure_node g (Relationship.source r))
              (Relationship.target r)) eqn:E; [|reflexivity].
  apply has_node_In in E.
  rewrite ensure_node_nodes in E by apply W.
  destruct (has_node g (Relationship.source r)).
  - apply has_node_In in E. congruence.
  - apply in_app_or in E. destruct E as [E|[E|[]]].
    + apply has_node_In in E. congruence.
    + contradiction.
Qed.

Lemma edges_In (G : DiGraph) u v d :
  well_formed G -> In (u, v, d) (edges G) -> has_edge G u v = true.
Proof.
  intros (Ks & _ & Nd & _) Hin. unfold edges in Hin.
  apply in_flat_map in Hin. destruct Hin as ([u' nbrs] & Hin & Hd).
  apply in_map_iff in Hd. destruct Hd as ([v' d'] & [= -> -> ->] & Hd).
  unfold has_edge, get_edge_data, inner, Dict.item.
  rewrite (DictFacts.In_get (_succ G) u nbrs); [|now rewrite Ks | exact Hin].
  assert (M : Dict.mem nbrs v = true).
  { apply DictFacts.mem_In_keys. change v with (fst (v, d)).
    now apply in_map. }
  unfold Dict.mem in M. now destruct (Dict.get nbrs v).
Qed.

(** No edge of a well-formed graph is reported by
    [find_broken_references]: its test [target not in self.graph.nodes()]
    never holds. *)
Lemma find_broken_references_nil (g : DiGraph) :
  well_formed g -> GraphBuilder.find_broken_references g = [].
Proof.
  intros W. unfold GraphBuilder.find_broken_references.
  assert (H : forall l acc,
             (forall e, In e l -> In e (edges g)) ->
             fold_left
               (fun broken_list '(source, target, data) =>
                  if negb (has_node g target)
                  then broken_list ++
                       [Relationship.mk source target (e_type data) broken
                          (e_context data) (Some high)]
                  else broken_list) l acc = acc).
  { induction l as [|[[u v] d] l IH]; intros acc Hl; simpl; auto.
    assert (E : has_node g v = true).
    { pose proof W as (_ & _ & _ & _ & Ht). apply (Ht u).
      apply (edges_In g u v d); [exact W | apply Hl; now left]. }
    rewrite E. simpl. apply IH. intros e He. apply Hl. now right. }
  apply H. auto.
Qed.

End Dangling.

(** C1, on the code: [add_relationship] hands the edge to networkx's
    [add_edge], which adds a missing end point as a node.  After adding an
    edge from topic ["1"] to the unknown id ["99.9"], that id is a node with
    an empty attribute dictionary, and [find_broken_references] reports
    nothing. *)
Theorem add_relationship_adds_unknown_target :
  let g := GraphBuilder.add_topic GraphBuilder.init (topic "1" None [] [] []) in
  let g' := GraphBuilder.add_relationship g
              (GraphBuilder.valid_relationship "1" "99.9" cross_reference) in
  nx.has_node g "99.9" = false /\
  nx.nodes g = ["1"] /\
  nx.has_edge g' "1" "99.9" = true /\
  nx.nodes g' = ["1"; "99.9"] /\
  Dict.get (nx._node g') "99.9" = Some None /\
  GraphBuilder.find_broken_references g' = [].
Proof. cbv zeta. repeat split. Qed.

(** ** One edge for each ordered pair *)

Module SingleEdge.
Import nx GraphFacts WellFormed.

Lemma add_edge_known_end_points (G : DiGraph) u v attr :
  ensure_node (ensure_node (add_edge G u v attr) u) v = add_edge G u v attr.
Proof.
  assert (Mu : Dict.mem (_succ (add_edge G u v attr)) u = true).
  { unfold add_edge. simpl. apply DictFacts.mem_set_same. }
  rewrite (ensure_node_known _ u Mu).
  apply ensure_node_known. unfold add_edge. simpl.
  destruct (string_dec u v) as [->|Hne].
  - apply DictFacts.mem_set_same.
  - rewrite DictFacts.mem_set_other by assumption. apply ensure_node_mem.
Qed.

(** Adding an edge over an edge leaves only the second one's attributes. *)
Lemma add_edge_twice (G : DiGraph) u v attr1 attr2 :
  add_edge (add_edge G u v attr1) u v attr2 = add_edge G u v attr2.
Proof.
  unfold add_edge at 1. rewrite add_edge_known_end_points.
  unfold add_edge. simpl.
  rewrite !inner_set_same, !DictFacts.set_set. reflexivity.
Qed.

Lemma add_edge_get (G : DiGraph) u v attr :
  get_edge_data (add_edge G u v attr) u v = Some attr.
Proof.
  unfold get_edge_data. rewrite add_edge_succ, String.eqb_refl.
  apply DictFacts.get_set_same.
Qed.

Lemma add_edge_get_other (G : DiGraph) u v attr x y :
  (x, y) <> (u, v) ->
  get_edge_data (add_edge G u v attr) x y = get_edge_data G x y.
Proof.
  intros Hne. unfold get_edge_data. rewrite add_edge_succ.
  destruct (String.eqb_spec x u) as [->|Hx]; auto.
  apply DictFacts.get_set_other. congruence.
Qed.

Lemma count_key {V : Type} (d : Dict.t V) (k : string) :
  NoDup (Dict.keys d) ->
  List.length (filter (fun '(k', _) => String.eqb k' k) d) =
  if Dict.mem d k then 1 else 0.
Proof.
  unfold Dict.mem. induction d as [|[k' v] d IH]; simpl; auto.
  intros Hnd. inversion Hnd as [|? ? Hnotin Hnd']; subst.
  destruct (String.eqb_spec k' k) as [->|Hne]; simpl.
  - rewrite IH by assumption.
    apply DictFacts.mem_false_keys in Hnotin. unfold Dict.mem in Hnotin.
    now destruct (Dict.get d k).
  - now apply IH.
Qed.

Lemma count_edges_from (L : Dict.t (Dict.t EdgeAttr)) (s t : string) :
  NoDup (Dict.keys L) ->
  List.length
    (filter (fun '(u, v, _) => String.eqb u s && String.eqb v t)
       (flat_map (fun '(u, nbrs) => map (fun '(v, d) => (u, v, d)) nbrs) L)) =
  List.length (filter (fun '(v, _) => String.eqb v t) (inner L s)).
Proof.
  induction L as [|[u nbrs] L IH]; simpl; auto.
  intros Hnd. inversion Hnd as [|? ? Hnotin Hnd']; subst.
  rewrite filter_app, length_app, IH by assumption.
  unfold inner, Dict.item. simpl.
  destruct (String.eqb_spec u s) as [->|Hne].
  - apply DictFacts.mem_false_keys in Hnotin. unfold Dict.mem in Hnotin.
    destruct (Dict.get L s); [discriminate|]. simpl. rewrite Nat.add_0_r.
    f_equal. clear. induction nbrs as [|[v d] nbrs IH]; simpl; auto.
    rewrite String.eqb_refl. simpl. destruct (String.eqb v t); simpl; congruence.
  - replace (filter _ (map _ nbrs)) with (@nil (string * string * EdgeAttr));
      [reflexivity|].
    clear - Hne. induction nbrs as [|[v d] nbrs IH]; simpl; auto.
    destruct (String.eqb_spec u s); [contradiction|]. simpl. exact IH.
Qed.

Lemma edge_count_has_edge (G : DiGraph) (s t : string) :
  well_formed G -> edge_count G s t = if has_edge G s t then 1 else 0.
Proof.
  intros (Ks & _ & Nd & Ni & _). unfold edge_count, edges.
  rewrite count_edges_from by now rewrite Ks.
  rewrite count_key by apply Ni.
  unfold has_edge, get_edge_data, Dict.mem.
  now destruct (Dict.get (inner (_succ G) s) t).
Qed.

Lemma edges_In_get (G : DiGraph) u v d :
  well_formed G -> In (u, v, d) (edges G) -> get_edge_data G u v = Some d.
Proof.
  intros (Ks & _ & Nd & Ni & _) Hin. unfold edges in Hin.
  apply in_flat_map in Hin. destruct Hin as ([u' nbrs] & Hin & Hd).
  apply in_map_iff in Hd. destruct Hd as ([v' d'] & [= -> -> ->] & Hd).
  unfold get_edge_data.
  assert (E : inner (_succ G) u = nbrs).
  { unfold inner, Dict.item.
    now rewrite (DictFacts.In_get (_succ G) u nbrs); [|rewrite Ks|]. }
  apply DictFacts.In_get; [|now rewrite E].
  rewrite <- E in *. apply Ni.
Qed.

End SingleEdge.

(** C3, as the code has it: the graph is a [DiGraph], which keeps one
    attribute dictionary for an ordered pair of nodes.  After adding two
    relationships from [s] to [t], the graph is the one obtained by adding
    only the second: it has exactly one edge from [s] to [t], and that edge
    carries the type, status, context and severity of the second
    relationship. *)
Theorem add_relationship_same_pair_overwrites
    (g : nx.DiGraph) (first second : Relationship.t) :
  well_formed g ->
  Relationship.source first = Relationship.source second ->
  Relationship.target first = Relationship.target second ->
  let s := Relationship.source second in
  let t := Relationship.target second in
  let g2 := GraphBuilder.add_relationship
              (GraphBuilder.add_relationship g first) second in
  g2 = GraphBuilder.add_relationship g second /\
  nx.get_edge_data g2 s t = Some (edge_attributes second) /\
  edge_count g2 s t = 1 /\
  (forall d, In (s, t, d) (nx.edges g2) -> d = edge_attributes second).
Proof.
  intros W Hs Ht s t g2.
  assert (E : g2 = GraphBuilder.add_relationship g second).
  { unfold g2, GraphBuilder.add_relationship. rewrite Hs, Ht.
    apply SingleEdge.add_edge_twice. }
  assert (W2 : well_formed g2).
  { rewrite E. now apply WellFormed.well_formed_add_edge. }
  assert (G : nx.get_edge_data g2 s t = Some (edge_attributes second)).
  { rewrite E. apply SingleEdge.add_edge_get. }
  repeat split; auto.
  - rewrite SingleEdge.edge_count_has_edge by assumption.
    unfold nx.has_edge. now rewrite G.
  - intros d Hd. apply SingleEdge.edges_In_get in Hd; [|assumption]. congruence.
Qed.

(** The statement above on the empty graph and two relationships from
    ["A"] to ["B"]. *)
Lemma add_relationship_same_pair_overwrites_witness :
  let first := GraphBuilder.valid_relationship "A" "B" hierarchical in
  let second := GraphBuilder.valid_relationship "A" "B" cross_reference in
  let g2 := GraphBuilder.add_relationship
              (GraphBuilder.add_relationship GraphBuilder.init first) second in
  g2 = GraphBuilder.add_relationship GraphBuilder.init second /\
  nx.get_edge_data g2 "A" "B" = Some (edge_attributes second) /\
  edge_count g2 "A" "B" = 1 /\
  (forall d, In ("A", "B", d) (nx.edges g2) -> d = edge_attributes second).
Proof.
  exact (add_relationship_same_pair_overwrites GraphBuilder.init
           (GraphBuilder.valid_relationship "A" "B" hierarchical)
           (GraphBuilder.valid_relationship "A" "B" cross_reference)
           WellFormed.well_formed_empty eq_refl eq_refl).
Defined.

(** C3 as stated fails: after a [hierarchical] and then a
    [cross_reference] relationship from ["A"] to ["B"], the graph has one
    edge from ["A"] to ["B"], of type [cross_reference]; the edge of type
    [hierarchical] is gone. *)
Lemma second_relationship_replaces_first :
  let g1 := GraphBuilder.add_relationship GraphBuilder.init
              (GraphBuilder.valid_relationship "A" "B" hierarchical) in
  let g2 := GraphBuilder.add_relationship g1
              (GraphBuilder.valid_relationship "A" "B" cross_reference) in
  option_map nx.e_type (nx.get_edge_data g1 "A" "B") = Some hierarchical /\
  option_map nx.e_type (nx.get_edge_data g2 "A" "B") = Some cross_reference /\
  map (fun '(u, v, d) => (u, v, nx.e_type d)) (nx.edges g2) =
    [("A", "B", cross_reference)] /\
  ~ (exists d, In ("A", "B", d) (nx.edges g2) /\ nx.e_type d = hierarchical).
Proof.
  cbv zeta. repeat split.
  intros (d & Hin & Hd). cbv in Hin. destruct Hin as [E|[]].
  inversion E; subst. discriminate Hd.
Qed.

(** ** Construction from the topic list *)

Module Build.
Import nx GraphFacts WellFormed.

Lemma add_node_succ (G : DiGraph) n attr x :
  inner (_succ (add_node G n attr)) x = inner (_succ G) x.
Proof.
  unfold add_node. destruct (Dict.mem (_succ G) n) eqn:E; simpl; auto.
  now apply inner_set_empty.
Qed.

Lemma add_topic_edge (g : DiGraph) (t : Topic.t) u v :
  get_edge_data (GraphBuilder.add_topic g t) u v = get_edge_data g u v.
Proof.
  unfold get_edge_data, GraphBuilder.add_topic. now rewrite add_node_succ.
Qed.

Lemma add_topics_edge (topics : list Topic.t) (g : DiGraph) u v :
  get_edge_data (fold_left GraphBuilder.add_topic topics g) u v =
  get_edge_data g u v.
Proof.
  revert g. induction topics as [|t topics IH]; intros g; simpl; auto.
  rewrite IH. apply add_topic_edge.
Qed.

(** An edge is never removed. *)
Lemma add_relationship_keeps_edges (g : DiGraph) (r : Relationship.t) u v :
  has_edge g u v = true ->
  has_edge (GraphBuilder.add_relationship g r) u v = true.
Proof.
  unfold has_edge, GraphBuilder.add_relationship.
  destruct (string_dec u (Relationship.source r)) as [->|Hu].
  - destruct (string_dec v (Relationship.target r)) as [->|Hv].
    + now rewrite SingleEdge.add_edge_get.
    + rewrite SingleEdge.add_edge_get_other by congruence. auto.
  - rewrite SingleEdge.add_edge_get_other by congruence. auto.
Qed.

Lemma add_references_keeps_edges source type refs (g : DiGraph) u v :
  has_edge g u v = true ->
  has_edge (GraphBuilder.add_references source type refs g) u v = true.
Proof.
  unfold GraphBuilder.add_references. revert g.
  induction refs as [|r refs IH]; intros g H; simpl; auto.
  apply IH. now apply add_relationship_keeps_edges.
Qed.

Lemma add_topic_relationships_keeps_edges (g : DiGraph) (t : Topic.t) u v :
  has_edge g u v = true ->
  has_edge (GraphBuilder.add_topic_relationships g t) u v = true.
Proof.
  intros H. unfold GraphBuilder.add_topic_relationships.
  repeat apply add_references_keeps_edges.
  destruct (Topic.parent t) as [p|]; auto.
  destruct (Py.truthy (Some p)); auto.
  now apply add_relationship_keeps_edges.
Qed.

Lemma relationships_keep_edges (topics : list Topic.t) (g : DiGraph) u v :
  has_edge g u v = true ->
  has_edge (fold_left GraphBuilder.add_topic_relationships topics g) u v = true.
Proof.
  revert g. induction topics as [|t topics IH]; intros g H; simpl; auto.
  apply IH. now apply add_topic_relationships_keeps_edges.
Qed.

(** The step of a topic with a parent leaves an edge from the parent. *)
Lemma add_topic_relationships_parent_edge (g : DiGraph) (t : Topic.t) p :
  Topic.parent t = Some p -> p <> "" ->
  has_edge (GraphBuilder.add_topic_relationships g t) p (Topic.id t) = true.
Proof.
  intros Hp Hne. unfold GraphBuilder.add_topic_relationships.
  repeat apply add_references_keeps_edges. rewrite Hp. simpl.
  destruct (String.eqb_spec p ""); [contradiction|]. simpl.
  unfold has_edge, GraphBuilder.add_relationship. simpl.
  now rewrite SingleEdge.add_edge_get.
Qed.

(** After construction there is an edge from the parent to every topic
    that has one; the type it carries is that of the relationship added
    last over the pair. *)
Lemma build_from_topics_parent_edge (g : DiGraph) (topics : list Topic.t) t p :
  In t topics -> Topic.parent t = Some p -> p <> "" ->
  has_edge (GraphBuilder.build_from_topics g topics) p (Topic.id t) = true.
Proof.
  intros Hin Hp Hne. unfold GraphBuilder.build_from_topics.
  generalize (fold_left GraphBuilder.add_topic topics g). intros g0.
  apply in_split in Hin. destruct Hin as (before & after & ->).
  rewrite fold_left_app. simpl. apply relationships_keep_edges.
  now apply add_topic_relationships_parent_edge.
Qed.

End Build.

Module Hierarchy.
Import nx GraphFacts WellFormed.

Lemma fold_left_map {A B C : Type} (f : C -> B -> C) (h : A -> B)
    (l : list A) (init : C) :
  fold_left f (map h l) init = fold_left (fun acc x => f acc (h x)) l init.
Proof.
  revert init. induction l as [|x l IH]; intros init; simpl; auto.
Qed.

(** [build_from_topics] does not read the [children] lists. *)
Lemma build_from_topics_ignores_children
    (g : DiGraph) (topics : list Topic.t) (f : Topic.t -> list string) :
  GraphBuilder.build_from_topics g (map (fun t => with_children t (f t)) topics)
  = GraphBuilder.build_from_topics g topics.
Proof.
  unfold GraphBuilder.build_from_topics. rewrite !fold_left_map.
  rewrite (fold_left_ext
             (fun acc x => GraphBuilder.add_topic acc (with_children x (f x)))
             GraphBuilder.add_topic) by reflexivity.
  apply fold_left_ext. reflexivity.
Qed.

Lemma add_references_other_pair source type refs (g : DiGraph) p c :
  (forall r, In r refs -> (source, r) <> (p, c)) ->
  get_edge_data (GraphBuilder.add_references source type refs g) p c =
  get_edge_data g p c.
Proof.
  unfold GraphBuilder.add_references. revert g.
  induction refs as [|r refs IH]; intros g H; simpl; auto.
  rewrite IH by (intros; apply H; now right).
  unfold GraphBuilder.add_relationship. simpl.
  apply SingleEdge.add_edge_get_other.
  intros E. apply (H r); [now left | congruence].
Qed.

Lemma all_references_other_pair (g : DiGraph) (t : Topic.t) p c :
  (forall r, In r (all_references t) -> (Topic.id t, r) <> (p, c)) ->
  get_edge_data
    (GraphBuilder.add_references (Topic.id t) backward_reference
       (Topic.backward_references t)
       (GraphBuilder.add_references (Topic.id t) forward_reference
          (Topic.forward_references t)
          (GraphBuilder.add_references (Topic.id t) cross_reference
             (Topic.cross_references t) g))) p c =
  get_edge_data g p c.
Proof.
  intros H. unfold all_references in H.
  rewrite !add_references_other_pair; auto.
  - intros r Hr. apply H. apply in_or_app. now left.
  - intros r Hr. apply H. apply in_or_app. right. apply in_or_app. now left.
  - intros r Hr. apply H. apply in_or_app. right. apply in_or_app. now right.
Qed.

Lemma step_keeps_hierarchical (g : DiGraph) (t : Topic.t) p c :
  get_edge_data g p c = Some (valid_attributes hierarchical) ->
  (forall r, In r (all_references t) -> (Topic.id t, r) <> (p, c)) ->
  get_edge_data (GraphBuilder.add_topic_relationships g t) p c =
  Some (valid_attributes hierarchical).
Proof.
  intros Hg Hrefs. unfold GraphBuilder.add_topic_relationships.
  rewrite all_references_other_pair by assumption.
  destruct (Topic.parent t) as [q|]; auto.
  destruct (Py.truthy (Some q)); auto.
  unfold GraphBuilder.add_relationship. simpl.
  destruct (string_dec p q) as [->|Hp].
  - destruct (string_dec c (Topic.id t)) as [->|Hc].
    + apply SingleEdge.add_edge_get.
    + rewrite SingleEdge.add_edge_get_other by congruence. exact Hg.
  - rewrite SingleEdge.add_edge_get_other by congruence. exact Hg.
Qed.

Lemma step_sets_hierarchical (g : DiGraph) (t : Topic.t) p :
  Topic.parent t = Some p -> p <> "" ->
  (forall r, In r (all_references t) -> (Topic.id t, r) <> (p, Topic.id t)) ->
  get_edge_data (GraphBuilder.add_topic_relationships g t) p (Topic.id t) =
  Some (valid_attributes hierarchical).
Proof.
  intros Hp Hne Hrefs. unfold GraphBuilder.add_topic_relationships.
  rewrite all_references_other_pair by assumption.
  rewrite Hp. simpl. destruct (String.eqb_spec p ""); [contradiction|]. simpl.
  unfold GraphBuilder.add_relationship. simpl.
  apply SingleEdge.add_edge_get.
Qed.

(** The edge from the parent of a topic is of type [hierarchical] after
    construction when no reference processed from that topic on goes from
    the parent to the topic. *)
Lemma build_from_topics_hierarchical_edge
    (g : DiGraph) (before after : list Topic.t) (t : Topic.t) p :
  Topic.parent t = Some p -> p <> "" ->
  (forall t' r, In t' (t :: after) -> In r (all_references t') ->
                (Topic.id t', r) <> (p, Topic.id t)) ->
  get_edge_data (GraphBuilder.build_from_topics g (before ++ t :: after))
    p (Topic.id t) = Some (valid_attributes hierarchical).
Proof.
  intros Hp Hne Hrefs. unfold GraphBuilder.build_from_topics.
  generalize (fold_left GraphBuilder.add_topic (before ++ t :: after) g).
  intros g0. rewrite fold_left_app. simpl.
  generalize (fold_left GraphBuilder.add_topic_relationships before g0).
  intros g1.
  assert (H1 : get_edge_data (GraphBuilder.add_topic_relationships g1 t)
                 p (Topic.id t) = Some (valid_attributes hierarchical)).
  { apply step_sets_hierarchical; auto. intros r Hr. apply Hrefs; [now left|auto]. }
  assert (Hafter : forall t' r, In t' after -> In r (all_references t') ->
                                (Topic.id t', r) <> (p, Topic.id t)).
  { intros t' r Ht'. apply Hrefs. now right. }
  clear Hrefs. revert H1 Hafter.
  generalize (GraphBuilder.add_topic_relationships g1 t). clear g1.
  induction after as [|t' after IH]; intros g1 H1 Hafter; simpl; auto.
  apply IH.
  - apply step_keeps_hierarchical; auto. intros r Hr. apply Hafter; [now left|auto].
  - intros t'' r Ht''. apply Hafter. now right.
Qed.

End Hierarchy.

(** C8, on the code: the edge that [build_from_topics] adds from a parent
    to its child is overwritten when a reference from the parent to the
    child is processed later.  For the list [1.1 (parent 1); 1
    (cross-reference to 1.1)] the graph has one edge from ["1"] to
    ["1.1"], of type [cross_reference]; no edge of type [hierarchical]
    exists and [get_topic_hierarchy] is empty. *)
Theorem build_from_topics_loses_hierarchical_edge :
  let topics := [topic "1.1" (Some "1") [] [] [];
                 topic "1" None ["1.1"] [] []] in
  let g := GraphBuilder.build_from_topics GraphBuilder.init topics in
  nx.nodes g = ["1.1"; "1"] /\
  map (fun '(u, v, d) => (u, v, nx.e_type d)) (nx.edges g) =
    [("1", "1.1", cross_reference)] /\
  nx.get_edge_data g "1" "1.1" = Some (valid_attributes cross_reference) /\
  ~ (exists d, In ("1", "1.1", d) (nx.edges g) /\ nx.e_type d = hierarchical) /\
  GraphBuilder.get_topic_hierarchy g = [].
Proof.
  cbv zeta. repeat split.
  intros (d & Hin & Hd). cbv in Hin. destruct Hin as [E|[]].
  inversion E; subst. discriminate Hd.
Qed.

(** ** Orphans *)

Module Orphans.
Import nx GraphFacts WellFormed.

Lemma add_node_pred (G : DiGraph) n attr x :
  well_formed G -> inner (_pred (add_node G n attr)) x = inner (_pred G) x.
Proof.
  intros W. unfold add_node. destruct (Dict.mem (_succ G) n) eqn:E; simpl; auto.
  apply inner_set_empty. rewrite (pred_mem_node G n W).
  now rewrite <- (succ_mem_node G n W).
Qed.

Lemma add_edge_pred (G : DiGraph) u v attr x :
  well_formed G ->
  inner (_pred (add_edge G u v attr)) x =
  if String.eqb x v then Dict.set (inner (_pred G) v) u attr
  else inner (_pred G) x.
Proof.
  intros W.
  assert (K : Dict.keys (_pred G) = Dict.keys (_succ G))
    by (destruct W as (Ks & Kp & _); congruence).
  assert (K1 : Dict.keys (_pred (ensure_node G u)) =
               Dict.keys (_succ (ensure_node G u))).
  { destruct (well_formed_ensure_node G u W) as (Ks & Kp & _). congruence. }
  unfold add_edge. simpl. destruct (String.eqb_spec x v) as [->|Hne].
  - rewrite inner_set_same. now rewrite !ensure_node_pred.
  - rewrite inner_set_other by congruence. now rewrite !ensure_node_pred.
Qed.

Lemma no_edges_add_topic g t x :
  no_edges g x -> no_edges (GraphBuilder.add_topic g t) x.
Proof.
  intros (W & Hs & Hp). unfold GraphBuilder.add_topic. split; [|split].
  - now apply well_formed_add_node.
  - now rewrite Build.add_node_succ.
  - now rewrite add_node_pred.
Qed.

Lemma no_edges_add_relationship g r x :
  no_edges g x -> Relationship.source r <> x -> Relationship.target r <> x ->
  no_edges (GraphBuilder.add_relationship g r) x.
Proof.
  intros (W & Hs & Hp) Hsrc Htgt. unfold GraphBuilder.add_relationship.
  split; [|split].
  - now apply well_formed_add_edge.
  - rewrite add_edge_succ.
    destruct (String.eqb_spec x (Relationship.source r)); [congruence | assumption].
  - rewrite add_edge_pred by assumption.
    destruct (String.eqb_spec x (Relationship.target r)); [congruence | assumption].
Qed.

Lemma no_edges_add_references source type refs g x :
  no_edges g x ->
  (forall r, In r refs -> source <> x /\ r <> x) ->
  no_edges (GraphBuilder.add_references source type refs g) x.
Proof.
  unfold GraphBuilder.add_references. revert g.
  induction refs as [|r refs IH]; intros g N H; simpl; auto.
  apply IH.
  - apply no_edges_add_relationship; auto; simpl; apply (H r); now left.
  - intros r' Hr'. apply H. now right.
Qed.

Lemma no_edges_step g t x :
  no_edges g x ->
  (forall p, Topic.parent t = Some p -> p <> "" -> p <> x /\ Topic.id t <> x) ->
  (forall r, In r (all_references t) -> Topic.id t <> x /\ r <> x) ->
  no_edges (GraphBuilder.add_topic_relationships g t) x.
Proof.
  intros N Hp Hr. unfold GraphBuilder.add_topic_relationships.
  unfold all_references in Hr.
  repeat apply no_edges_add_references.
  - destruct (Topic.parent t) as [p|] eqn:E; auto.
    simpl. destruct (String.eqb_spec p ""); simpl; auto.
    apply no_edges_add_relationship; auto; simpl; now apply (Hp p).
  - intros r H. apply Hr. apply in_or_app. now left.
  - intros r H. apply Hr. apply in_or_app. right. apply in_or_app. now left.
  - intros r H. apply Hr. apply in_or_app. right. apply in_or_app. now right.
Qed.

Lemma no_edges_build topics x :
  unconnected topics x ->
  no_edges (GraphBuilder.build_from_topics GraphBuilder.init topics) x.
Proof.
  intros U. unfold GraphBuilder.build_from_topics.
  assert (N0 : no_edges (fold_left GraphBuilder.add_topic topics GraphBuilder.init) x).
  { assert (N : no_edges GraphBuilder.init x)
      by (split; [apply well_formed_empty | split; reflexivity]).
    revert N. generalize GraphBuilder.init. clear U.
    induction topics as [|t topics IH]; intros g N; simpl; auto.
    apply IH. now apply no_edges_add_topic. }
  revert N0. generalize (fold_left GraphBuilder.add_topic topics GraphBuilder.init).
  induction topics as [|t topics IH]; intros g N; simpl; auto.
  apply IH.
  - intros t' Ht'. apply U. now right.
  - apply no_edges_step; auto; apply U; now left.
Qed.

(** Nodes are never removed. *)
Lemma has_node_ensure_node G n x :
  has_node G x = true -> has_node (ensure_node G n) x = true.
Proof.
  intros H. unfold ensure_node. destruct (Dict.mem (_succ G) n); auto.
  unfold has_node. simpl. destruct (string_dec n x) as [->|Hne].
  - apply DictFacts.mem_set_same.
  - now rewrite DictFacts.mem_set_other.
Qed.

Lemma has_node_add_relationship g r x :
  has_node g x = true -> has_node (GraphBuilder.add_relationship g r) x = true.
Proof.
  intros H. unfold GraphBuilder.add_relationship, add_edge, has_node. simpl.
  now apply has_node_ensure_node, has_node_ensure_node.
Qed.

Lemma has_node_add_topic g t x :
  has_node g x = true \/ Topic.id t = x ->
  has_node (GraphBuilder.add_topic g t) x = true.
Proof.
  intros H. unfold GraphBuilder.add_topic, add_node, has_node.
  destruct (string_dec (Topic.id t) x) as [E|Hne].
  - rewrite E. destruct (Dict.mem (_succ g) x) eqn:M; simpl;
      apply DictFacts.mem_set_same.
  - destruct H as [H|H]; [|contradiction].
    destruct (Dict.mem (_succ g) (Topic.id t)); simpl;
      now rewrite DictFacts.mem_set_other.
Qed.

End Orphans.

Module OrphanReport.
Import nx GraphFacts WellFormed Orphans.

Lemma has_node_add_topics topics g x :
  has_node g x = true \/ (exists t, In t topics /\ Topic.id t = x) ->
  has_node (fold_left GraphBuilder.add_topic topics g) x = true.
Proof.
  revert g. induction topics as [|t topics IH]; intros g H; simpl.
  - destruct H as [H|(t & [] & _)]. exact H.
  - apply IH. destruct H as [H|(t' & [<-|Hin] & E)].
    + left. apply has_node_add_topic. now left.
    + left. apply has_node_add_topic. now right.
    + right. eauto.
Qed.

Lemma has_node_add_references source type refs g x :
  has_node g x = true ->
  has_node (GraphBuilder.add_references source type refs g) x = true.
Proof.
  unfold GraphBuilder.add_references. revert g.
  induction refs as [|r refs IH]; intros g H; simpl; auto.
  apply IH. now apply has_node_add_relationship.
Qed.

Lemma has_node_step g t x :
  has_node g x = true ->
  has_node (GraphBuilder.add_topic_relationships g t) x = true.
Proof.
  intros H. unfold GraphBuilder.add_topic_relationships.
  repeat apply has_node_add_references.
  destruct (Topic.parent t) as [p|]; auto.
  destruct (Py.truthy (Some p)); auto.
  now apply has_node_add_relationship.
Qed.

(** Every topic of the list is a node of the constructed graph. *)
Lemma build_from_topics_has_node g topics t :
  In t topics ->
  has_node (GraphBuilder.build_from_topics g topics) (Topic.id t) = true.
Proof.
  intros Hin. unfold GraphBuilder.build_from_topics.
  assert (H : has_node (fold_left GraphBuilder.add_topic topics g) (Topic.id t)
              = true) by (apply has_node_add_topics; eauto).
  revert H. generalize (fold_left GraphBuilder.add_topic topics g).
  generalize topics at 1. intros steps.
  induction steps as [|s steps IH]; intros g0 H; simpl; auto.
  apply IH. now apply has_node_step.
Qed.

Lemma well_formed_add_references source type refs g :
  well_formed g ->
  well_formed (GraphBuilder.add_references source type refs g).
Proof.
  unfold GraphBuilder.add_references. revert g.
  induction refs as [|r refs IH]; intros g W; simpl; auto.
  apply IH. now apply well_formed_add_edge.
Qed.

Lemma well_formed_build g topics :
  well_formed g -> well_formed (GraphBuilder.build_from_topics g topics).
Proof.
  intros W. unfold GraphBuilder.build_from_topics.
  assert (W0 : well_formed (fold_left GraphBuilder.add_topic topics g)).
  { revert g W. induction topics as [|t topics IH]; intros g W; simpl; auto.
    apply IH. now apply well_formed_add_node. }
  revert W0. generalize (fold_left GraphBuilder.add_topic topics g).
  generalize topics at 1. intros steps.
  induction steps as [|s steps IH]; intros g0 W0; simpl; auto.
  apply IH. unfold GraphBuilder.add_topic_relationships.
  repeat apply well_formed_add_references.
  destruct (Topic.parent s) as [p|]; auto.
  destruct (Py.truthy (Some p)); auto.
  now apply well_formed_add_edge.
Qed.

Lemma count_at_orphans (l : list string) (n : string) :
  count_at n (map ValidatorAgent.orphan_anomaly l) = count_occ string_dec l n.
Proof.
  unfold count_at. induction l as [|x l IH]; simpl; auto.
  destruct (String.eqb_spec x n) as [->|Hne]; simpl.
  - destruct (string_dec n n); [|contradiction]. now rewrite IH.
  - destruct (string_dec x n); [contradiction|]. exact IH.
Qed.

Lemma count_occ_NoDup (l : list string) (n : string) :
  NoDup l ->
  count_occ string_dec l n = if existsb (String.eqb n) l then 1 else 0.
Proof.
  intros Hnd. destruct (existsb (String.eqb n) l) eqn:E.
  - apply (proj1 (NoDup_count_occ' string_dec l) Hnd).
    apply existsb_exists in E. destruct E as (y & Hy & E).
    apply String.eqb_eq in E. now subst.
  - apply count_occ_not_In. intros Hin.
    assert (existsb (String.eqb n) l = true); [|congruence].
    apply existsb_exists. exists n. split; auto. apply String.eqb_refl.
Qed.

Lemma existsb_filter (p : string -> bool) (l : list string) (n : string) :
  existsb (String.eqb n) (filter p l) = existsb (String.eqb n) l && p n.
Proof.
  induction l as [|x l IH]; simpl; auto.
  destruct (p x) eqn:Hp; simpl; rewrite IH;
    destruct (String.eqb_spec n x) as [->|Hne]; simpl; rewrite ?Hp; auto.
  now rewrite andb_false_r.
Qed.

Lemma has_node_existsb (g : DiGraph) (n : string) :
  has_node g n = existsb (String.eqb n) (nodes g).
Proof.
  destruct (existsb (String.eqb n) (nodes g)) eqn:E.
  - apply has_node_In. apply existsb_exists in E. destruct E as (y & Hy & E).
    apply String.eqb_eq in E. now subst.
  - destruct (has_node g n) eqn:H; auto.
    apply has_node_In in H.
    assert (existsb (String.eqb n) (nodes g) = true); [|congruence].
    apply existsb_exists. exists n. split; auto. apply String.eqb_refl.
Qed.

Lemma orphan_count (g : DiGraph) (n : string) :
  well_formed g ->
  count_at n (ValidatorAgent._find_orphan_content g) =
  if has_node g n && is_orphan g n then 1 else 0.
Proof.
  intros W. rewrite Detectors.find_orphan_content_map, count_at_orphans.
  unfold GraphBuilder.get_orphan_nodes. fold (is_orphan g).
  rewrite count_occ_NoDup by (apply NoDup_filter, W).
  now rewrite existsb_filter, has_node_existsb.
Qed.

Lemma no_edges_is_orphan (g : DiGraph) (x : string) :
  no_edges g x -> is_orphan g x = true.
Proof.
  intros (_ & Hs & Hp). unfold is_orphan, in_degree, out_degree.
  now rewrite Hs, Hp.
Qed.

End OrphanReport.

(** C9, as the code has it: on a well-formed graph the orphan detector
    reports every node whose in-degree and out-degree are both 0 exactly
    once, in node order, with type [orphan_content] and severity [low], and
    reports no other node.  A topic is so reported, exactly once, when no
    relationship derived from the topic list starts or ends at its id: the
    topics with that id have no parent and no references, and no topic
    names the id as its parent or among its references. *)
Theorem find_orphan_content_reports_isolated_nodes
    (g : nx.DiGraph) (topics : list Topic.t) :
  well_formed g ->
  ValidatorAgent._find_orphan_content g =
    map ValidatorAgent.orphan_anomaly (filter (is_orphan g) (nx.nodes g)) /\
  (forall n,
      count_at n (ValidatorAgent._find_orphan_content g) =
      if nx.has_node g n && is_orphan g n then 1 else 0) /\
  Forall
    (fun a => Anomaly.type a = orphan_content /\
              Anomaly.severity a = low /\
              Anomaly.affected_topics a = [Anomaly.location a])
    (ValidatorAgent._find_orphan_content g) /\
  (forall t,
      In t topics -> unconnected topics (Topic.id t) ->
      count_at (Topic.id t)
        (ValidatorAgent._find_orphan_content
           (GraphBuilder.build_from_topics GraphBuilder.init topics)) = 1).
Proof.
  intros W. split; [apply Detectors.find_orphan_content_map|].
  split; [intros; now apply OrphanReport.orphan_count|]. split.
  - rewrite Detectors.find_orphan_content_map. apply Forall_forall.
    intros a Ha. apply in_map_iff in Ha. destruct Ha as (n & <- & _).
    simpl. auto.
  - intros t Hin U.
    pose proof (Orphans.no_edges_build topics (Topic.id t) U) as N.
    rewrite OrphanReport.orphan_count by apply N.
    rewrite OrphanReport.build_from_topics_has_node by assumption.
    now rewrite OrphanReport.no_edges_is_orphan.
Qed.

(** The statement above on the graph of three topics, of which ["1"] is
    unconnected and ["3"] is referred to by ["2"]. *)
Lemma find_orphan_content_reports_isolated_nodes_witness :
  let topics := [topic "1" None [] [] []; topic "2" None ["3"] [] [];
                 topic "3" None [] [] []] in
  let g := GraphBuilder.build_from_topics GraphBuilder.init topics in
  well_formed g /\
  unconnected topics "1" /\
  ValidatorAgent._find_orphan_content g = [ValidatorAgent.orphan_anomaly "1"] /\
  count_at "1" (ValidatorAgent._find_orphan_content g) = 1.
Proof.
  cbv zeta.
  assert (W : well_formed
                (GraphBuilder.build_from_topics GraphBuilder.init
                   [topic "1" None [] [] []; topic "2" None ["3"] [] [];
                    topic "3" None [] [] []]))
    by apply OrphanReport.well_formed_build, WellFormed.well_formed_empty.
  assert (U : unconnected
                [topic "1" None [] [] []; topic "2" None ["3"] [] [];
                 topic "3" None [] [] []] "1").
  { intros t [<-|[<-|[<-|[]]]]; split; simpl; intros; try discriminate;
      try contradiction.
    destruct H as [<-|[]]. split; discriminate. }
  split; [exact W|]. split; [exact U|].
  destruct (find_orphan_content_reports_isolated_nodes _
              [topic "1" None [] [] []; topic "2" None ["3"] [] [];
               topic "3" None [] [] []] W) as (E & _ & _ & C).
  split.
  - rewrite E. reflexivity.
  - apply (C (topic "1" None [] [] [])); [now left | exact U].
Defined.

(** C9 as stated fails in its last part: a topic without parent, children
    and references that another topic refers to has in-degree 1 and is not
    reported. *)
Lemma referenced_topic_is_no_orphan :
  let b := topic "B" None [] [] [] in
  let topics := [topic "A" None ["B"] [] []; b] in
  let g := GraphBuilder.build_from_topics GraphBuilder.init topics in
  In b topics /\
  Topic.parent b = None /\ Topic.children b = [] /\ all_references b = [] /\
  nx.in_degree g "B" = 1 /\
  ValidatorAgent._find_orphan_content g = [] /\
  count_at "B" (ValidatorAgent._find_orphan_content g) <> 1.
Proof.
  cbv zeta. repeat split; try (right; left; reflexivity).
  intros H. discriminate H.
Qed.

(** ** Numbering gaps *)

Module Groups.

Lemma dict_as_map {V : Type} (d : Dict.t V) (default : V) :
  NoDup (Dict.keys d) ->
  d = map (fun k => (k, Dict.item d k default)) (Dict.keys d).
Proof.
  induction d as [|[k v] d IH]; simpl; auto.
  intros Hnd. inversion Hnd as [|? ? Hnotin Hnd']; subst.
  unfold Dict.item at 1. simpl. rewrite String.eqb_refl. f_equal.
  rewrite (IH Hnd') at 1. apply map_ext_in.
  intros k' Hk'. f_equal. unfold Dict.item. simpl.
  destruct (String.eqb_spec k k') as [->|Hne]; [contradiction | reflexivity].
Qed.

Lemma first_occurrences_snoc (l : list string) (x : string) :
  first_occurrences (l ++ [x]) =
  if occurs x l then first_occurrences l else first_occurrences l ++ [x].
Proof.
  induction l as [|a l IH]; simpl; auto.
  rewrite IH. unfold occurs in *. simpl.
  destruct (String.eqb_spec x a) as [->|Hne]; simpl.
  - destruct (existsb (String.eqb a) l); auto.
    rewrite filter_app. simpl. rewrite String.eqb_refl. simpl.
    now rewrite app_nil_r.
  - destruct (existsb (String.eqb x) l); auto.
    rewrite filter_app. simpl.
    destruct (String.eqb_spec x a); [contradiction|]. reflexivity.
Qed.

Lemma group_members_snoc (topics : list Topic.t) (t : Topic.t) (key : string) :
  group_members (topics ++ [t]) key =
  group_members topics key ++
  (if String.eqb (group_key t) key then [Topic.id t] else []).
Proof.
  unfold group_members. rewrite filter_app, map_app. simpl.
  now destruct (String.eqb (group_key t) key).
Qed.

Lemma group_members_absent (topics : list Topic.t) (key : string) :
  occurs key (map group_key topics) = false -> group_members topics key = [].
Proof.
  unfold group_members, occurs. induction topics as [|t topics IH]; simpl; auto.
  rewrite String.eqb_sym.
  destruct (String.eqb (group_key t) key); simpl; [discriminate | exact IH].
Qed.

(** The dictionary [topic_groups]: its keys in insertion order, without
    repetition, and the list stored under each key. *)
Lemma group_topics_spec (topics : list Topic.t) :
  let groups := ValidatorAgent.group_topics topics in
  Dict.keys groups = first_occurrences (map group_key topics) /\
  NoDup (Dict.keys groups) /\
  forall key,
    Dict.get groups key =
    if occurs key (map group_key topics)
    then Some (group_members topics key) else None.
Proof.
  induction topics as [|t topics IH] using rev_ind.
  - simpl. repeat split; auto. constructor.
  - cbv zeta in *. destruct IH as (K & Nd & G).
    unfold ValidatorAgent.group_topics in *. rewrite fold_left_snoc.
    set (groups := fold_left _ topics Dict.empty) in *.
    fold (group_key t).
    assert (M : Dict.mem groups (group_key t) =
                occurs (group_key t) (map group_key topics)).
    { unfold Dict.mem. rewrite G.
      now destruct (occurs (group_key t) (map group_key topics)). }
    rewrite map_app. cbn [map]. rewrite first_occurrences_snoc.
    split; [|split].
    + rewrite DictFacts.keys_set.
      destruct (Dict.mem groups (group_key t)) eqn:E; simpl.
      * rewrite E, <- M. exact K.
      * rewrite DictFacts.mem_set_same, DictFacts.keys_set, E, <- M. now f_equal.
    + apply DictFacts.NoDup_keys_set.
      destruct (negb (Dict.mem groups (group_key t))); auto.
      now apply DictFacts.NoDup_keys_set.
    + intros key. rewrite occurs_app, group_members_snoc. simpl.
      rewrite orb_false_r.
      destruct (String.eqb_spec key (group_key t)) as [->|Hne].
      * rewrite DictFacts.get_set_same, String.eqb_refl, orb_true_r.
        f_equal. f_equal.
        destruct (Dict.mem groups (group_key t)) eqn:E; simpl.
        -- unfold Dict.item. rewrite G, <- M. reflexivity.
        -- unfold Dict.item.
           rewrite DictFacts.get_set_same.
           now rewrite group_members_absent by congruence.
      * rewrite DictFacts.get_set_other by congruence.
        destruct (String.eqb_spec (group_key t) key); [congruence|].
        rewrite orb_false_r, app_nil_r.
        destruct (Dict.mem groups (group_key t)); simpl; auto.
        rewrite DictFacts.get_set_other by congruence. apply G.
Qed.

End Groups.

Module GapLoop.

Lemma group_topics_as_map (topics : list Topic.t) :
  ValidatorAgent.group_topics topics =
  map (fun key => (key, group_members topics key))
    (first_occurrences (map group_key topics)).
Proof.
  destruct (Groups.group_topics_spec topics) as (K & Nd & G).
  rewrite (Groups.dict_as_map (ValidatorAgent.group_topics topics) [] Nd) at 1.
  rewrite K. apply map_ext_in. intros key Hkey. f_equal.
  rewrite <- K in Hkey. apply DictFacts.mem_In_keys in Hkey.
  unfold Dict.mem in Hkey. unfold Dict.item. rewrite G in *.
  now destruct (occurs key (map group_key topics)).
Qed.

Lemma numeric_children_of_numbered (py : Py.Numerals)
    (children : list string) :
  ValidatorAgent.numeric_children_of py children = numbered py children.
Proof.
  unfold ValidatorAgent.numeric_children_of, numbered.
  rewrite <- (app_nil_l (flat_map _ children)).
  rewrite <- fold_left_append. apply fold_left_ext.
  intros acc id. unfold trailing_number_in.
  destruct (Py.last_item (Py.split "." id)) as [seg|];
    [|now rewrite app_nil_r].
  destruct (Py.isdigit py seg); [|now rewrite app_nil_r].
  destruct (Py.int py seg); [reflexivity | now rewrite app_nil_r].
Qed.

Lemma range_nil (a b : Z) : (b <= a)%Z -> Py.range a b = [].
Proof.
  intros H. unfold Py.range. replace (Z.to_nat (b - a)) with 0 by lia.
  reflexivity.
Qed.

Lemma range_In (a b m : Z) : In m (Py.range a b) <-> (a <= m < b)%Z.
Proof.
  unfold Py.range. rewrite in_map_iff. split.
  - intros (k & <- & Hk). apply in_seq in Hk. lia.
  - intros H. exists (Z.to_nat (m - a)). split; [lia|].
    apply in_seq. lia.
Qed.

Lemma range_NoDup (a b : Z) : NoDup (Py.range a b).
Proof.
  unfold Py.range. apply Finite.Injective_map_NoDup.
  - intros x y H. lia.
  - apply seq_NoDup.
Qed.

Lemma range_length (a b : Z) : List.length (Py.range a b) = Z.to_nat (b - a).
Proof. unfold Py.range. now rewrite length_map, length_seq. Qed.

Lemma pair_anomalies_missing_between (a b : Z * string) :
  pair_anomalies (Some a) (Some b) = missing_between (a, b).
Proof.
  destruct a as [n1 id1], b as [n2 id2]. simpl.
  destruct (Z.gtb_spec (n2 - n1) 1); auto.
  rewrite range_nil by lia. reflexivity.
Qed.

Lemma flat_map_neighbours (l : list (Z * string)) :
  flat_map (fun i => pair_anomalies (nth_error l i) (nth_error l (i + 1)))
    (seq 0 (List.length l - 1)) =
  flat_map missing_between (neighbours l).
Proof.
  induction l as [|a l IH]; [reflexivity|].
  destruct l as [|b l]; [reflexivity|].
  change (neighbours (a :: b :: l)) with ((a, b) :: neighbours (b :: l)).
  replace (List.length (a :: b :: l) - 1) with (S (List.length (b :: l) - 1))
    by (simpl; lia).
  rewrite <- cons_seq, <- seq_shift. cbn [flat_map].
  change (nth_error (a :: b :: l) 0) with (Some a).
  change (nth_error (a :: b :: l) (0 + 1)) with (Some b).
  rewrite pair_anomalies_missing_between. f_equal.
  rewrite <- IH. rewrite flat_map_concat_map, map_map, <- flat_map_concat_map.
  reflexivity.
Qed.

Lemma check_gaps_flat_map (l : list (Z * string)) (anomalies : list Anomaly.t) :
  ValidatorAgent.check_gaps l anomalies =
  anomalies ++ flat_map missing_between (neighbours l).
Proof.
  unfold ValidatorAgent.check_gaps. rewrite <- flat_map_neighbours.
  rewrite <- fold_left_append. apply fold_left_ext.
  intros acc i. unfold pair_anomalies.
  destruct (nth_error l i) as [[n1 id1]|]; [|now rewrite app_nil_r].
  destruct (nth_error l (i + 1)) as [[n2 id2]|]; [|now rewrite app_nil_r].
  destruct (n2 - n1 >? 1)%Z; [|now rewrite app_nil_r].
  apply fold_left_append_one.
Qed.

Lemma check_numbering_gaps_groups (py : Py.Numerals)
    (topics : list Topic.t) :
  ValidatorAgent._check_numbering_gaps py topics =
  flat_map (fun key => gaps_in_group py (group_members topics key))
    (first_occurrences (map group_key topics)).
Proof.
  unfold ValidatorAgent._check_numbering_gaps, Dict.items.
  rewrite group_topics_as_map.
  rewrite Hierarchy.fold_left_map.
  rewrite <- (app_nil_l (flat_map _ _)). rewrite <- fold_left_append.
  apply fold_left_ext. intros acc key.
  rewrite numeric_children_of_numbered. unfold gaps_in_group.
  destruct (numbered py (group_members topics key)) eqn:E.
  - simpl. now rewrite app_nil_r.
  - apply check_gaps_flat_map.
Qed.

End GapLoop.

Module Digits.

Lemma split_not_nil (sep : ascii) (s : string) : Py.split sep s <> [].
Proof.
  induction s as [|c s IH]; simpl; [discriminate|].
  destruct (Ascii.eqb c sep); [discriminate|].
  destruct (Py.split sep s); [contradiction | discriminate].
Qed.

Lemma last_item_some {A : Type} (l : list A) :
  l <> [] -> exists x, Py.last_item l = Some x.
Proof.
  induction l as [|a l IH]; [contradiction|]. intros _.
  destruct l as [|b l]; [now exists a|].
  destruct IH as (x & Hx); [discriminate|]. exists x. exact Hx.
Qed.

(** [parts[-1]] exists for the parts of a split. *)
Lemma split_last (s : string) :
  exists seg, Py.last_item (Py.split "." s) = Some seg.
Proof. apply last_item_some, split_not_nil. Qed.

Lemma digit_char_uint (c : ascii) (d : Decimal.uint) :
  is_digit_char c = true -> exists d', uint_of_char c (Some d) = Some d'.
Proof.
  destruct c as [[] [] [] [] [] [] [] []]; intros H;
    try discriminate H; eexists; reflexivity.
Qed.

Lemma all_digits_uint (s : string) :
  all_digits s = true -> exists d, NilEmpty.uint_of_string s = Some d.
Proof.
  induction s as [|c s IH]; simpl; [now eexists|].
  intros H. apply andb_true_iff in H. destruct H as (Hc & Hs).
  destruct (IH Hs) as (d & ->). now apply digit_char_uint.
Qed.

Lemma of_uint_nonneg (d : Decimal.uint) : (0 <= Z.of_uint d)%Z.
Proof. unfold Z.of_uint. apply N2Z.is_nonneg. Qed.

(** A numeral of ASCII digits denotes a number that is not negative. *)
Lemma decimal_value_some (seg : string) :
  is_decimal seg = true ->
  exists n, decimal_value seg = Some n /\ (0 <= n)%Z.
Proof.
  unfold is_decimal, decimal_value. destruct seg as [|c s]; [discriminate|].
  intros H. destruct (all_digits_uint _ H) as (d & ->).
  exists (Z.of_uint d). split; [reflexivity | apply of_uint_nonneg].
Qed.

Lemma trailing_number_some (py : Py.Numerals) (id : string) (n : Z) :
  trailing_number_in py id = Some n <->
  exists seg, Py.last_item (Py.split "." id) = Some seg /\
              Py.isdigit py seg = true /\ Py.int py seg = Some n.
Proof.
  unfold trailing_number_in. split.
  - destruct (Py.last_item (Py.split "." id)) as [seg|]; [|discriminate].
    destruct (Py.isdigit py seg) eqn:E; [|discriminate]. eauto.
  - intros (seg & -> & -> & H). exact H.
Qed.

(** An id is left out when its trailing segment is not numeric, or is
    numeric and [int] raises. *)
Lemma trailing_number_none (py : Py.Numerals) (id : string) :
  trailing_number_in py id = None <->
  exists seg, Py.last_item (Py.split "." id) = Some seg /\
              (Py.isdigit py seg = false \/ Py.int py seg = None).
Proof.
  unfold trailing_number_in. destruct (split_last id) as (seg & ->).
  destruct (Py.isdigit py seg) eqn:E.
  - split.
    + intros H. exists seg. auto.
    + intros (seg' & [= <-] & [H|H]); [congruence | exact H].
  - split; [|reflexivity]. intros _. exists seg. auto.
Qed.

Lemma numbered_In (py : Py.Numerals) (children : list string) (n : Z)
    (id : string) :
  In (n, id) (numbered py children) <->
  In id children /\ trailing_number_in py id = Some n.
Proof.
  unfold numbered. rewrite in_flat_map. split.
  - intros (x & Hx & Hin).
    destruct (trailing_number_in py x) eqn:E; [|contradiction].
    destruct Hin as [[= <- <-]|[]]. auto.
  - intros (Hin & E). exists id. split; auto. rewrite E. now left.
Qed.

Lemma ascii_numerals_read_decimals : reads_decimals ascii_numerals.
Proof. split; reflexivity. Qed.

(** On ids with plain trailing segments every interpreter reads what the
    ASCII numerals say. *)
Lemma trailing_number_plain (py : Py.Numerals) (id : string) :
  reads_decimals py -> plain_id id = true ->
  trailing_number_in py id = trailing_number id.
Proof.
  intros (Hd & Hi). unfold plain_id, trailing_number, trailing_number_in.
  destruct (Py.last_item (Py.split "." id)) as [seg|]; [|reflexivity].
  intros H. apply andb_true_iff in H. destruct H as (Ha & Hl).
  apply Nat.leb_le in Hl. rewrite (Hd seg Ha). simpl.
  destruct (is_decimal seg) eqn:E; [|reflexivity]. now apply Hi.
Qed.

Lemma numbered_plain (py : Py.Numerals) (children : list string) :
  reads_decimals py -> Forall (fun id => plain_id id = true) children ->
  numbered py children = numbered ascii_numerals children.
Proof.
  intros R H. unfold numbered. induction H as [|id children Hid _ IH];
    [reflexivity|].
  simpl. rewrite IH, (trailing_number_plain py id R Hid). reflexivity.
Qed.

Lemma western_digits_ascii (s : string) :
  is_ascii s = true -> western_digits s = s.
Proof.
  induction s as [|c1 t IH]; [reflexivity|].
  intros H. simpl in H. apply andb_true_iff in H. destruct H as (Hc & Ht).
  apply Nat.ltb_lt in Hc. specialize (IH Ht).
  destruct t as [|c2 rest]; [reflexivity|].
  change (western_digits (String c1 (String c2 rest)))
    with (if (nat_of_ascii c1 =? 217) &&
             (160 <=? nat_of_ascii c2) && (nat_of_ascii c2 <=? 169)
          then String (ascii_of_nat (nat_of_ascii c2 - 112))
                 (western_digits rest)
          else String c1 (western_digits (String c2 rest))).
  destruct (Nat.eqb_spec (nat_of_ascii c1) 217) as [E|_]; [lia|].
  simpl andb. cbv iota. now rewrite IH.
Qed.

Lemma arabic_indic_numerals_read_decimals :
  reads_decimals arabic_indic_numerals.
Proof.
  assert (A : forall s, all_digits s = true -> is_ascii s = true).
  { induction s as [|c s IH]; [reflexivity|]. simpl. intros H.
    apply andb_true_iff in H. destruct H as (Hc & Hs).
    rewrite (IH Hs), andb_true_r. unfold is_digit_char in Hc.
    apply andb_true_iff in Hc. destruct Hc as (_ & Hc).
    apply Nat.leb_le in Hc. apply Nat.ltb_lt. lia. }
  split; simpl.
  - intros s H. now rewrite western_digits_ascii.
  - intros s H _. rewrite western_digits_ascii; [reflexivity|].
    apply A. unfold is_decimal in H. now destruct s.
Qed.

Lemma check_numbering_gaps_plain (py : Py.Numerals) (topics : list Topic.t) :
  reads_decimals py ->
  Forall (fun t => plain_id (Topic.id t) = true) topics ->
  ValidatorAgent._check_numbering_gaps py topics =
  ValidatorAgent._check_numbering_gaps ascii_numerals topics.
Proof.
  intros R H. rewrite !GapLoop.check_numbering_gaps_groups.
  apply flat_map_ext. intros key. unfold gaps_in_group.
  rewrite (numbered_plain py _ R); [reflexivity|].
  unfold group_members. apply Forall_map, Forall_forall. intros t Ht.
  apply filter_In in Ht. rewrite Forall_forall in H. now apply H.
Qed.

End Digits.

Module SortFacts.
Import PySort.

Lemma insert_perm {A : Type} (lt : A -> A -> bool) (x : A) (l : list A) :
  Permutation (insert lt x l) (x :: l).
Proof.
  induction l as [|y l IH]; simpl; auto.
  destruct (lt y x); auto.
  rewrite IH. apply perm_swap.
Qed.

Lemma sort_perm {A : Type} (lt : A -> A -> bool) (l : list A) :
  Permutation (sort lt l) l.
Proof.
  induction l as [|x l IH]; simpl; auto.
  rewrite insert_perm. now constructor.
Qed.

Lemma ltb_asym (s1 s2 : string) :
  String.ltb s1 s2 = true -> String.ltb s2 s1 = false.
Proof.
  unfold String.ltb. rewrite (String.compare_antisym s1 s2).
  now destruct (String.compare s2 s1).
Qed.

Lemma tuple_lt_asym (a b : Z * string) :
  tuple_lt a b = true -> tuple_lt b a = false.
Proof.
  unfold tuple_lt. destruct a as [n1 s1], b as [n2 s2]. simpl.
  intros H. apply orb_true_iff in H. apply orb_false_iff.
  destruct H as [H|H].
  - apply Z.ltb_lt in H. split; [apply Z.ltb_ge; lia|].
    apply andb_false_iff. left. apply Z.eqb_neq. lia.
  - apply andb_true_iff in H. destruct H as (E & H). apply Z.eqb_eq in E.
    subst. split; [apply Z.ltb_irrefl|].
    apply andb_false_iff. right. now apply ltb_asym.
Qed.

Lemma insert_ascending (x : Z * string) (l : list (Z * string)) :
  ascending l -> ascending (insert tuple_lt x l).
Proof.
  unfold ascending. induction l as [|y l IH]; simpl; intros H.
  - repeat constructor.
  - destruct (tuple_lt y x) eqn:E.
    + inversion H as [|? ? Hs Hh]; subst. constructor; [now apply IH|].
      destruct l as [|z l]; simpl.
      * constructor. now apply tuple_lt_asym.
      * destruct (tuple_lt z x); constructor.
        -- now inversion Hh.
        -- now apply tuple_lt_asym.
    + constructor; [exact H | now constructor].
Qed.

Lemma sort_ascending (l : list (Z * string)) : ascending (sort tuple_lt l).
Proof.
  induction l as [|x l IH]; simpl; [constructor|].
  now apply insert_ascending.
Qed.

Lemma ascending_by_number (l : list (Z * string)) :
  ascending l -> Sorted by_number l.
Proof.
  unfold ascending. induction 1 as [|a l Hs IH Hh]; constructor; auto.
  destruct Hh as [|b l' Hab]; constructor.
  unfold by_number, tuple_lt in *. apply orb_false_iff in Hab.
  destruct Hab as (Hab & _). apply Z.ltb_ge in Hab. exact Hab.
Qed.

Lemma ltb_trans (s1 s2 s3 : string) :
  String.ltb s1 s2 = true -> String.ltb s2 s3 = true -> String.ltb s1 s3 = true.
Proof.
  unfold String.ltb. intros H1 H2.
  destruct (String.compare s1 s2) eqn:E1; try discriminate.
  destruct (String.compare s2 s3) eqn:E2; try discriminate.
  pose proof (@RelationClasses.StrictOrder_Transitive _ _
                String_as_OT.lt_strorder s1 s2 s3 E1 E2) as E3.
  change (String.compare s1 s3 = Lt) in E3. now rewrite E3.
Qed.

Lemma ltb_total (s1 s2 : string) :
  String.ltb s1 s2 = false -> String.ltb s2 s1 = false -> s1 = s2.
Proof.
  unfold String.ltb. rewrite (String.compare_antisym s1 s2).
  destruct (String.compare s2 s1) eqn:E; simpl; try discriminate.
  intros _ _. symmetry. now apply String.compare_eq_iff.
Qed.

Lemma tuple_lt_trans (a b c : Z * string) :
  tuple_lt a b = true -> tuple_lt b c = true -> tuple_lt a c = true.
Proof.
  unfold tuple_lt. destruct a as [n1 s1], b as [n2 s2], c as [n3 s3]. simpl.
  intros H1 H2. apply orb_true_iff in H1, H2. apply orb_true_iff.
  destruct H1 as [H1|H1], H2 as [H2|H2];
    rewrite ?andb_true_iff, ?Z.ltb_lt, ?Z.eqb_eq in *.
  - left. lia.
  - left. lia.
  - left. lia.
  - right. destruct H1 as (-> & H1), H2 as (-> & H2).
    split; [reflexivity | now apply (ltb_trans s1 s2 s3)].
Qed.

Lemma tuple_lt_total (a b : Z * string) :
  tuple_lt a b = false -> tuple_lt b a = false -> a = b.
Proof.
  unfold tuple_lt. destruct a as [n1 s1], b as [n2 s2]. simpl.
  intros H1 H2. apply orb_false_iff in H1, H2.
  destruct H1 as (L1 & E1), H2 as (L2 & E2).
  apply Z.ltb_ge in L1, L2. assert (n1 = n2) by lia. subst n2.
  rewrite Z.eqb_refl in E1, E2. simpl in E1, E2.
  f_equal. now apply ltb_total.
Qed.

Lemma not_greater_trans (a b c : Z * string) :
  tuple_lt b a = false -> tuple_lt c b = false -> tuple_lt c a = false.
Proof.
  intros H1 H2. destruct (tuple_lt c a) eqn:E; [|reflexivity].
  destruct (tuple_lt a b) eqn:E'.
  - rewrite (tuple_lt_trans c a b E E') in H2. discriminate.
  - rewrite (tuple_lt_total a b E' H1) in E. congruence.
Qed.

Lemma ascending_strongly (l : list (Z * string)) :
  ascending l -> StronglySorted (fun a b => tuple_lt b a = false) l.
Proof.
  apply Sorted_StronglySorted. intros a b c. apply not_greater_trans.
Qed.

Lemma strongly_sorted_unique (l1 l2 : list (Z * string)) :
  StronglySorted (fun a b => tuple_lt b a = false) l1 ->
  StronglySorted (fun a b => tuple_lt b a = false) l2 ->
  Permutation l1 l2 -> l1 = l2.
Proof.
  intros H1. revert l2. induction H1 as [|a l1 Hs IH Ha]; intros l2 H2 P.
  - apply Permutation_nil in P. now subst.
  - destruct H2 as [|b l2 Hs2 Hb].
    + apply Permutation_sym, Permutation_nil in P. discriminate.
    + assert (E : a = b).
      { assert (Hab : In b (a :: l1))
          by (apply (Permutation_in b (Permutation_sym P)); now left).
        assert (Hba : In a (b :: l2))
          by (apply (Permutation_in a P); now left).
        destruct Hab as [E|Hab]; [exact E|].
        destruct Hba as [E|Hba]; [now symmetry|].
        rewrite Forall_forall in Ha, Hb.
        apply tuple_lt_total; [apply (Hb a Hba) | apply (Ha b Hab)]. }
      subst b. f_equal. apply IH; auto.
      now apply Permutation_cons_inv in P.
Qed.

(** The sorted list is determined by the order: any sorting algorithm
    returns the list that the insertion sort returns. *)
Lemma sort_unique (l l' : list (Z * string)) :
  Permutation l' l -> ascending l' -> l' = sort tuple_lt l.
Proof.
  intros P H. apply strongly_sorted_unique.
  - now apply ascending_strongly.
  - apply ascending_strongly, sort_ascending.
  - rewrite P. symmetry. apply sort_perm.
Qed.

End SortFacts.

(** C4: the numbering-gap detector groups the ids by parent ("root" for a
    topic without one), the groups in the order of their first topic;
    within a group it keeps the ids whose trailing segment is numeric, that
    is, of which [isdigit] holds and which [int] reads, with the number that
    [int] returns, whatever digits the interpreter knows; it sorts them by
    number, and for every two neighbours emits one [numbering_gap] anomaly,
    of severity [high] and with the two neighbours as affected topics, for
    every integer strictly between their numbers; children numbered 1, 2, 5
    yield the anomalies for 3 and 4 and no other. *)
Theorem check_numbering_gaps_per_missing_integer
    (py : Py.Numerals) (topics : list Topic.t) :
  ValidatorAgent._check_numbering_gaps py topics =
    flat_map (fun key => gaps_in_group py (group_members topics key))
      (first_occurrences (map group_key topics)) /\
  (forall t, group_key t = match Topic.parent t with
                           | Some p => if String.eqb p "" then "root" else p
                           | None => "root"
                           end) /\
  (forall children n id,
      In (n, id) (numbered py children) <->
      In id children /\
      exists seg, Py.last_item (Py.split "." id) = Some seg /\
                  Py.isdigit py seg = true /\ Py.int py seg = Some n) /\
  (forall children,
      Permutation (PySort.sort PySort.tuple_lt (numbered py children))
        (numbered py children) /\
      Sorted by_number (PySort.sort PySort.tuple_lt (numbered py children)) /\
      forall sorted,
        Permutation sorted (numbered py children) -> ascending sorted ->
        sorted = PySort.sort PySort.tuple_lt (numbered py children)) /\
  (forall n1 id1 n2 id2,
      missing_between ((n1, id1), (n2, id2)) =
        map (ValidatorAgent.gap_anomaly id1 id2) (Py.range (n1 + 1) n2) /\
      (forall m, In m (Py.range (n1 + 1) n2) <-> (n1 < m < n2)%Z) /\
      NoDup (Py.range (n1 + 1) n2) /\
      List.length (missing_between ((n1, id1), (n2, id2))) =
        Z.to_nat (n2 - n1 - 1)) /\
  (forall id1 id2 m,
      let a := ValidatorAgent.gap_anomaly id1 id2 m in
      Anomaly.type a = numbering_gap /\
      Anomaly.severity a = high /\
      Anomaly.affected_topics a = [id1; id2] /\
      Anomaly.description a =
        ("Missing topic " ++ ValidatorAgent._construct_missing_id id1 m ++
         " in sequence")%string) /\
  (forall a b c,
      flat_map missing_between (neighbours [(1%Z, a); (2%Z, b); (5%Z, c)]) =
      [ValidatorAgent.gap_anomaly b c 3; ValidatorAgent.gap_anomaly b c 4]) /\
  (reads_decimals py ->
   ValidatorAgent._check_numbering_gaps py
     [topic "1" None [] [] []; topic "1.5" (Some "1") [] [] [];
      topic "1.1" (Some "1") [] [] []; topic "1.2" (Some "1") [] [] []] =
   [ValidatorAgent.gap_anomaly "1.2" "1.5" 3;
    ValidatorAgent.gap_anomaly "1.2" "1.5" 4]) /\
  ValidatorAgent._construct_missing_id "1.2" 3 = "1.3" /\
  ValidatorAgent._construct_missing_id "1.2" 4 = "1.4".
Proof.
  split; [apply GapLoop.check_numbering_gaps_groups|].
  split; [reflexivity|].
  split.
  { intros children n id. rewrite Digits.numbered_In.
    now rewrite Digits.trailing_number_some. }
  split.
  { intros children. split; [|split].
    - apply SortFacts.sort_perm.
    - apply SortFacts.ascending_by_number, SortFacts.sort_ascending.
    - apply SortFacts.sort_unique. }
  split.
  { intros n1 id1 n2 id2. split; [reflexivity|]. split; [|split].
    - intros m. rewrite GapLoop.range_In. lia.
    - apply GapLoop.range_NoDup.
    - simpl. rewrite length_map, GapLoop.range_length. f_equal. lia. }
  split; [intros; simpl; auto|].
  split; [reflexivity|].
  split; [|split; reflexivity].
  intros R. rewrite (Digits.check_numbering_gaps_plain py _ R);
    [reflexivity | repeat constructor].
Qed.

Lemma check_numbering_gaps_per_missing_integer_witness :
  reads_decimals ascii_numerals /\
  ValidatorAgent._check_numbering_gaps ascii_numerals
    [topic "1" None [] [] []; topic "1.5" (Some "1") [] [] [];
     topic "1.1" (Some "1") [] [] []; topic "1.2" (Some "1") [] [] []] =
  [ValidatorAgent.gap_anomaly "1.2" "1.5" 3;
   ValidatorAgent.gap_anomaly "1.2" "1.5" 4].
Proof.
  split; [exact Digits.ascii_numerals_read_decimals|].
  destruct (check_numbering_gaps_per_missing_integer ascii_numerals [])
    as (_ & _ & _ & _ & _ & _ & _ & H & _).
  exact (H Digits.ascii_numerals_read_decimals).
Defined.

(** ** The validation pass *)

Module Report.
Import ValidatorAgent.

Lemma without_strategies_fresh (a : Anomaly.t) :
  Anomaly.resolution_strategies a = [] -> without_strategies a = a.
Proof. destruct a. simpl. now intros ->. Qed.

Lemma map_without_strategies_fresh (l : list Anomaly.t) :
  Forall (fun a => Anomaly.resolution_strategies a = []) l ->
  map without_strategies l = l.
Proof.
  induction 1 as [|a l Ha _ IH]; simpl; auto.
  now rewrite without_strategies_fresh, IH.
Qed.

Lemma generate_from_without_strategies (llm : StrategyOracle) (i : nat)
    (l : list Anomaly.t) :
  map without_strategies (generate_from llm i l) = map without_strategies l.
Proof.
  revert i. induction l as [|a l IH]; intros i; simpl; auto.
  rewrite IH. now destruct (needs_strategies (Anomaly.severity a)).
Qed.

Lemma generate_from_nth (llm : StrategyOracle) (i k : nat)
    (l : list Anomaly.t) :
  nth_error (generate_from llm i l) k =
  option_map
    (fun a => if needs_strategies (Anomaly.severity a)
              then set_strategies a (llm (i + k) a) else a)
    (nth_error l k).
Proof.
  revert i k. induction l as [|a l IH]; intros i k; simpl.
  - now destruct k.
  - destruct k as [|k]; simpl.
    + now rewrite Nat.add_0_r.
    + rewrite IH. now rewrite Nat.add_succ_r.
Qed.

Lemma gaps_fresh (py : Py.Numerals) (topics : list Topic.t) :
  Forall (fun a => Anomaly.resolution_strategies a = [] /\
                   Anomaly.type a = numbering_gap)
    (_check_numbering_gaps py topics).
Proof.
  rewrite GapLoop.check_numbering_gaps_groups. apply Forall_flat_map.
  apply Forall_forall. intros key _. unfold gaps_in_group.
  apply Forall_flat_map. apply Forall_forall. intros [[n1 id1] [n2 id2]] _.
  simpl. apply Forall_map. apply Forall_forall. intros m _. now split.
Qed.

Lemma references_fresh (topics : list Topic.t) :
  Forall (fun a => Anomaly.resolution_strategies a = [] /\
                   Anomaly.type a = broken_cross_reference)
    (_validate_cross_references topics).
Proof.
  rewrite Detectors.validate_cross_references_flat_map. apply Forall_flat_map.
  apply Forall_forall. intros t _. apply Forall_map.
  apply Forall_forall. intros r _. now split.
Qed.

Lemma cycles_fresh (sc : SimpleCycles) (g : nx.DiGraph) :
  Forall (fun a => Anomaly.resolution_strategies a = [] /\
                   Anomaly.type a = circular_reference)
    (_detect_circular_references sc g).
Proof.
  rewrite Detectors.detect_circular_references_map. apply Forall_map.
  apply Forall_forall. intros c _. now split.
Qed.

Lemma orphans_fresh (g : nx.DiGraph) :
  Forall (fun a => Anomaly.resolution_strategies a = [] /\
                   Anomaly.type a = orphan_content)
    (_find_orphan_content g).
Proof.
  rewrite Detectors.find_orphan_content_map. apply Forall_map.
  apply Forall_forall. intros c _. now split.
Qed.

Lemma duplicates_fresh (topics : list Topic.t) :
  Forall (fun a => Anomaly.resolution_strategies a = [] /\
                   Anomaly.type a = duplicate_topic)
    (_check_duplicates topics).
Proof.
  eapply Forall_impl; [|apply check_duplicates_shape].
  intros a (x & -> & _). now split.
Qed.

End Report.

(** C2, as the code has it: the list that [validate] returns is the
    concatenation of the detector outputs in the order numbering gaps,
    broken references, cycles, orphans, duplicates; the anomalies of
    severity [high] or [critical] carry in addition the resolution
    strategies obtained for them, and nothing else is changed. *)
Theorem validate_concatenates_detectors
    (py : Py.Numerals) (llm : StrategyOracle) (simple_cycles : SimpleCycles)
    (topics : list Topic.t) (graph_builder : nx.DiGraph) :
  let gaps := ValidatorAgent._check_numbering_gaps py topics in
  let references := ValidatorAgent._validate_cross_references topics in
  let cycles :=
    ValidatorAgent._detect_circular_references simple_cycles graph_builder in
  let orphans := ValidatorAgent._find_orphan_content graph_builder in
  let duplicates := ValidatorAgent._check_duplicates topics in
  let detected := gaps ++ references ++ cycles ++ orphans ++ duplicates in
  let result :=
    ValidatorAgent.validate py llm simple_cycles topics graph_builder in
  map without_strategies result = detected /\
  (forall k,
      nth_error result k =
      option_map
        (fun a => if ValidatorAgent.needs_strategies (Anomaly.severity a)
                  then ValidatorAgent.set_strategies a (llm k a) else a)
        (nth_error detected k)) /\
  Forall (fun a => Anomaly.type a = numbering_gap) gaps /\
  Forall (fun a => Anomaly.type a = broken_cross_reference) references /\
  Forall (fun a => Anomaly.type a = circular_reference) cycles /\
  Forall (fun a => Anomaly.type a = orphan_content) orphans /\
  Forall (fun a => Anomaly.type a = duplicate_topic) duplicates.
Proof.
  cbv zeta.
  assert (E : ValidatorAgent.validate py llm simple_cycles topics
                graph_builder =
              ValidatorAgent.generate_from llm 0
                (ValidatorAgent._check_numbering_gaps py topics ++
                 ValidatorAgent._validate_cross_references topics ++
                 ValidatorAgent._detect_circular_references simple_cycles
                   graph_builder ++
                 ValidatorAgent._find_orphan_content graph_builder ++
                 ValidatorAgent._check_duplicates topics)).
  { unfold ValidatorAgent.validate,
      ValidatorAgent._generate_resolution_strategies.
    cbv zeta. rewrite app_nil_l, <- !app_assoc. reflexivity. }
  rewrite E. split.
  - rewrite Report.generate_from_without_strategies.
    apply Report.map_without_strategies_fresh.
    repeat (apply Forall_app; split);
      (eapply Forall_impl;
       [|first [apply Report.gaps_fresh | apply Report.references_fresh
               | apply Report.cycles_fresh | apply Report.orphans_fresh
               | apply Report.duplicates_fresh]]);
      intros a Ha; apply Ha.
  - split; [intros k; apply (Report.generate_from_nth llm 0 k)|].
    repeat split;
      (eapply Forall_impl;
       [|first [apply Report.gaps_fresh | apply Report.references_fresh
               | apply Report.cycles_fresh | apply Report.orphans_fresh
               | apply Report.duplicates_fresh]]);
      intros a Ha; apply Ha.
Qed.

(** C2 as stated fails: for the topics 1, 3, 3, whose ids are ASCII
    numerals, the duplicate anomaly is the last of the list, after the
    numbering gap and the orphans, not the first. *)
Lemma validate_reports_duplicates_last :
  let topics := [topic "1" None [] [] []; topic "3" None [] [] [];
                 topic "3" None [] [] []] in
  let g := GraphBuilder.build_from_topics GraphBuilder.init topics in
  let result :=
    ValidatorAgent.validate ascii_numerals manual_review no_cycles topics g in
  map Anomaly.type result =
    [numbering_gap; orphan_content; orphan_content; duplicate_topic] /\
  map without_strategies result <>
    ValidatorAgent._check_duplicates topics ++
    ValidatorAgent._check_numbering_gaps ascii_numerals topics ++
    ValidatorAgent._validate_cross_references topics ++
    ValidatorAgent._detect_circular_references no_cycles g ++
    ValidatorAgent._find_orphan_content g.
Proof.
  cbv zeta. split; [reflexivity|]. intros H.
  apply (f_equal (map Anomaly.type)) in H. discriminate H.
Qed.

(** ** Circular references *)

Module Cycles.

Lemma rotation_refl (c : list string) : rotation c c.
Proof. exists [], c. split; [reflexivity | now rewrite app_nil_r]. Qed.

Lemma rotation_sym (c c' : list string) : rotation c c' -> rotation c' c.
Proof. intros (l1 & l2 & -> & ->). now exists l2, l1. Qed.

Lemma rotation_trans (c1 c2 c3 : list string) :
  rotation c1 c2 -> rotation c2 c3 -> rotation c1 c3.
Proof.
  intros (l1 & l2 & -> & ->) (m1 & m2 & E & ->).
  apply app_eq_app in E. destruct E as (l & [(-> & ->)|(-> & ->)]).
  - exists (l1 ++ m1), l. split; now rewrite <- ?app_assoc.
  - exists l, (m2 ++ l2). split; now rewrite <- ?app_assoc.
Qed.

Lemma rotation_Permutation (c c' : list string) :
  rotation c c' -> Permutation c c'.
Proof. intros (l1 & l2 & -> & ->). apply Permutation_app_comm. Qed.

(** In a list without two rotations of one cycle, the element that is a
    rotation of a given cycle is the only one. *)
Lemma only_rotation (cycles : list Cycle) (c0 : Cycle) (c : list string) :
  ForallOrdPairs
    (fun c1 c2 => ~ rotation (cycle_nodes c1) (cycle_nodes c2)) cycles ->
  In c0 cycles -> rotation (cycle_nodes c0) c ->
  exists before after,
    cycles = before ++ c0 :: after /\
    Forall (fun c1 => ~ rotation (cycle_nodes c1) c) (before ++ after).
Proof.
  intros Hpairs Hin Hrot. apply in_split in Hin.
  destruct Hin as (before & after & ->). exists before, after.
  split; [reflexivity|]. apply Forall_app. split.
  - apply Forall_forall. intros c1 Hc1 Hrot1.
    apply in_split in Hc1. destruct Hc1 as (b1 & b2 & ->).
    rewrite <- app_assoc in Hpairs. simpl in Hpairs.
    induction b1 as [|x b1 IH]; simpl in Hpairs.
    + inversion Hpairs as [|? ? Hall _]; subst.
      rewrite Forall_forall in Hall. apply (Hall c0).
      * apply in_or_app. right. now left.
      * eapply rotation_trans; [exact Hrot1 | now apply rotation_sym].
    + inversion Hpairs; subst. auto.
  - apply Forall_forall. intros c1 Hc1 Hrot1.
    induction before as [|x before IH]; simpl in Hpairs.
    + inversion Hpairs as [|? ? Hall _]; subst.
      rewrite Forall_forall in Hall. apply (Hall c1 Hc1).
      eapply rotation_trans; [exact Hrot | now apply rotation_sym].
    + inversion Hpairs; subst. auto.
Qed.

End Cycles.

(** C7: when [nx.simple_cycles] returns the simple cycles of the graph,
    each once, the detector emits one [circular_reference] anomaly for each
    of them, in the order of the library: of severity [medium], with the
    nodes of the cycle as affected topics and, as location, these nodes and
    the first of them again, joined by arrows.  For every simple cycle of
    the graph exactly one anomaly has a rotation of it as affected topics;
    a graph without cycles yields no anomaly, and a graph whose simple
    cycles are the rotations of [A; B; C] yields exactly one, whose
    affected topics are [A], [B] and [C]. *)
Theorem detect_circular_references_one_per_cycle
    (simple_cycles : SimpleCycles) (graph_builder : nx.DiGraph)
    (cycles : list Cycle) :
  simple_cycles graph_builder = Some cycles ->
  lists_simple_cycles graph_builder cycles ->
  let anomalies :=
    ValidatorAgent._detect_circular_references simple_cycles graph_builder in
  anomalies = map ValidatorAgent.cycle_anomaly cycles /\
  Forall
    (fun a =>
       Anomaly.type a = circular_reference /\
       Anomaly.severity a = medium /\
       is_simple_cycle graph_builder (Anomaly.affected_topics a) /\
       Anomaly.location a =
         Py.join " → "
           (Anomaly.affected_topics a ++ firstn 1 (Anomaly.affected_topics a)))
    anomalies /\
  (forall c,
      is_simple_cycle graph_builder c ->
      exists before a after,
        anomalies = before ++ a :: after /\
        rotation (Anomaly.affected_topics a) c /\
        Forall (fun a' => ~ rotation (Anomaly.affected_topics a') c)
          (before ++ after)) /\
  ((forall c, ~ is_simple_cycle graph_builder c) -> anomalies = []) /\
  (forall A B C,
      (forall c, is_simple_cycle graph_builder c <-> rotation [A; B; C] c) ->
      exists a,
        anomalies = [a] /\
        rotation [A; B; C] (Anomaly.affected_topics a) /\
        Permutation [A; B; C] (Anomaly.affected_topics a)).
Proof.
  intros Hsc (Hsound & Hcomplete & Honce) anomalies.
  assert (E : anomalies = map ValidatorAgent.cycle_anomaly cycles).
  { unfold anomalies. rewrite Detectors.detect_circular_references_map.
    unfold GraphBuilder.detect_circular_references. now rewrite Hsc. }
  assert (Hshape :
    Forall
      (fun a =>
         Anomaly.type a = circular_reference /\
         Anomaly.severity a = medium /\
         is_simple_cycle graph_builder (Anomaly.affected_topics a) /\
         Anomaly.location a =
           Py.join " → "
             (Anomaly.affected_topics a ++
              firstn 1 (Anomaly.affected_topics a))) anomalies).
  { rewrite E. apply Forall_map. eapply Forall_impl; [|exact Hsound].
    intros c Hc. simpl. auto. }
  assert (Hone : forall c,
    is_simple_cycle graph_builder c ->
    exists before a after,
      anomalies = before ++ a :: after /\
      rotation (Anomaly.affected_topics a) c /\
      Forall (fun a' => ~ rotation (Anomaly.affected_topics a') c)
        (before ++ after)).
  { intros c Hc. destruct (Hcomplete c Hc) as (c0 & Hin & Hrot).
    destruct (Cycles.only_rotation cycles c0 c Honce Hin Hrot)
      as (before & after & Hcycles & Hothers).
    exists (map ValidatorAgent.cycle_anomaly before),
           (ValidatorAgent.cycle_anomaly c0),
           (map ValidatorAgent.cycle_anomaly after).
    split; [|split].
    - rewrite E, Hcycles, map_app. reflexivity.
    - exact Hrot.
    - rewrite <- map_app. apply Forall_map. exact Hothers. }
  split; [exact E|]. split; [exact Hshape|]. split; [exact Hone|]. split.
  - intros Hnone. rewrite E. destruct cycles as [|c cycles]; [reflexivity|].
    inversion Hsound as [|? ? Hc _]; subst. now apply Hnone in Hc.
  - intros A B C Hcycles.
    destruct (Hone [A; B; C]) as (before & a & after & Hsplit & Hrot & Hothers).
    { apply Hcycles, Cycles.rotation_refl. }
    assert (Hnil : before ++ after = []).
    { destruct (before ++ after) as [|a' rest] eqn:Eq; [reflexivity|].
      exfalso. inversion Hothers as [|? ? Hno _]; subst. apply Hno.
      apply Cycles.rotation_sym, Hcycles.
      rewrite Forall_forall in Hshape. apply (Hshape a').
      rewrite Hsplit.
      assert (Hin : In a' (before ++ after)) by (rewrite Eq; now left).
      apply in_app_or in Hin. apply in_or_app.
      destruct Hin as [Hin|Hin]; [now left | right; now right]. }
    apply app_eq_nil in Hnil. destruct Hnil as (-> & ->).
    exists a. split; [exact Hsplit|].
    split; [now apply Cycles.rotation_sym|].
    now apply Cycles.rotation_Permutation, Cycles.rotation_sym.
Qed.

Module Circle.

Lemma circle_edges (u v : string) :
  nx.has_edge circle u v = true ->
  In (u, v) [("A", "B"); ("B", "C"); ("C", "A")].
Proof.
  unfold nx.has_edge, nx.get_edge_data, nx.inner, Dict.item.
  set (succ := nx._succ circle). vm_compute in succ. subst succ.
  cbn [Dict.get].
  destruct (String.eqb_spec "A" u) as [<-|_].
  { cbn [Dict.get]. destruct (String.eqb_spec "B" v) as [<-|_];
      [simpl; auto | discriminate]. }
  destruct (String.eqb_spec "B" u) as [<-|_].
  { cbn [Dict.get]. destruct (String.eqb_spec "C" v) as [<-|_];
      [simpl; auto | discriminate]. }
  destruct (String.eqb_spec "C" u) as [<-|_].
  { cbn [Dict.get]. destruct (String.eqb_spec "A" v) as [<-|_];
      [simpl; auto | discriminate]. }
  discriminate.
Qed.

Ltac edge_cases H :=
  unfold edge in H; simpl in H; apply circle_edges in H; simpl in H;
  destruct H as [H|[H|[H|[]]]]; inversion H; subst; clear H;
  try congruence.

Lemma circle_cycles (c : list string) :
  is_simple_cycle circle c -> rotation ["A"; "B"; "C"] c.
Proof.
  intros (Hne & Hnd & Hedges). unfold cycle_edges in Hedges.
  destruct c as [|x [|y [|z [|w rest]]]]; simpl in Hedges.
  - contradiction.
  - inversion Hedges as [|? ? H1 _]; subst. edge_cases H1.
  - inversion Hedges as [|? ? H1 Hrest]; subst.
    inversion Hrest as [|? ? H2 _]; subst.
    edge_cases H1; edge_cases H2.
  - inversion Hedges as [|? ? H1 Hrest]; subst.
    inversion Hrest as [|? ? H2 Hrest']; subst.
    inversion Hrest' as [|? ? H3 _]; subst.
    edge_cases H1; edge_cases H2; edge_cases H3.
    + exists [], ["A"; "B"; "C"]. now split.
    + exists ["A"], ["B"; "C"]. now split.
    + exists ["A"; "B"], ["C"]. now split.
  - inversion Hedges as [|? ? H1 Hrest]; subst.
    inversion Hrest as [|? ? H2 Hrest']; subst.
    inversion Hrest' as [|? ? H3 _]; subst.
    exfalso. inversion Hnd as [|? ? Hnotin _]; subst. apply Hnotin.
    edge_cases H1; edge_cases H2; edge_cases H3; simpl; auto.
Qed.

Lemma circle_is_simple_cycle : is_simple_cycle circle ["A"; "B"; "C"].
Proof.
  split; [discriminate|]. split.
  - repeat constructor; simpl; intuition discriminate.
  - repeat constructor.
Qed.

Lemma circle_lists_simple_cycles :
  lists_simple_cycles circle [("A", ["B"; "C"])].
Proof.
  split; [|split].
  - constructor; [apply circle_is_simple_cycle | constructor].
  - intros c Hc. exists ("A", ["B"; "C"]). split; [now left|].
    now apply circle_cycles.
  - repeat constructor.
Qed.

End Circle.

(** ** The contract of the cycle enumeration can be met *)

Module Enumeration.

Lemma without_In (w x : string) (l : list string) :
  In x (without w l) <-> In x l /\ x <> w.
Proof.
  unfold without. rewrite filter_In. split; intros (H1 & H2); split; auto.
  - intros ->. now rewrite String.eqb_refl in H2.
  - now destruct (String.eqb_spec x w).
Qed.

Lemma without_NoDup (w : string) (l : list string) :
  NoDup l -> NoDup (without w l).
Proof. apply NoDup_filter. Qed.

Lemma NoDup_flat_map {A B : Type} (f : A -> list B) (l : list A) :
  NoDup l ->
  (forall x, In x l -> NoDup (f x)) ->
  (forall x y z, In x l -> In y l -> x <> y -> In z (f x) -> ~ In z (f y)) ->
  NoDup (flat_map f l).
Proof.
  induction l as [|a l IH]; intros Hnd Hf Hdisj; simpl; [constructor|].
  inversion Hnd as [|? ? Hnotin Hnd']; subst.
  apply NoDup_app.
  - apply Hf. now left.
  - apply IH; auto.
    + intros x Hx. apply Hf. now right.
    + intros x y z Hx Hy. apply Hdisj; now right.
  - intros z Hz Hz'. apply in_flat_map in Hz'. destruct Hz' as (y & Hy & Hz').
    apply (Hdisj a y z); auto; [now left | now right | congruence].
Qed.

(** What a path of [simple_paths] is. *)
Lemma simple_paths_sound (G : nx.DiGraph) (fuel : nat) :
  forall remaining v p,
    NoDup remaining -> ~ In v remaining ->
    In p (simple_paths G fuel remaining v) ->
    exists q, p = v :: q /\ NoDup p /\ incl q remaining /\
              Forall (edge G) (neighbours p).
Proof.
  induction fuel as [|fuel IH]; intros remaining v p Hnd Hv Hin; simpl in Hin.
  - contradiction.
  - destruct Hin as [<-|Hin].
    + exists []. repeat split; try constructor; auto.
      * constructor.
      * intros x [].
    + apply in_flat_map in Hin. destruct Hin as (w & Hw & Hin).
      destruct (nx.has_edge G v w) eqn:E; [|contradiction].
      apply in_map_iff in Hin. destruct Hin as (p' & <- & Hin).
      apply IH in Hin; [|now apply without_NoDup|].
      2:{ rewrite without_In. intros (_ & H). now apply H. }
      destruct Hin as (q & -> & Hndp & Hincl & Hedges).
      exists (w :: q). split; [reflexivity|]. split; [|split].
      * constructor; auto. intros [<-|Hq]; [contradiction|].
        apply Hincl, without_In in Hq. destruct Hq as (Hq & _). contradiction.
      * intros x [<-|Hx]; auto.
        apply Hincl, without_In in Hx. apply Hx.
      * change (neighbours (v :: w :: q)) with ((v, w) :: neighbours (w :: q)).
        constructor; auto.
Qed.

(** Every such path is found. *)
Lemma simple_paths_complete (G : nx.DiGraph) (q : list string) :
  forall fuel remaining v,
    NoDup (v :: q) -> incl q remaining ->
    Forall (edge G) (neighbours (v :: q)) ->
    List.length q < fuel ->
    In (v :: q) (simple_paths G fuel remaining v).
Proof.
  induction q as [|w q IH]; intros fuel remaining v Hnd Hincl Hedges Hlen.
  - destruct fuel; [inversion Hlen|]. now left.
  - destruct fuel as [|fuel]; [inversion Hlen|]. simpl. right.
    apply in_flat_map. exists w. split; [apply Hincl; now left|].
    change (neighbours (v :: w :: q)) with ((v, w) :: neighbours (w :: q))
      in Hedges.
    inversion Hedges as [|? ? Hvw Hrest]; subst. unfold edge in Hvw.
    simpl in Hvw. rewrite Hvw. apply in_map. apply IH.
    + now inversion Hnd.
    + intros x Hx. apply without_In. split; [apply Hincl; now right|].
      intros ->. inversion Hnd as [|? ? _ Hnd']; subst.
      inversion Hnd' as [|? ? Hnotin _]; subst. contradiction.
    + exact Hrest.
    + simpl in Hlen. lia.
Qed.

(** No path is listed twice. *)
Lemma simple_paths_NoDup (G : nx.DiGraph) (fuel : nat) :
  forall remaining v,
    NoDup remaining -> NoDup (simple_paths G fuel remaining v).
Proof.
  induction fuel as [|fuel IH]; intros remaining v Hnd; simpl; [constructor|].
  constructor.
  - intros Hin. apply in_flat_map in Hin. destruct Hin as (w & _ & Hin).
    destruct (nx.has_edge G v w); [|contradiction].
    apply in_map_iff in Hin. destruct Hin as (p' & E & Hin).
    injection E as ->. destruct fuel; simpl in Hin; [contradiction|].
    destruct Hin as [E|Hin]; [discriminate|].
    apply in_flat_map in Hin. destruct Hin as (x & _ & Hin).
    destruct (nx.has_edge G w x); [|contradiction].
    apply in_map_iff in Hin. destruct Hin as (? & E & _). discriminate.
  - apply NoDup_flat_map; auto.
    + intros w _. destruct (nx.has_edge G v w); [|constructor].
      apply Finite.Injective_map_NoDup.
      * intros a b E. now injection E.
      * apply IH. now apply without_NoDup.
    + intros x y z _ _ Hxy Hz Hz'.
      destruct (nx.has_edge G v x); [|contradiction].
      destruct (nx.has_edge G v y); [|contradiction].
      apply in_map_iff in Hz, Hz'.
      destruct Hz as (p1 & <- & H1), Hz' as (p2 & E & H2).
      injection E as ->.
      assert (Hhd : forall f r u p, In p (simple_paths G f r u) ->
                                    hd_error p = Some u).
      { clear. intros f r u p H. destruct f; simpl in H; [contradiction|].
        destruct H as [<-|H]; [reflexivity|].
        apply in_flat_map in H. destruct H as (w & _ & H).
        destruct (nx.has_edge G u w); [|contradiction].
        apply in_map_iff in H. now destruct H as (? & <- & _). }
      apply Hhd in H1, H2. congruence.
Qed.

End Enumeration.

Module CycleEdges.
Import Enumeration.

Lemma combine_last (q : list string) :
  forall s x d,
    combine (s :: q) (q ++ [x]) = combine (s :: q) q ++ [(last (s :: q) d, x)].
Proof.
  induction q as [|w q IH]; intros s x d; [reflexivity|].
  change (combine (s :: w :: q) ((w :: q) ++ [x]))
    with ((s, w) :: combine (w :: q) (q ++ [x])).
  rewrite (IH w x d). reflexivity.
Qed.

(** The edges of a cycle are those of its path and the closing edge. *)
Lemma cycle_edges_cons (s : string) (q : list string) :
  cycle_edges (s :: q) = neighbours (s :: q) ++ [(last (s :: q) s, s)].
Proof. unfold cycle_edges, neighbours. simpl tl. apply combine_last. Qed.

Lemma combine_snoc {A B : Type} (l1 : list A) (l2 : list B) (x : A) (y : B) :
  List.length l1 = List.length l2 ->
  combine (l1 ++ [x]) (l2 ++ [y]) = combine l1 l2 ++ [(x, y)].
Proof.
  revert l2. induction l1 as [|a l1 IH]; intros [|b l2] H; simpl in *;
    try discriminate; auto.
  rewrite IH by lia. reflexivity.
Qed.

Lemma cycle_edges_shift (x : string) (l : list string) :
  Permutation (cycle_edges (x :: l)) (cycle_edges (l ++ [x])).
Proof.
  destruct l as [|y l]; [reflexivity|].
  unfold cycle_edges. simpl tl. simpl firstn.
  change (combine (x :: y :: l) ((y :: l) ++ [x]))
    with ((x, y) :: combine (y :: l) (l ++ [x])).
  rewrite combine_snoc by (rewrite length_app; simpl; lia).
  apply Permutation_cons_append.
Qed.

Lemma cycle_edges_rotation (l1 l2 : list string) :
  Permutation (cycle_edges (l1 ++ l2)) (cycle_edges (l2 ++ l1)).
Proof.
  revert l2. induction l1 as [|x l1 IH]; intros l2.
  - now rewrite app_nil_r.
  - simpl. rewrite cycle_edges_shift. rewrite <- app_assoc.
    rewrite IH. rewrite <- app_assoc. reflexivity.
Qed.

(** A cycle written from another node is a cycle. *)
Lemma rotation_simple_cycle (G : nx.DiGraph) (c c' : list string) :
  is_simple_cycle G c -> rotation c c' -> is_simple_cycle G c'.
Proof.
  intros (Hne & Hnd & Hedges) (l1 & l2 & -> & ->). split; [|split].
  - intros E. apply Hne. apply app_eq_nil in E. destruct E as (-> & ->).
    reflexivity.
  - eapply Permutation_NoDup; [apply Permutation_app_comm | exact Hnd].
  - eapply Permutation_Forall; [apply cycle_edges_rotation | exact Hedges].
Qed.

Lemma cycles_from_sound (G : nx.DiGraph) (s : string) (later p : list string) :
  NoDup later -> ~ In s later ->
  In p (cycles_from G s later) ->
  is_simple_cycle G p /\ exists q, p = s :: q /\ incl q later.
Proof.
  intros Hnd Hs Hin. unfold cycles_from in Hin. apply filter_In in Hin.
  destruct Hin as (Hin & Hclose).
  apply simple_paths_sound in Hin; auto.
  destruct Hin as (q & -> & Hndp & Hincl & Hedges).
  split; [|eauto]. split; [discriminate|]. split; [exact Hndp|].
  rewrite cycle_edges_cons. apply Forall_app. split; [exact Hedges|].
  constructor; [exact Hclose | constructor].
Qed.

Lemma cycles_from_complete (G : nx.DiGraph) (s : string) (later q : list string) :
  NoDup later -> incl q later ->
  is_simple_cycle G (s :: q) ->
  In (s :: q) (cycles_from G s later).
Proof.
  intros Hnd Hincl (_ & Hndp & Hedges). rewrite cycle_edges_cons in Hedges.
  apply Forall_app in Hedges. destruct Hedges as (Hpath & Hclose).
  unfold cycles_from. apply filter_In. split.
  - apply simple_paths_complete; auto.
    assert (List.length q <= List.length later); [|lia].
    apply NoDup_incl_length; [now inversion Hndp | exact Hincl].
  - now inversion Hclose.
Qed.

End CycleEdges.

Module Canonical.
Import Enumeration CycleEdges.

(** A cycle can be written from its node that comes first in a given
    order of the nodes. *)
Lemma canonical_rotation (order : list string) :
  forall c, NoDup c -> c <> [] -> incl c order ->
  exists before s later q,
    order = before ++ s :: later /\ rotation (s :: q) c /\ incl q later.
Proof.
  induction order as [|a order IH]; intros c Hnd Hne Hincl.
  - destruct c as [|x c]; [contradiction|]. destruct (Hincl x). now left.
  - destruct (in_dec string_dec a c) as [Hin|Hnotin].
    + apply in_split in Hin. destruct Hin as (l1 & l2 & ->).
      exists [], a, order, (l2 ++ l1). split; [reflexivity|]. split.
      * exists (a :: l2), l1. split; reflexivity.
      * intros x Hx.
        assert (Hx' : In x (l1 ++ l2))
          by (apply in_app_or in Hx; apply in_or_app; tauto).
        destruct (Hincl x) as [<-|H]; auto.
        -- apply in_app_or in Hx. apply in_or_app.
           destruct Hx as [Hx|Hx]; [right; now right | now left].
        -- apply NoDup_remove_2 in Hnd. contradiction.
    + destruct (IH c Hnd Hne) as (before & s & later & q & -> & Hrot & Hq).
      { intros x Hx. destruct (Hincl x Hx) as [<-|H]; [contradiction | exact H]. }
      exists (a :: before), s, later, q. repeat split; auto.
Qed.

Lemma combine_In_left {A B : Type} (l1 : list A) (l2 : list B) (x : A) :
  In x l1 -> List.length l1 <= List.length l2 ->
  exists y, In (x, y) (combine l1 l2).
Proof.
  revert l2. induction l1 as [|a l1 IH]; intros [|b l2] Hin Hlen;
    simpl in *; try contradiction; try lia.
  destruct Hin as [<-|Hin].
  - exists b. now left.
  - destruct (IH l2 Hin) as (y & Hy); [lia|]. exists y. now right.
Qed.

Lemma has_edge_source (G : nx.DiGraph) (u v : string) :
  well_formed G -> nx.has_edge G u v = true -> nx.has_node G u = true.
Proof.
  intros W H. rewrite <- (WellFormed.succ_mem_node G u W).
  unfold nx.has_edge, nx.get_edge_data, nx.inner, Dict.item, Dict.mem in *.
  destruct (Dict.get (nx._succ G) u); [reflexivity | discriminate H].
Qed.

(** The nodes of a cycle are nodes of the graph. *)
Lemma simple_cycle_nodes (G : nx.DiGraph) (c : list string) :
  well_formed G -> is_simple_cycle G c -> incl c (nx.nodes G).
Proof.
  intros W (Hne & _ & Hedges) x Hx.
  destruct (combine_In_left c (tl c ++ firstn 1 c) x Hx) as (y & Hy).
  { destruct c as [|a c]; [contradiction|]. simpl.
    rewrite length_app. simpl. lia. }
  rewrite Forall_forall in Hedges. apply Hedges in Hy.
  apply GraphFacts.has_node_In. now apply (has_edge_source G x y).
Qed.

Lemma cycles_of_later (G : nx.DiGraph) (before : list string) s later p :
  In p (cycles_from G s later) ->
  In p (cycles_of G (before ++ s :: later)).
Proof.
  intros H. induction before as [|a before IH]; simpl.
  - apply in_or_app. now left.
  - apply in_or_app. now right.
Qed.

(** Every simple cycle is enumerated, from one of its nodes. *)
Lemma cycles_of_complete (G : nx.DiGraph) (c : list string) :
  well_formed G -> is_simple_cycle G c ->
  exists p, In p (cycles_of G (nx.nodes G)) /\ rotation p c.
Proof.
  intros W Hc. pose proof Hc as (Hne & Hnd & _).
  destruct (canonical_rotation (nx.nodes G) c Hnd Hne)
    as (before & s & later & q & Horder & Hrot & Hq).
  { now apply simple_cycle_nodes. }
  exists (s :: q). split; [|exact Hrot].
  rewrite Horder. apply cycles_of_later. apply cycles_from_complete; auto.
  - assert (Hn : NoDup (nx.nodes G)) by apply W.
    rewrite Horder in Hn. apply NoDup_remove_1 in Hn.
    apply NoDup_app_remove_l in Hn. exact Hn.
  - apply (rotation_simple_cycle G c); [exact Hc|].
    now apply Cycles.rotation_sym.
Qed.

Lemma cycles_of_sound (G : nx.DiGraph) (order : list string) :
  NoDup order ->
  forall p, In p (cycles_of G order) ->
            is_simple_cycle G p /\ incl p order.
Proof.
  induction order as [|s later IH]; intros Hnd p Hin; simpl in Hin.
  - contradiction.
  - inversion Hnd as [|? ? Hs Hnd']; subst.
    apply in_app_or in Hin. destruct Hin as [Hin|Hin].
    + apply cycles_from_sound in Hin; auto.
      destruct Hin as (Hc & q & -> & Hq). split; auto.
      intros x [<-|Hx]; [now left | right; now apply Hq].
    + destruct (IH Hnd' p Hin) as (Hc & Hincl). split; auto.
      intros x Hx. right. now apply Hincl.
Qed.

Lemma cycles_from_head (G : nx.DiGraph) s later p :
  In p (cycles_from G s later) -> exists q, p = s :: q.
Proof.
  unfold cycles_from. intros H. apply filter_In in H. destruct H as (H & _).
  simpl in H. destruct H as [<-|H]; [now exists []|].
  apply in_flat_map in H. destruct H as (w & _ & H).
  destruct (nx.has_edge G s w); [|contradiction].
  apply in_map_iff in H. destruct H as (q & <- & _). now exists q.
Qed.

Lemma cycles_of_NoDup (G : nx.DiGraph) (order : list string) :
  NoDup order -> NoDup (cycles_of G order).
Proof.
  induction order as [|s later IH]; intros Hnd; simpl; [constructor|].
  inversion Hnd as [|? ? Hs Hnd']; subst. apply NoDup_app.
  - apply NoDup_filter, simple_paths_NoDup, Hnd'.
  - now apply IH.
  - intros p H1 H2. apply cycles_from_head in H1. destruct H1 as (q & ->).
    apply cycles_of_sound in H2; auto. apply Hs, (proj2 H2). now left.
Qed.

Lemma rotation_same_head (s : string) (q1 q2 : list string) :
  NoDup (s :: q1) -> rotation (s :: q1) (s :: q2) -> q1 = q2.
Proof.
  intros Hnd (l1 & l2 & E1 & E2).
  destruct l1 as [|a l1]; simpl in E1.
  - subst l2. rewrite app_nil_r in E2. now injection E2.
  - injection E1 as <- ->. destruct l2 as [|b l2]; simpl in E2.
    + injection E2 as ->. now rewrite app_nil_r.
    + injection E2 as <- _. exfalso. inversion Hnd as [|? ? Hnotin _]; subst.
      apply Hnotin. apply in_or_app. right. now left.
Qed.

(** Two enumerated cycles that are rotations of each other are the same. *)
Lemma cycles_of_rotation (G : nx.DiGraph) (order : list string) :
  NoDup order ->
  forall c1 c2, In c1 (cycles_of G order) -> In c2 (cycles_of G order) ->
                rotation c1 c2 -> c1 = c2.
Proof.
  induction order as [|s later IH]; intros Hnd c1 c2 H1 H2 Hrot;
    simpl in H1, H2; [contradiction|].
  inversion Hnd as [|? ? Hs Hnd']; subst.
  apply in_app_or in H1, H2. destruct H1 as [H1|H1], H2 as [H2|H2].
  - pose proof (cycles_from_sound G s later c1 Hnd' Hs H1) as ((_ & N1 & _) & _).
    apply cycles_from_head in H1, H2.
    destruct H1 as (q1 & ->), H2 as (q2 & ->). f_equal.
    now apply (rotation_same_head s).
  - exfalso. apply cycles_from_head in H1. destruct H1 as (q1 & ->).
    apply cycles_of_sound in H2; auto. apply Hs, (proj2 H2).
    apply (Permutation_in s (Cycles.rotation_Permutation _ _ Hrot)). now left.
  - exfalso. apply cycles_from_head in H2. destruct H2 as (q2 & ->).
    apply cycles_of_sound in H1; auto. apply Hs, (proj2 H1).
    apply (Permutation_in s
             (Permutation_sym (Cycles.rotation_Permutation _ _ Hrot))).
    now left.
  - now apply IH.
Qed.

Lemma ForallOrdPairs_distinct {A : Type} (R : A -> A -> Prop) (l : list A) :
  NoDup l ->
  (forall x y, In x l -> In y l -> R x y -> x = y) ->
  ForallOrdPairs (fun x y => ~ R x y) l.
Proof.
  induction l as [|a l IH]; intros Hnd H; constructor.
  - inversion Hnd as [|? ? Hnotin _]; subst. apply Forall_forall.
    intros y Hy Hr. apply Hnotin.
    rewrite (H a y) ; auto; [now left | now right].
  - inversion Hnd; subst. apply IH; auto.
    intros x y Hx Hy. apply H; now right.
Qed.

Lemma ForallOrdPairs_map {A B : Type} (f : A -> B) (R : B -> B -> Prop)
    (l : list A) :
  ForallOrdPairs (fun x y => R (f x) (f y)) l -> ForallOrdPairs R (map f l).
Proof.
  induction 1 as [|a l Ha _ IH]; simpl; constructor; auto.
  now apply Forall_map.
Qed.

Lemma cycle_nodes_as_cycle (p : list string) :
  p <> [] -> cycle_nodes (as_cycle p) = p.
Proof. destruct p; [contradiction | reflexivity]. Qed.

(** The reference enumeration has the properties that the detector's
    statement expects of the library call, on every well-formed graph. *)
Lemma reference_cycles_contract (G : nx.DiGraph) :
  well_formed G ->
  exists cycles,
    reference_cycles G = Some cycles /\ lists_simple_cycles G cycles.
Proof.
  intros W. eexists. split; [reflexivity|].
  assert (Hnd : NoDup (nx.nodes G)) by apply W.
  assert (Hsound : forall p, In p (cycles_of G (nx.nodes G)) ->
                             is_simple_cycle G p /\ p <> []).
  { intros p Hp. apply cycles_of_sound in Hp; auto.
    split; [apply Hp | apply Hp]. }
  split; [|split].
  - apply Forall_map, Forall_forall. intros p Hp.
    destruct (Hsound p Hp) as (Hc & Hne).
    now rewrite cycle_nodes_as_cycle.
  - intros c Hc. destruct (cycles_of_complete G c W Hc) as (p & Hp & Hrot).
    exists (as_cycle p). split; [now apply in_map|].
    rewrite cycle_nodes_as_cycle; [exact Hrot | now apply Hsound].
  - apply ForallOrdPairs_map. apply ForallOrdPairs_distinct.
    + now apply cycles_of_NoDup.
    + intros p1 p2 H1 H2 Hrot.
      rewrite !cycle_nodes_as_cycle in Hrot by now apply Hsound.
      now apply (cycles_of_rotation G (nx.nodes G)).
Qed.

End Canonical.

(** The statement of the circular-reference detector on the circle of
    three topics, with the reference enumeration as the library call. *)
Lemma detect_circular_references_one_per_cycle_witness :
  reference_cycles circle = Some [("A", ["B"; "C"])] /\
  lists_simple_cycles circle [("A", ["B"; "C"])] /\
  ValidatorAgent._detect_circular_references reference_cycles circle =
    [ValidatorAgent.cycle_anomaly ("A", ["B"; "C"])] /\
  Anomaly.location (ValidatorAgent.cycle_anomaly ("A", ["B"; "C"])) =
    "A → B → C → A".
Proof.
  assert (E : reference_cycles circle = Some [("A", ["B"; "C"])])
    by (vm_compute; reflexivity).
  split; [exact E|]. split; [apply Circle.circle_lists_simple_cycles|].
  split; [|reflexivity].
  exact (proj1 (detect_circular_references_one_per_cycle
                  reference_cycles circle [("A", ["B"; "C"])] E
                  Circle.circle_lists_simple_cycles)).
Defined.

(** ** More on the graph store *)

Module StoreFacts.
Import nx GraphFacts WellFormed.

Lemma add_node_twice (G : DiGraph) n attr attr' :
  add_node (add_node G n attr) n attr' = add_node G n attr'.
Proof.
  unfold add_node. destruct (Dict.mem (_succ G) n) eqn:E; simpl.
  - rewrite E. now rewrite DictFacts.set_set.
  - rewrite DictFacts.mem_set_same. now rewrite DictFacts.set_set.
Qed.

Lemma add_node_nodes (G : DiGraph) n attr :
  well_formed G ->
  nodes (add_node G n attr) = if has_node G n then nodes G else nodes G ++ [n].
Proof.
  intros W. pose proof (succ_mem_node G n W) as Hs.
  unfold add_node, nodes, has_node in *.
  destruct (Dict.mem (_succ G) n) eqn:E; simpl;
    rewrite DictFacts.keys_set; now rewrite <- Hs.
Qed.

Lemma add_node_edges (G : DiGraph) n attr :
  edges (add_node G n attr) = edges G.
Proof.
  unfold add_node, edges. destruct (Dict.mem (_succ G) n) eqn:E; simpl; auto.
  rewrite DictFacts.set_absent by assumption.
  rewrite flat_map_app. simpl. now rewrite app_nil_r.
Qed.

Lemma add_node_attr (G : DiGraph) n attr :
  Dict.get (_node (add_node G n attr)) n = Some (Some attr).
Proof.
  unfold add_node. destruct (Dict.mem (_succ G) n); simpl;
    apply DictFacts.get_set_same.
Qed.

Lemma add_node_attr_other (G : DiGraph) n attr m :
  n <> m -> Dict.get (_node (add_node G n attr)) m = Dict.get (_node G) m.
Proof.
  intros H. unfold add_node. destruct (Dict.mem (_succ G) n); simpl;
    now apply DictFacts.get_set_other.
Qed.

End StoreFacts.

(** X1: adding a topic whose id is a node already changes neither the
    node list nor the edges, it only replaces the attributes of that node;
    a new id is appended to the node list.  Adding the same topic twice is
    adding it once. *)
Theorem add_topic_is_idempotent (g : nx.DiGraph) (t : Topic.t) :
  well_formed g ->
  nx.nodes (GraphBuilder.add_topic g t) =
    (if nx.has_node g (Topic.id t) then nx.nodes g
     else nx.nodes g ++ [Topic.id t]) /\
  Dict.get (nx._node (GraphBuilder.add_topic g t)) (Topic.id t) =
    Some (Some (node_attributes t)) /\
  (forall n, n <> Topic.id t ->
             Dict.get (nx._node (GraphBuilder.add_topic g t)) n =
             Dict.get (nx._node g) n) /\
  nx.edges (GraphBuilder.add_topic g t) = nx.edges g /\
  GraphBuilder.add_topic (GraphBuilder.add_topic g t) t =
    GraphBuilder.add_topic g t /\
  well_formed (GraphBuilder.add_topic g t).
Proof.
  intros W. unfold GraphBuilder.add_topic. fold (node_attributes t).
  split; [now apply StoreFacts.add_node_nodes|].
  split; [apply StoreFacts.add_node_attr|].
  split; [intros n Hn; apply StoreFacts.add_node_attr_other; congruence|].
  split; [apply StoreFacts.add_node_edges|].
  split; [apply StoreFacts.add_node_twice|].
  now apply WellFormed.well_formed_add_node.
Qed.

(** The statement above for a topic that is added a second time with
    another title. *)
Lemma add_topic_is_idempotent_witness :
  let first := Topic.mk "1" "Old" "Content" None [] [] [] [] None (95 # 100) in
  let second := Topic.mk "1" "New" "Content" None [] [] [] [] None (95 # 100) in
  let g := GraphBuilder.add_topic GraphBuilder.init first in
  well_formed g /\
  nx.nodes (GraphBuilder.add_topic g second) = ["1"] /\
  Dict.get (nx._node (GraphBuilder.add_topic g second)) "1" =
    Some (Some (node_attributes second)).
Proof.
  cbv zeta.
  assert (W : well_formed
                (GraphBuilder.add_topic GraphBuilder.init
                   (Topic.mk "1" "Old" "Content" None [] [] [] [] None
                      (95 # 100))))
    by apply WellFormed.well_formed_add_node, WellFormed.well_formed_empty.
  split; [exact W|].
  destruct (add_topic_is_idempotent _
              (Topic.mk "1" "New" "Content" None [] [] [] [] None (95 # 100)) W)
    as (Hn & Ha & _).
  split; [rewrite Hn; reflexivity | exact Ha].
Defined.

Module ConstructedFacts.

Lemma constructed_add_references source type refs g :
  constructed g ->
  constructed (GraphBuilder.add_references source type refs g).
Proof.
  unfold GraphBuilder.add_references. revert g.
  induction refs as [|r refs IH]; intros g C; simpl; auto.
  apply IH. now constructor.
Qed.

Lemma constructed_step g t :
  constructed g -> constructed (GraphBuilder.add_topic_relationships g t).
Proof.
  intros C. unfold GraphBuilder.add_topic_relationships.
  repeat apply constructed_add_references.
  destruct (Topic.parent t) as [p|]; auto.
  destruct (Py.truthy (Some p)); auto. now constructor.
Qed.

(** [build_from_topics] is a sequence of [add_topic] and
    [add_relationship] calls. *)
Lemma constructed_build g topics :
  constructed g -> constructed (GraphBuilder.build_from_topics g topics).
Proof.
  intros C. unfold GraphBuilder.build_from_topics.
  assert (C0 : constructed (fold_left GraphBuilder.add_topic topics g)).
  { revert g C. induction topics as [|t topics IH]; intros g C; simpl; auto.
    apply IH. now constructor. }
  revert C0. generalize (fold_left GraphBuilder.add_topic topics g).
  generalize topics at 1. intros steps.
  induction steps as [|s steps IH]; intros g0 C0; simpl; auto.
  apply IH. now apply constructed_step.
Qed.

End ConstructedFacts.

(** X2: on every graph that the methods of [GraphBuilder] have built,
    [find_broken_references] returns the empty list: the target of every
    edge is a node, because adding the edge made it one. *)
Theorem find_broken_references_reports_nothing (g : nx.DiGraph) :
  constructed g -> GraphBuilder.find_broken_references g = [].
Proof.
  intros C. apply Dangling.find_broken_references_nil.
  now apply WellFormed.constructed_well_formed.
Qed.

(** The statement above on the graph of a topic that refers to an id no
    topic has, where the validator does report the reference. *)
Lemma find_broken_references_reports_nothing_witness :
  let topics := [topic "1" None ["99.9"] [] []] in
  let g := GraphBuilder.build_from_topics GraphBuilder.init topics in
  constructed g /\
  GraphBuilder.find_broken_references g = [] /\
  ValidatorAgent._validate_cross_references topics =
    [ValidatorAgent.broken_anomaly "1" "99.9"].
Proof.
  cbv zeta.
  assert (C : constructed
                (GraphBuilder.build_from_topics GraphBuilder.init
                   [topic "1" None ["99.9"] [] []]))
    by apply ConstructedFacts.constructed_build, constructed_init.
  split; [exact C|]. split; [|reflexivity].
  exact (find_broken_references_reports_nothing _ C).
Defined.

Module OrphanUpdate.
Import nx GraphFacts WellFormed.

Lemma add_relationship_out_degree (g : DiGraph) (r : Relationship.t) n :
  n <> Relationship.source r ->
  out_degree (GraphBuilder.add_relationship g r) n = out_degree g n.
Proof.
  intros H. unfold out_degree, GraphBuilder.add_relationship.
  rewrite add_edge_succ.
  destruct (String.eqb_spec n (Relationship.source r)); [contradiction|].
  reflexivity.
Qed.

Lemma add_relationship_in_degree (g : DiGraph) (r : Relationship.t) n :
  well_formed g -> n <> Relationship.target r ->
  in_degree (GraphBuilder.add_relationship g r) n = in_degree g n.
Proof.
  intros W H. unfold in_degree, GraphBuilder.add_relationship.
  rewrite Orphans.add_edge_pred by assumption.
  destruct (String.eqb_spec n (Relationship.target r)); [contradiction|].
  reflexivity.
Qed.

Lemma length_set_positive {V : Type} (d : Dict.t V) k v :
  List.length (Dict.set d k v) <> 0.
Proof.
  rewrite DictFacts.length_set. destruct (Dict.mem d k) eqn:E; [|lia].
  unfold Dict.mem in E. destruct d; [discriminate | simpl; lia].
Qed.

Lemma add_relationship_source_degree (g : DiGraph) (r : Relationship.t) :
  out_degree (GraphBuilder.add_relationship g r) (Relationship.source r) <> 0.
Proof.
  unfold out_degree, GraphBuilder.add_relationship.
  rewrite add_edge_succ, String.eqb_refl. apply length_set_positive.
Qed.

Lemma add_relationship_target_degree (g : DiGraph) (r : Relationship.t) :
  well_formed g ->
  in_degree (GraphBuilder.add_relationship g r) (Relationship.target r) <> 0.
Proof.
  intros W. unfold in_degree, GraphBuilder.add_relationship.
  rewrite Orphans.add_edge_pred by assumption.
  rewrite String.eqb_refl. apply length_set_positive.
Qed.

Lemma is_orphan_after (g : DiGraph) (r : Relationship.t) n :
  well_formed g ->
  is_orphan (GraphBuilder.add_relationship g r) n =
  is_orphan g n && negb (is_end_point r n).
Proof.
  intros W. unfold is_orphan, is_end_point.
  destruct (String.eqb_spec n (Relationship.source r)) as [->|Hs]; simpl.
  - pose proof (add_relationship_source_degree g r) as H.
    apply Nat.eqb_neq in H. rewrite H. now rewrite !andb_false_r.
  - rewrite add_relationship_out_degree by assumption.
    destruct (String.eqb_spec n (Relationship.target r)) as [->|Ht]; simpl.
    + pose proof (add_relationship_target_degree g r W) as H.
      apply Nat.eqb_neq in H. rewrite H. now rewrite andb_false_r.
    + rewrite add_relationship_in_degree by assumption.
      now rewrite andb_true_r.
Qed.

(** The nodes after [add_relationship]: the nodes before it and, behind
    them, the end points that were unknown. *)
Lemma add_relationship_nodes (g : DiGraph) (r : Relationship.t) :
  well_formed g ->
  exists fresh,
    nodes (GraphBuilder.add_relationship g r) = nodes g ++ fresh /\
    forall n, In n fresh -> is_end_point r n = true.
Proof.
  intros W. unfold GraphBuilder.add_relationship. rewrite add_edge_nodes.
  pose proof (well_formed_ensure_node g (Relationship.source r) W) as W1.
  rewrite (ensure_node_nodes (ensure_node g (Relationship.source r)))
    by apply W1.
  rewrite (ensure_node_nodes g) by apply W.
  unfold is_end_point.
  destruct (has_node g (Relationship.source r));
    destruct (has_node _ (Relationship.target r)).
  - exists []. split; [now rewrite app_nil_r | intros n []].
  - exists [Relationship.target r]. split; [reflexivity|].
    intros n [<-|[]]. now rewrite String.eqb_refl, orb_true_r.
  - exists [Relationship.source r]. split; [reflexivity|].
    intros n [<-|[]]. now rewrite String.eqb_refl.
  - exists [Relationship.source r; Relationship.target r].
    split; [now rewrite <- app_assoc|].
    intros n [<-|[<-|[]]]; rewrite String.eqb_refl; auto using orb_true_r.
Qed.

End OrphanUpdate.

(** X3: adding a relationship never makes a node an orphan: afterwards
    the orphans are the former orphans without the two end points of the
    relationship, in the same order; neither end point is an orphan, not
    even when it was unknown before or when the relationship is a loop. *)
Theorem add_relationship_removes_end_points_from_orphans
    (g : nx.DiGraph) (r : Relationship.t) :
  well_formed g ->
  GraphBuilder.get_orphan_nodes (GraphBuilder.add_relationship g r) =
    filter (fun n => negb (is_end_point r n)) (GraphBuilder.get_orphan_nodes g) /\
  ~ In (Relationship.source r)
       (GraphBuilder.get_orphan_nodes (GraphBuilder.add_relationship g r)) /\
  ~ In (Relationship.target r)
       (GraphBuilder.get_orphan_nodes (GraphBuilder.add_relationship g r)).
Proof.
  intros W.
  assert (E : GraphBuilder.get_orphan_nodes (GraphBuilder.add_relationship g r) =
              filter (fun n => negb (is_end_point r n))
                (GraphBuilder.get_orphan_nodes g)).
  { unfold GraphBuilder.get_orphan_nodes.
    fold (is_orphan (GraphBuilder.add_relationship g r)). fold (is_orphan g).
    destruct (OrphanUpdate.add_relationship_nodes g r W) as (fresh & -> & Hf).
    rewrite filter_app.
    replace (filter (is_orphan (GraphBuilder.add_relationship g r)) fresh)
      with (@nil string).
    - rewrite app_nil_r.
      rewrite (filter_ext _ _ (fun n => OrphanUpdate.is_orphan_after g r n W)).
      generalize (nx.nodes g). intros l.
      induction l as [|n l IH]; simpl; auto.
      destruct (is_orphan g n); simpl; [|exact IH].
      destruct (negb (is_end_point r n)); simpl; now rewrite IH.
    - symmetry. induction fresh as [|n fresh IH]; simpl; auto.
      rewrite OrphanUpdate.is_orphan_after by assumption.
      rewrite (Hf n) by now left. rewrite andb_false_r.
      apply IH. intros m Hm. apply Hf. now right. }
  split; [exact E|]. rewrite E. split; intros H; apply filter_In in H;
    destruct H as (_ & H); unfold is_end_point in H;
    rewrite String.eqb_refl in H; simpl in H;
    rewrite ?orb_true_r in H; discriminate.
Qed.

(** The statement above on two unconnected topics that get connected. *)
Lemma add_relationship_removes_end_points_from_orphans_witness :
  let g := GraphBuilder.build_from_topics GraphBuilder.init
             [topic "1" None [] [] []; topic "2" None [] [] [];
              topic "3" None [] [] []] in
  let r := GraphBuilder.valid_relationship "1" "3" cross_reference in
  well_formed g /\
  GraphBuilder.get_orphan_nodes g = ["1"; "2"; "3"] /\
  GraphBuilder.get_orphan_nodes (GraphBuilder.add_relationship g r) = ["2"].
Proof.
  cbv zeta.
  assert (W : well_formed
                (GraphBuilder.build_from_topics GraphBuilder.init
                   [topic "1" None [] [] []; topic "2" None [] [] [];
                    topic "3" None [] [] []]))
    by apply OrphanReport.well_formed_build, WellFormed.well_formed_empty.
  split; [exact W|]. split; [reflexivity|].
  rewrite (proj1 (add_relationship_removes_end_points_from_orphans _
                    (GraphBuilder.valid_relationship "1" "3" cross_reference)
                    W)).
  reflexivity.
Defined.

Module HierarchyView.
Import nx GraphFacts WellFormed.

Lemma get_of_map {V : Type} (f : string -> V) (l : list string) (k : string) :
  Dict.get (map (fun n => (n, f n)) l) k =
  if occurs k l then Some (f k) else None.
Proof.
  unfold occurs. induction l as [|a l IH]; simpl; auto.
  rewrite (String.eqb_sym k a).
  destruct (String.eqb_spec a k) as [->|Hne]; simpl; auto.
Qed.

Lemma hierarchy_fold (f : string -> list string) (l : list string) :
  NoDup l ->
  fold_left
    (fun hierarchy node =>
       match f node with
       | [] => hierarchy
       | _ => Dict.set hierarchy node (f node)
       end) l Dict.empty =
  map (fun n => (n, f n)) (filter (fun n => nonempty (f n)) l).
Proof.
  induction l as [|x l IH] using rev_ind; intros Hnd; [reflexivity|].
  apply NoDup_remove in Hnd. rewrite app_nil_r in Hnd.
  destruct Hnd as (Hnd & Hx).
  rewrite fold_left_snoc, filter_app, map_app, IH by assumption. simpl.
  destruct (f x) eqn:E; simpl; [now rewrite app_nil_r|].
  rewrite DictFacts.set_absent; [now rewrite E|].
  apply DictFacts.mem_false_keys. unfold Dict.keys. rewrite map_map. simpl.
  rewrite map_id. intros H. apply filter_In in H. now apply Hx.
Qed.

Lemma hierarchical_children_In (g : DiGraph) n c :
  well_formed g ->
  In c (hierarchical_children g n) <->
  option_map e_type (get_edge_data g n c) = Some hierarchical.
Proof.
  intros (_ & _ & _ & Ni & _). unfold hierarchical_children, get_edge_data.
  rewrite in_map_iff. split.
  - intros ([c' data] & <- & H). apply filter_In in H. destruct H as (Hin & Hh).
    simpl. rewrite (DictFacts.In_get _ c' data (Ni n) Hin). simpl.
    destruct (e_type data); simpl in Hh; congruence.
  - destruct (Dict.get (inner (_succ g) n) c) as [data|] eqn:E;
      [|discriminate].
    simpl. intros [= H]. exists (c, data). split; [reflexivity|].
    apply filter_In. split; [now apply DictFacts.get_In|]. now rewrite H.
Qed.

Lemma children_of_unknown (g : DiGraph) n :
  well_formed g -> has_node g n = false -> hierarchical_children g n = [].
Proof.
  intros W H. unfold hierarchical_children.
  rewrite inner_absent; [reflexivity|]. now rewrite succ_mem_node.
Qed.

Lemma occurs_filter (p : string -> bool) (l : list string) (n : string) :
  occurs n (filter p l) = occurs n l && p n.
Proof. apply OrphanReport.existsb_filter. Qed.

End HierarchyView.

(** X4: the hierarchy view maps a node to the targets of its
    [hierarchical] edges, in the order in which these edges were first
    added, and has no entry for a node without such an edge (or for an
    unknown id): it never maps to an empty list.  Its keys are in node
    order, and [c] is listed under [p] exactly when the edge from [p] to
    [c] has type [hierarchical]. *)
Theorem get_topic_hierarchy_lists_hierarchical_edges (g : nx.DiGraph) :
  well_formed g ->
  GraphBuilder.get_topic_hierarchy g =
    map (fun n => (n, hierarchical_children g n))
      (filter (fun n => nonempty (hierarchical_children g n)) (nx.nodes g)) /\
  (forall n,
      Dict.get (GraphBuilder.get_topic_hierarchy g) n =
      match hierarchical_children g n with
      | [] => None
      | children => Some children
      end) /\
  (forall p c,
      In c (hierarchical_children g p) <->
      option_map nx.e_type (nx.get_edge_data g p c) = Some hierarchical) /\
  (forall n children,
      In (n, children) (GraphBuilder.get_topic_hierarchy g) -> children <> []).
Proof.
  intros W.
  assert (E : GraphBuilder.get_topic_hierarchy g =
              map (fun n => (n, hierarchical_children g n))
                (filter (fun n => nonempty (hierarchical_children g n))
                   (nx.nodes g))).
  { unfold GraphBuilder.get_topic_hierarchy.
    apply (HierarchyView.hierarchy_fold (hierarchical_children g)), W. }
  split; [exact E|]. split; [|split].
  - intros n. rewrite E, HierarchyView.get_of_map, HierarchyView.occurs_filter.
    destruct (hierarchical_children g n) as [|c cs] eqn:Hc; simpl.
    + now rewrite andb_false_r.
    + rewrite andb_true_r. unfold occurs.
      rewrite <- OrphanReport.has_node_existsb.
      destruct (nx.has_node g n) eqn:Hn; [reflexivity|].
      rewrite (HierarchyView.children_of_unknown g n W Hn) in Hc.
      discriminate.
  - intros p c. now apply HierarchyView.hierarchical_children_In.
  - intros n children Hin. rewrite E in Hin. apply in_map_iff in Hin.
    destruct Hin as (m & [= <- <-] & Hm). apply filter_In in Hm.
    destruct Hm as (_ & Hm). intros H. rewrite H in Hm. discriminate.
Qed.

(** The statement above on a topic with two children and a reference. *)
Lemma get_topic_hierarchy_lists_hierarchical_edges_witness :
  let g := GraphBuilder.build_from_topics GraphBuilder.init
             [topic "1" None [] [] []; topic "1.1" (Some "1") ["1"] [] [];
              topic "1.2" (Some "1") [] [] []] in
  well_formed g /\
  GraphBuilder.get_topic_hierarchy g = [("1", ["1.1"; "1.2"])] /\
  Dict.get (GraphBuilder.get_topic_hierarchy g) "1.1" = None.
Proof.
  cbv zeta.
  assert (W : well_formed
                (GraphBuilder.build_from_topics GraphBuilder.init
                   [topic "1" None [] [] []; topic "1.1" (Some "1") ["1"] [] [];
                    topic "1.2" (Some "1") [] [] []]))
    by apply OrphanReport.well_formed_build, WellFormed.well_formed_empty.
  split; [exact W|].
  destruct (get_topic_hierarchy_lists_hierarchical_edges _ W) as (E & G & _).
  split; [rewrite E; reflexivity | rewrite G; reflexivity].
Defined.

Module BuiltNodes.
Import nx GraphFacts WellFormed.

Lemma first_occurrences_In (l : list string) (x : string) :
  In x (first_occurrences l) <-> In x l.
Proof.
  induction l as [|a l IH]; simpl; [tauto|].
  rewrite filter_In, IH. destruct (String.eqb_spec x a) as [->|Hne].
  - tauto.
  - simpl. split.
    + intros [H|(H & _)]; auto.
    + intros [H|H]; [left; exact H | right; auto].
Qed.

Lemma first_occurrences_NoDup (l : list string) : NoDup (first_occurrences l).
Proof.
  induction l as [|a l IH]; simpl; constructor.
  - intros H. apply filter_In in H. destruct H as (_ & H).
    now rewrite String.eqb_refl in H.
  - now apply NoDup_filter.
Qed.

Lemma well_formed_add_topics topics g :
  well_formed g -> well_formed (fold_left GraphBuilder.add_topic topics g).
Proof.
  revert g. induction topics as [|t topics IH]; intros g W; simpl; auto.
  apply IH. now apply well_formed_add_node.
Qed.

(** After the first loop of [build_from_topics] the nodes are the ids of
    the topics, each once, in the order of their first occurrence. *)
Lemma add_topics_nodes (topics : list Topic.t) :
  nodes (fold_left GraphBuilder.add_topic topics GraphBuilder.init) =
  first_occurrences (map Topic.id topics).
Proof.
  induction topics as [|t topics IH] using rev_ind; [reflexivity|].
  rewrite fold_left_snoc, map_app. cbn [map].
  rewrite Groups.first_occurrences_snoc.
  unfold GraphBuilder.add_topic at 1.
  rewrite StoreFacts.add_node_nodes
    by apply well_formed_add_topics, well_formed_empty.
  rewrite OrphanReport.has_node_existsb, IH. unfold occurs.
  replace (existsb (String.eqb (Topic.id t))
             (first_occurrences (map Topic.id topics)))
    with (existsb (String.eqb (Topic.id t)) (map Topic.id topics));
    [reflexivity|].
  destruct (existsb (String.eqb (Topic.id t)) (map Topic.id topics)) eqn:E;
    symmetry.
  - apply (proj2 (occurs_In _ _)), (proj2 (first_occurrences_In _ _)).
    now apply (proj1 (occurs_In _ _)).
  - destruct (existsb _ (first_occurrences _)) eqn:E'; [|reflexivity].
    apply (proj1 (occurs_In _ _)) in E'.
    apply (proj1 (first_occurrences_In _ _)) in E'.
    apply (proj2 (occurs_In _ _)) in E'. unfold occurs in E'. congruence.
Qed.

(** The attributes of a node that exists are not touched by an edge. *)
Lemma ensure_node_attr (G : DiGraph) n x :
  well_formed G -> has_node G x = true ->
  Dict.get (_node (ensure_node G n)) x = Dict.get (_node G) x.
Proof.
  intros W Hx. unfold ensure_node.
  destruct (Dict.mem (_succ G) n) eqn:E; simpl; auto.
  apply DictFacts.get_set_other. intros ->.
  rewrite (succ_mem_node G x W) in E. congruence.
Qed.

Lemma ensure_node_attr_fresh (G : DiGraph) n :
  well_formed G -> has_node G n = false ->
  Dict.get (_node (ensure_node G n)) n = Some None.
Proof.
  intros W Hn. unfold ensure_node. rewrite (succ_mem_node G n W), Hn. simpl.
  apply DictFacts.get_set_same.
Qed.

(** What [add_relationship] does to the node dictionary: entries stay,
    and an unknown end point is entered without attributes. *)
Lemma add_relationship_attr (g : DiGraph) (r : Relationship.t) x :
  well_formed g ->
  Dict.get (_node (GraphBuilder.add_relationship g r)) x =
  if has_node g x then Dict.get (_node g) x
  else if is_end_point r x then Some None else None.
Proof.
  intros W. unfold GraphBuilder.add_relationship, add_edge. simpl.
  pose proof (well_formed_ensure_node g (Relationship.source r) W) as W1.
  unfold is_end_point. destruct (has_node g x) eqn:Hx.
  - rewrite ensure_node_attr; auto.
    + now apply ensure_node_attr.
    + now apply Orphans.has_node_ensure_node.
  - destruct (String.eqb_spec x (Relationship.source r)) as [->|Hs]; simpl.
    + rewrite ensure_node_attr; auto.
      * now apply ensure_node_attr_fresh.
      * unfold has_node, Dict.mem.
        now rewrite (ensure_node_attr_fresh g _ W Hx).
    + assert (H1 : has_node (ensure_node g (Relationship.source r)) x = false).
      { destruct (has_node (ensure_node g (Relationship.source r)) x) eqn:E;
          auto.
        apply has_node_In in E. rewrite ensure_node_nodes in E by apply W.
        destruct (has_node g (Relationship.source r)).
        - apply has_node_In in E. congruence.
        - apply in_app_or in E. destruct E as [E|[E|[]]].
          + apply has_node_In in E. congruence.
          + congruence. }
      destruct (String.eqb_spec x (Relationship.target r)) as [->|Ht].
      * now apply ensure_node_attr_fresh.
      * unfold ensure_node at 1.
        destruct (Dict.mem (_succ (ensure_node g (Relationship.source r)))
                    (Relationship.target r)); simpl.
        -- unfold has_node, Dict.mem in H1.
           now destruct (Dict.get (_node (ensure_node g (Relationship.source r))) x).
        -- rewrite DictFacts.get_set_other by congruence.
           unfold has_node, Dict.mem in H1.
           now destruct (Dict.get (_node (ensure_node g (Relationship.source r))) x).
Qed.

End BuiltNodes.

Module BuiltGraph.
Import nx GraphFacts WellFormed BuiltNodes.

Lemma extends_refl topics g : well_formed g -> extends topics g g.
Proof.
  intros W. split; [exact W|]. split; [|reflexivity].
  exists []. split; [now rewrite app_nil_r | intros x []].
Qed.

Lemma extends_add_relationship topics g0 g (r : Relationship.t) :
  extends topics g0 g ->
  (forall x, is_end_point r x = true -> named_by topics x) ->
  extends topics g0 (GraphBuilder.add_relationship g r).
Proof.
  intros (W & (extra & Hn & Hextra) & Hold) Hr.
  pose proof (well_formed_add_edge g (Relationship.source r)
                (Relationship.target r) (edge_attributes r) W) as W'.
  change (add_edge g (Relationship.source r) (Relationship.target r)
            (edge_attributes r))
    with (GraphBuilder.add_relationship g r) in W'.
  destruct (OrphanUpdate.add_relationship_nodes g r W) as (fresh & Hn' & Hf).
  assert (Hfresh : forall x, In x fresh -> has_node g x = false).
  { intros x Hx. destruct (has_node g x) eqn:E; [|reflexivity].
    exfalso. apply has_node_In in E.
    assert (Hnd : NoDup (nodes g ++ fresh)) by (rewrite <- Hn'; apply W').
    revert E Hx. clear - Hnd. revert Hnd. generalize (nodes g). intros l.
    induction l as [|a l IH]; simpl; intros Hnd [].
    - subst. intros Hx. inversion Hnd as [|? ? Hnotin _]; subst.
      apply Hnotin, in_or_app. now right.
    - inversion Hnd; subst. now apply IH. }
  split; [exact W'|]. split.
  - exists (extra ++ fresh). split; [now rewrite Hn', Hn, app_assoc|].
    intros x Hx. rewrite add_relationship_attr by assumption.
    apply in_app_or in Hx. destruct Hx as [Hx|Hx].
    + assert (Hg : has_node g x = true).
      { apply has_node_In. rewrite Hn. apply in_or_app. now right. }
      rewrite Hg. now apply Hextra.
    + rewrite (Hfresh x Hx), (Hf x Hx). split; [now apply Hr, Hf | reflexivity].
  - intros x Hx. rewrite add_relationship_attr by assumption.
    assert (Hg : has_node g x = true).
    { apply has_node_In. rewrite Hn. apply in_or_app. left.
      now apply has_node_In. }
    rewrite Hg. now apply Hold.
Qed.

Lemma extends_add_references topics g0 source type refs :
  forall g,
    extends topics g0 g ->
    named_by topics source ->
    (forall r, In r refs -> named_by topics r) ->
    extends topics g0 (GraphBuilder.add_references source type refs g).
Proof.
  unfold GraphBuilder.add_references.
  induction refs as [|r refs IH]; intros g E Hs Hr; simpl; auto.
  apply IH; auto.
  - apply extends_add_relationship; auto.
    intros x Hx. unfold is_end_point in Hx. simpl in Hx.
    apply orb_true_iff in Hx. destruct Hx as [Hx|Hx];
      apply String.eqb_eq in Hx; subst; auto. apply Hr. now left.
  - intros r' Hr'. apply Hr. now right.
Qed.

Lemma extends_step topics g0 g t :
  In t topics -> extends topics g0 g ->
  extends topics g0 (GraphBuilder.add_topic_relationships g t).
Proof.
  intros Hin E. unfold GraphBuilder.add_topic_relationships.
  assert (Hid : named_by topics (Topic.id t)) by (exists t; auto).
  assert (Href : forall r, In r (all_references t) -> named_by topics r)
    by (intros r Hr; exists t; auto).
  unfold all_references in Href.
  repeat apply extends_add_references; auto.
  - destruct (Topic.parent t) as [p|] eqn:Hp; auto.
    destruct (Py.truthy (Some p)); auto.
    apply extends_add_relationship; auto.
    intros x Hx. unfold is_end_point in Hx. simpl in Hx.
    apply orb_true_iff in Hx. destruct Hx as [Hx|Hx];
      apply String.eqb_eq in Hx; subst; auto.
    exists t. auto.
  - intros r Hr. apply Href. apply in_or_app. now left.
  - intros r Hr. apply Href. apply in_or_app. right. apply in_or_app. now left.
  - intros r Hr. apply Href. apply in_or_app. right. apply in_or_app. now right.
Qed.

Lemma extends_steps topics g0 steps :
  forall g,
    incl steps topics -> extends topics g0 g ->
    extends topics g0 (fold_left GraphBuilder.add_topic_relationships steps g).
Proof.
  induction steps as [|t steps IH]; intros g Hincl E; simpl; auto.
  apply IH.
  - intros x Hx. apply Hincl. now right.
  - apply extends_step; auto. apply Hincl. now left.
Qed.

(** The attributes of a node are those of the last topic with its id. *)
Lemma add_topics_attr (before after : list Topic.t) (t : Topic.t) g :
  (forall t', In t' after -> Topic.id t' <> Topic.id t) ->
  Dict.get (_node (fold_left GraphBuilder.add_topic (before ++ t :: after) g))
    (Topic.id t) = Some (Some (node_attributes t)).
Proof.
  intros Hafter. rewrite fold_left_app. simpl.
  generalize (fold_left GraphBuilder.add_topic before g). intros g1.
  assert (H : Dict.get (_node (GraphBuilder.add_topic g1 t)) (Topic.id t) =
              Some (Some (node_attributes t)))
    by apply StoreFacts.add_node_attr.
  revert H. generalize (GraphBuilder.add_topic g1 t). clear g1.
  induction after as [|t' after IH]; intros g1 H; simpl; auto.
  apply IH.
  - intros t'' Ht''. apply Hafter. now right.
  - unfold GraphBuilder.add_topic.
    rewrite StoreFacts.add_node_attr_other; auto. apply Hafter. now left.
Qed.

End BuiltGraph.

(** X5: in the graph that [build_from_topics] builds from the empty
    graph, every topic id is a node exactly once, however often the id
    occurs in the list: the node list starts with the ids in the order of
    their first occurrence and carries for each the attributes of the last
    topic with that id.  Behind them come the nodes that the edges created:
    ids of no topic, named as parent or as reference, without attributes. *)
Theorem build_from_topics_nodes (topics : list Topic.t) :
  let g := GraphBuilder.build_from_topics GraphBuilder.init topics in
  NoDup (nx.nodes g) /\
  (forall t, In t topics -> count_occ string_dec (nx.nodes g) (Topic.id t) = 1) /\
  (exists placeholders,
      nx.nodes g = first_occurrences (map Topic.id topics) ++ placeholders /\
      forall x, In x placeholders ->
        ValidatorAgent.in_topic_ids topics x = false /\
        Dict.get (nx._node g) x = Some None /\
        exists t, In t topics /\
                  (Topic.parent t = Some x \/ In x (all_references t))) /\
  (forall before t after,
      topics = before ++ t :: after ->
      (forall t', In t' after -> Topic.id t' <> Topic.id t) ->
      Dict.get (nx._node g) (Topic.id t) = Some (Some (node_attributes t))).
Proof.
  cbv zeta. unfold GraphBuilder.build_from_topics.
  set (g0 := fold_left GraphBuilder.add_topic topics GraphBuilder.init).
  assert (W0 : well_formed g0)
    by apply BuiltNodes.well_formed_add_topics, WellFormed.well_formed_empty.
  assert (N0 : nx.nodes g0 = first_occurrences (map Topic.id topics))
    by apply BuiltNodes.add_topics_nodes.
  destruct (BuiltGraph.extends_steps topics g0 topics g0 (incl_refl _)
              (BuiltGraph.extends_refl topics g0 W0))
    as (W & (extra & Hn & Hextra) & Hold).
  set (g := fold_left GraphBuilder.add_topic_relationships topics g0) in *.
  assert (Hnd : NoDup (nx.nodes g)) by apply W.
  assert (Hid : forall t, In t topics -> In (Topic.id t) (nx.nodes g0)).
  { intros t Ht. rewrite N0. apply BuiltNodes.first_occurrences_In.
    now apply in_map. }
  split; [exact Hnd|]. split; [|split].
  - intros t Ht. apply (proj1 (NoDup_count_occ' string_dec _) Hnd).
    rewrite Hn. apply in_or_app. left. now apply Hid.
  - exists extra. split; [now rewrite Hn, N0|].
    intros x Hx. destruct (Hextra x Hx) as ((t & Ht & Hnamed) & Hattr).
    assert (Hnot : ~ In x (nx.nodes g0)).
    { intros H. rewrite Hn in Hnd. clear - Hnd H Hx. revert Hnd H.
      generalize (nx.nodes g0). intros l.
      induction l as [|a l IH]; simpl; intros Hnd [].
      - subst. inversion Hnd as [|? ? Hnotin _]; subst.
        apply Hnotin, in_or_app. now right.
      - inversion Hnd; subst. now apply IH. }
    split; [|split; [exact Hattr|]].
    + destruct (ValidatorAgent.in_topic_ids topics x) eqn:E; [|reflexivity].
      apply Detectors.in_topic_ids_spec in E. destruct E as (t' & Ht' & <-).
      now apply Hid in Ht'.
    + destruct Hnamed as [->|Hnamed]; [now apply Hid in Ht|]. eauto.
  - intros before t after -> Hafter. rewrite Hold.
    + now apply BuiltGraph.add_topics_attr.
    + apply GraphFacts.has_node_In, Hid. apply in_or_app. right. now left.
Qed.

Module Handshake.
Import nx GraphFacts WellFormed.

Lemma adjacency_size_set {V : Type} (d : Dict.t (Dict.t V)) k m :
  adjacency_size (Dict.set d k m) + List.length (inner d k) =
  adjacency_size d + List.length m.
Proof.
  unfold adjacency_size, inner, Dict.item.
  induction d as [|[k' v'] d IH]; simpl.
  - lia.
  - destruct (String.eqb k' k); simpl; lia.
Qed.

Lemma adjacency_size_set_empty {V : Type} (d : Dict.t (Dict.t V)) k :
  Dict.mem d k = false ->
  adjacency_size (Dict.set d k Dict.empty) = adjacency_size d.
Proof.
  intros H. pose proof (adjacency_size_set d k Dict.empty) as E.
  rewrite (inner_absent d k H) in E. simpl in E. lia.
Qed.

Lemma length_edges (G : DiGraph) :
  List.length (edges G) = adjacency_size (_succ G).
Proof.
  unfold edges, adjacency_size.
  induction (_succ G) as [|[u nbrs] L IH]; simpl; [reflexivity|].
  now rewrite length_app, length_map, IH.
Qed.

Lemma inner_keys {V : Type} (d : Dict.t (Dict.t V)) :
  NoDup (Dict.keys d) -> map (inner d) (Dict.keys d) = map snd d.
Proof.
  unfold Dict.keys, inner, Dict.item.
  induction d as [|[k v] d IH]; simpl; intros H; [reflexivity|].
  inversion H as [|? ? Hnotin Hnd]; subst.
  rewrite String.eqb_refl. f_equal.
  rewrite <- (IH Hnd). apply map_ext_in. intros a Ha.
  destruct (String.eqb_spec k a) as [->|]; [contradiction | reflexivity].
Qed.

Lemma degrees_sum {V : Type} (d : Dict.t (Dict.t V)) :
  NoDup (Dict.keys d) ->
  list_sum (map (fun n => List.length (inner d n)) (Dict.keys d)) =
  adjacency_size d.
Proof.
  intros H. unfold adjacency_size.
  rewrite <- (map_map (inner d) (@List.length _)), (inner_keys d H).
  now rewrite map_map.
Qed.

Lemma list_sum_add {A : Type} (f g : A -> nat) (l : list A) :
  list_sum (map (fun x => f x + g x) l) =
  list_sum (map f l) + list_sum (map g l).
Proof. induction l; simpl; lia. Qed.

Lemma degree_sum_sizes (G : DiGraph) :
  well_formed G ->
  degree_sum G = adjacency_size (_pred G) + adjacency_size (_succ G).
Proof.
  intros (Hs & Hp & Hnd & _). unfold degree_sum, degree.
  rewrite map_map. simpl. rewrite list_sum_add. unfold in_degree, out_degree.
  rewrite <- (degrees_sum (_pred G)), <- (degrees_sum (_succ G)).
  - now rewrite Hs, Hp.
  - now rewrite Hs.
  - now rewrite Hp.
Qed.

Lemma mirrored_empty : mirrored nx.empty.
Proof. split; reflexivity. Qed.

Lemma mirrored_ensure_node (G : DiGraph) n :
  well_formed G -> mirrored G -> mirrored (ensure_node G n).
Proof.
  intros W (Hsize & Hmem). unfold ensure_node.
  destruct (Dict.mem (_succ G) n) eqn:E; [now split|].
  assert (E' : Dict.mem (_pred G) n = false)
    by now rewrite (pred_mem_node G n W), <- (succ_mem_node G n W).
  split; simpl.
  - now rewrite !adjacency_size_set_empty.
  - intros u v. now rewrite !inner_set_empty.
Qed.

Lemma mirrored_add_node (G : DiGraph) n attr :
  well_formed G -> mirrored G -> mirrored (add_node G n attr).
Proof.
  intros W (Hsize & Hmem). unfold add_node.
  destruct (Dict.mem (_succ G) n) eqn:E; [now split|].
  assert (E' : Dict.mem (_pred G) n = false)
    by now rewrite (pred_mem_node G n W), <- (succ_mem_node G n W).
  split; simpl.
  - now rewrite !adjacency_size_set_empty.
  - intros u v. now rewrite !inner_set_empty.
Qed.

Lemma mirrored_add_edge (G : DiGraph) u v attr :
  well_formed G -> mirrored G -> mirrored (add_edge G u v attr).
Proof.
  intros W M. unfold add_edge.
  assert (W1 : well_formed (ensure_node (ensure_node G u) v))
    by now apply well_formed_ensure_node, well_formed_ensure_node.
  assert (M1 : mirrored (ensure_node (ensure_node G u) v)).
  { apply mirrored_ensure_node; [now apply well_formed_ensure_node|].
    now apply mirrored_ensure_node. }
  revert W1 M1. generalize (ensure_node (ensure_node G u) v). clear G W M.
  intros G W (Hsize & Hmem). cbv zeta. split; simpl.
  - pose proof (adjacency_size_set (_succ G) u
                  (Dict.set (inner (_succ G) u) v attr)) as Es.
    pose proof (adjacency_size_set (_pred G) v
                  (Dict.set (inner (_pred G) v) u attr)) as Ep.
    rewrite DictFacts.length_set in Es, Ep. rewrite (Hmem u v) in Es.
    destruct (Dict.mem (inner (_pred G) v) u); lia.
  - intros x y.
    destruct (String.eqb_spec u x) as [<-|Hx].
    + rewrite inner_set_same.
      destruct (String.eqb_spec v y) as [<-|Hy].
      * now rewrite inner_set_same, !DictFacts.mem_set_same.
      * rewrite DictFacts.mem_set_other, inner_set_other by assumption.
        apply Hmem.
    + rewrite inner_set_other by assumption.
      destruct (String.eqb_spec v y) as [<-|Hy].
      * rewrite inner_set_same, DictFacts.mem_set_other by assumption.
        apply Hmem.
      * rewrite inner_set_other by assumption. apply Hmem.
Qed.

Lemma constructed_mirrored (g : DiGraph) : constructed g -> mirrored g.
Proof.
  induction 1 as [|g t C IH|g r C IH].
  - apply mirrored_empty.
  - apply mirrored_add_node; [now apply constructed_well_formed | exact IH].
  - apply mirrored_add_edge; [now apply constructed_well_formed | exact IH].
Qed.

Lemma degree_sum_edges (g : DiGraph) :
  constructed g -> degree_sum g = 2 * List.length (edges g).
Proof.
  intros C. rewrite (degree_sum_sizes g (constructed_well_formed g C)).
  rewrite length_edges. destruct (constructed_mirrored g C) as (E & _). lia.
Qed.

End Handshake.

(** X6: on a graph built by [add_topic] and [add_relationship] the
    statistics count what [export_to_dict] lists: [total_nodes] is the
    number of exported nodes, [total_edges] (half the degree sum) the number
    of exported edges, and [average_degree] is twice the number of edges
    divided by [max(total_nodes, 1)]. *)
Theorem get_statistics_counts_the_export
    (simple_cycles : SimpleCycles) (g : nx.DiGraph) :
  constructed g ->
  exists s,
    GraphBuilder.get_statistics simple_cycles g = Some s /\
    total_nodes s = List.length (fst (export_to_dict g)) /\
    total_edges s = List.length (snd (export_to_dict g)) /\
    (average_degree s ==
       inject_Z (2 * Z.of_nat (total_edges s)) /
       inject_Z (Z.of_nat (Nat.max (total_nodes s) 1)))%Q.
Proof.
  intros C. pose proof (Handshake.degree_sum_edges g C) as D.
  unfold GraphBuilder.get_statistics. fold (degree_sum g).
  destruct (truediv_positive (Z.of_nat (degree_sum g))
              (Z.of_nat (Nat.max (nx.number_of_nodes g) 1)))
    as (q & Hq & Hval); [lia|].
  rewrite Hq. eexists. split; [reflexivity|]. simpl.
  assert (E : nx.number_of_edges g = List.length (nx.edges g)).
  { unfold nx.number_of_edges. fold (degree_sum g). rewrite D.
    rewrite Nat.mul_comm. apply Nat.div_mul. discriminate. }
  split; [|split].
  - unfold nx.number_of_nodes, nx.nodes, Dict.keys. now rewrite !length_map.
  - exact E.
  - rewrite Hval, E, D.
    replace (Z.of_nat (2 * List.length (nx.edges g)))
      with (2 * Z.of_nat (List.length (nx.edges g)))%Z by lia.
    reflexivity.
Qed.

Lemma get_statistics_counts_the_export_witness :
  constructed circle /\
  exists s,
    GraphBuilder.get_statistics no_cycles circle = Some s /\
    total_nodes s = 3 /\ total_edges s = 3 /\ (average_degree s == 2)%Q.
Proof.
  assert (C : constructed circle)
    by apply ConstructedFacts.constructed_build, constructed_init.
  split; [exact C|].
  destruct (get_statistics_counts_the_export no_cycles circle C)
    as (s & Hs & Hn & He & Ha).
  exists s. split; [exact Hs|]. split; [exact Hn|]. split; [exact He|].
  rewrite Ha, He, Hn. reflexivity.
Defined.

Module ExportFacts.
Import nx GraphFacts WellFormed.

Lemma exported_ids (g : DiGraph) : map fst (fst (export_to_dict g)) = nodes g.
Proof. unfold export_to_dict. simpl. rewrite map_map. apply map_id. Qed.

Lemma exported_node (g : DiGraph) n attrs :
  In (n, attrs) (fst (export_to_dict g)) <-> Dict.get (_node g) n = Some attrs.
Proof.
  unfold export_to_dict. simpl. rewrite in_map_iff. split.
  - intros (x & E & Hx). inversion E; subst. clear E.
    apply DictFacts.mem_In_keys in Hx. unfold Dict.mem, Dict.item in *.
    destruct (Dict.get (_node g) n); [reflexivity | discriminate].
  - intros H. exists n. split.
    + unfold Dict.item. now rewrite H.
    + apply DictFacts.mem_In_keys. unfold Dict.mem. now rewrite H.
Qed.

Lemma get_edge_data_In (g : DiGraph) u v d :
  get_edge_data g u v = Some d -> In (u, v, d) (edges g).
Proof.
  unfold get_edge_data, inner, Dict.item, edges. intros H.
  destruct (Dict.get (_succ g) u) as [nbrs|] eqn:E; [|discriminate].
  apply DictFacts.get_In in E, H. apply in_flat_map.
  exists (u, nbrs). split; [exact E|].
  apply in_map_iff. now exists (v, d).
Qed.

Lemma NoDup_end_points (L : Dict.t (Dict.t EdgeAttr)) :
  NoDup (Dict.keys L) ->
  (forall u nbrs, In (u, nbrs) L -> NoDup (Dict.keys nbrs)) ->
  NoDup (map end_points
           (flat_map (fun '(u, nbrs) => map (fun '(v, d) => (u, v, d)) nbrs) L)).
Proof.
  unfold Dict.keys.
  induction L as [|[u nbrs] L IH]; simpl; intros Hnd Hin; [constructor|].
  inversion Hnd as [|? ? Hnotin Hnd']; subst.
  rewrite map_app. apply NoDup_app.
  - rewrite map_map.
    rewrite (map_ext _ (fun kv => (u, fst kv)))
      by (intros [v d]; reflexivity).
    rewrite <- (map_map fst (pair u)).
    apply Finite.Injective_map_NoDup.
    + intros a b E. now inversion E.
    + apply (Hin u nbrs). now left.
  - apply IH; [exact Hnd'|]. intros u' nbrs' H. apply (Hin u' nbrs'). now right.
  - intros [a b] Ha Hb. apply Hnotin.
    apply in_map_iff in Ha. destruct Ha as ([[a1 b1] d1] & E1 & H1).
    apply in_map_iff in H1. destruct H1 as ([v d] & E2 & _).
    inversion E2; subst. simpl in E1. inversion E1; subst. clear E1 E2.
    apply in_map_iff in Hb. destruct Hb as ([[a2 b2] d2] & E3 & H3).
    simpl in E3. inversion E3; subst. clear E3.
    apply in_flat_map in H3. destruct H3 as ([u' nbrs'] & H4 & H5).
    apply in_map_iff in H5. destruct H5 as ([v' d'] & E4 & _).
    inversion E4; subst. apply in_map_iff. now exists (a, nbrs').
Qed.

End ExportFacts.

(** X7: what [export_to_dict] lists is the graph, once each.  Every node
    is listed once with its attributes, every edge once per ordered pair
    with the attributes that [get_edge_data] returns, and both end points
    of every listed edge are among the listed nodes. *)
Theorem export_to_dict_lists_the_graph (g : nx.DiGraph) :
  well_formed g ->
  let exported_nodes := fst (export_to_dict g) in
  let exported_edges := snd (export_to_dict g) in
  NoDup (map fst exported_nodes) /\
  (forall n attrs,
      In (n, attrs) exported_nodes <->
      Dict.get (nx._node g) n = Some attrs) /\
  NoDup (map end_points exported_edges) /\
  (forall u v d,
      In (u, v, d) exported_edges <-> nx.get_edge_data g u v = Some d) /\
  (forall u v d,
      In (u, v, d) exported_edges ->
      In u (map fst exported_nodes) /\ In v (map fst exported_nodes)).
Proof.
  intros W. cbv zeta. rewrite ExportFacts.exported_ids.
  pose proof W as (Hs & Hp & Hnd & Hinner & Htarget).
  assert (Hedge : forall u v d,
             In (u, v, d) (snd (export_to_dict g)) <->
             nx.get_edge_data g u v = Some d).
  { intros u v d. split.
    - now apply SingleEdge.edges_In_get.
    - apply ExportFacts.get_edge_data_In. }
  split; [exact Hnd|]. split; [apply ExportFacts.exported_node|].
  split; [|split; [exact Hedge|]].
  - apply ExportFacts.NoDup_end_points; [now rewrite Hs|].
    intros u nbrs H. specialize (Hinner u).
    assert (E : nx.inner (nx._succ g) u = nbrs).
    { unfold nx.inner, Dict.item.
      rewrite (DictFacts.In_get (nx._succ g) u nbrs); [reflexivity| |exact H].
      now rewrite Hs. }
    now rewrite E in Hinner.
  - intros u v d H. apply Hedge in H. split.
    + rewrite <- Hs. apply DictFacts.mem_In_keys.
      unfold nx.get_edge_data, nx.inner, Dict.item, Dict.mem in *.
      destruct (Dict.get (nx._succ g) u); [reflexivity | discriminate].
    + apply GraphFacts.has_node_In, (Htarget u v).
      unfold nx.has_edge. now rewrite H.
Qed.

Lemma export_to_dict_lists_the_graph_witness :
  well_formed circle /\
  map fst (fst (export_to_dict circle)) = ["A"; "B"; "C"] /\
  map end_points (snd (export_to_dict circle)) =
    [("A", "B"); ("B", "C"); ("C", "A")] /\
  NoDup (map end_points (snd (export_to_dict circle))).
Proof.
  assert (W : well_formed circle)
    by apply OrphanReport.well_formed_build, WellFormed.well_formed_empty.
  split; [exact W|]. split; [reflexivity|]. split; [reflexivity|].
  exact (proj1 (proj2 (proj2 (export_to_dict_lists_the_graph circle W)))).
Defined.

Module Segments.

Lemma split_single (sep : ascii) (s : string) :
  has_char sep s = false -> Py.split sep s = [s].
Proof.
  induction s as [|c s IH]; simpl; [reflexivity|].
  intros H. apply orb_false_iff in H. destruct H as (Hc & Hs).
  now rewrite Hc, (IH Hs).
Qed.

Lemma split_app_sep (sep : ascii) (x rest : string) :
  has_char sep x = false ->
  Py.split sep (x ++ String sep rest) = x :: Py.split sep rest.
Proof.
  induction x as [|c x IH]; simpl.
  - intros _. now rewrite Ascii.eqb_refl.
  - intros H. apply orb_false_iff in H. destruct H as (Hc & Hx).
    now rewrite Hc, (IH Hx).
Qed.

Lemma split_has_no_sep (sep : ascii) (s : string) :
  forall p, In p (Py.split sep s) -> has_char sep p = false.
Proof.
  induction s as [|c s IH]; simpl.
  - intros p [<-|[]]. reflexivity.
  - destruct (Ascii.eqb c sep) eqn:E.
    + intros p [<-|H]; [reflexivity | now apply IH].
    + destruct (Py.split sep s) as [|q qs].
      * intros p [<-|[]]. simpl. now rewrite E.
      * intros p [<-|H].
        -- simpl. rewrite E. apply IH. now left.
        -- apply IH. now right.
Qed.

Lemma split_join (sep : ascii) (parts : list string) :
  parts <> [] ->
  (forall p, In p parts -> has_char sep p = false) ->
  Py.split sep (Py.join (String sep "") parts) = parts.
Proof.
  unfold Py.join.
  induction parts as [|x parts IH]; [congruence|]. intros _ H.
  destruct parts as [|y parts].
  - simpl. apply split_single, H. now left.
  - change (String.concat (String sep "") (x :: y :: parts))
      with (x ++ String sep (String.concat (String sep "") (y :: parts)))%string.
    rewrite split_app_sep by (apply H; now left).
    f_equal. apply IH; [discriminate|]. intros p Hp. apply H. now right.
Qed.

Lemma join_split (sep : ascii) (s : string) :
  Py.join (String sep "") (Py.split sep s) = s.
Proof.
  unfold Py.join. induction s as [|c s IH]; simpl; [reflexivity|].
  pose proof (Digits.split_not_nil sep s) as Hne.
  destruct (Ascii.eqb_spec c sep) as [->|Hc].
  - destruct (Py.split sep s) as [|q qs]; [congruence|].
    change (String.concat (String sep "") ("" :: q :: qs))
      with (String sep (String.concat (String sep "") (q :: qs))).
    now rewrite IH.
  - destruct (Py.split sep s) as [|q qs]; [congruence|].
    rewrite <- IH. destruct qs; reflexivity.
Qed.

Lemma last_item_snoc {A : Type} (l : list A) (x : A) :
  Py.last_item (l ++ [x]) = Some x.
Proof.
  induction l as [|a l IH]; [reflexivity|].
  simpl. destruct (l ++ [x]) eqn:E; [|exact IH].
  now destruct l.
Qed.

Lemma uint_all_digits (d : Decimal.uint) :
  all_digits (NilEmpty.string_of_uint d) = true /\
  has_char "." (NilEmpty.string_of_uint d) = false.
Proof. induction d; simpl; try tauto. Qed.

Lemma str_natural (m : Z) :
  (0 <= m)%Z ->
  is_decimal (Py.str m) = true /\ decimal_value (Py.str m) = Some m /\
  has_char "." (Py.str m) = false.
Proof.
  intros Hm. destruct m as [|p|p]; [now vm_compute| |lia].
  unfold Py.str. simpl.
  pose proof (DecimalPos.Unsigned.to_uint_nonnil p) as Hnil.
  pose proof (DecimalZ.of_to (Z.pos p)) as Hback. simpl in Hback.
  revert Hnil Hback. generalize (Pos.to_uint p). intros d Hnil Hback.
  assert (E : NilZero.string_of_uint d = NilEmpty.string_of_uint d)
    by (destruct d; [congruence | reflexivity ..]).
  rewrite E. destruct (uint_all_digits d) as (Hd & Hdot).
  assert (Hne : NilEmpty.string_of_uint d <> "")
    by (destruct d; [congruence | discriminate ..]).
  unfold is_decimal, decimal_value.
  destruct (NilEmpty.string_of_uint d) eqn:Es; [congruence|].
  rewrite <- Es, NilEmpty.usu. simpl. rewrite Hback, Es in *. auto.
Qed.

Lemma str_no_dot (m : Z) : has_char "." (Py.str m) = false.
Proof.
  destruct m as [|p|p]; [reflexivity| |].
  - apply str_natural. lia.
  - unfold Py.str. simpl.
    destruct (Pos.to_uint p); try reflexivity; simpl; apply uint_all_digits.
Qed.

Lemma construct_missing_id_split (reference_id : string) (m : Z) :
  Py.split "." (ValidatorAgent._construct_missing_id reference_id m) =
  leading_segments reference_id ++ [Py.str m].
Proof.
  unfold ValidatorAgent._construct_missing_id, Py.set_last_item,
    leading_segments.
  apply (split_join "."%char).
  - now destruct (removelast (Py.split "." reference_id)).
  - intros p Hp. apply in_app_or in Hp. destruct Hp as [Hp|[<-|[]]].
    + apply (split_has_no_sep "."%char reference_id).
      revert Hp. generalize (Py.split "." reference_id). intros l.
      induction l as [|a l IH]; simpl; [tauto|].
      destruct l; [intros [] | intros [<-|H]; [now left | right; now apply IH]].
    + apply str_no_dot.
Qed.

End Segments.

(** X8: the id that [_construct_missing_id] builds is the reference id
    with its trailing segment replaced: the segments before it are those of
    the reference id, and for a number that is not negative the trailing
    segment is numeric and denotes that number.  Only the leading segments
    of the reference id matter, and an id whose trailing segment is already
    the number in decimal is returned unchanged. *)
Theorem construct_missing_id_replaces_trailing_segment
    (reference_id : string) (m : Z) :
  (0 <= m)%Z ->
  let missing_id := ValidatorAgent._construct_missing_id reference_id m in
  Py.split "." missing_id = leading_segments reference_id ++ [Py.str m] /\
  leading_segments missing_id = leading_segments reference_id /\
  trailing_number missing_id = Some m /\
  (forall k, ValidatorAgent._construct_missing_id missing_id k =
             ValidatorAgent._construct_missing_id reference_id k) /\
  (Py.last_item (Py.split "." reference_id) = Some (Py.str m) ->
   missing_id = reference_id).
Proof.
  intros Hm. cbv zeta.
  pose proof (Segments.construct_missing_id_split reference_id m) as E.
  destruct (Segments.str_natural m Hm) as (Hd & Hi & _).
  assert (L : leading_segments
                (ValidatorAgent._construct_missing_id reference_id m) =
              leading_segments reference_id).
  { unfold leading_segments at 1. rewrite E. apply removelast_last. }
  split; [exact E|]. split; [exact L|]. split; [|split].
  - unfold trailing_number, trailing_number_in.
    rewrite E, Segments.last_item_snoc. simpl. now rewrite Hd.
  - intros k. unfold ValidatorAgent._construct_missing_id at 1 3.
    unfold Py.set_last_item. fold (leading_segments reference_id).
    fold (leading_segments
            (ValidatorAgent._construct_missing_id reference_id m)).
    now rewrite L.
  - intros Hlast. unfold ValidatorAgent._construct_missing_id, Py.set_last_item.
    rewrite <- (Segments.join_split "."%char reference_id) at 2.
    f_equal. revert Hlast. generalize (Py.split "." reference_id). intros l.
    induction l as [|a l IH]; [discriminate|].
    destruct l as [|b l]; [intros Hl; now inversion Hl|].
    intros Hl. change (a :: removelast (b :: l) ++ [Py.str m] = a :: b :: l).
    f_equal. now apply IH.
Qed.

Lemma construct_missing_id_replaces_trailing_segment_witness :
  (0 <= 3)%Z /\
  ValidatorAgent._construct_missing_id "18.2" 3 = "18.3" /\
  trailing_number (ValidatorAgent._construct_missing_id "18.2" 3) = Some 3%Z /\
  leading_segments (ValidatorAgent._construct_missing_id "18.2" 3) = ["18"].
Proof.
  assert (H : (0 <= 3)%Z) by lia.
  split; [exact H|]. split; [reflexivity|].
  destruct (construct_missing_id_replaces_trailing_segment "18.2" 3 H)
    as (_ & L & T & _).
  split; [exact T | rewrite L; reflexivity].
Defined.

Module Gaps.

Lemma gaps_between_cons a b (l : list (Z * string)) :
  gaps_between (a :: b :: l) =
  map (fun m => (snd a, snd b, m)) (Py.range (fst a + 1) (fst b)) ++
  gaps_between (b :: l).
Proof. destruct a, b. reflexivity. Qed.

Lemma missing_between_gaps (l : list (Z * string)) :
  flat_map missing_between (neighbours l) =
  map anomaly_of_gap (gaps_between l).
Proof.
  induction l as [|a l IH]; [reflexivity|].
  destruct l as [|b l]; [reflexivity|].
  rewrite gaps_between_cons, map_app, <- IH, map_map.
  destruct a, b. reflexivity.
Qed.

Lemma sorted_strongly (l : list (Z * string)) :
  Sorted by_number l -> StronglySorted by_number l.
Proof.
  apply Sorted_StronglySorted. intros a b c. unfold by_number. lia.
Qed.

Lemma numbers_cons a b (l : list (Z * string)) :
  map gap_number (gaps_between (a :: b :: l)) =
  Py.range (fst a + 1) (fst b) ++ map gap_number (gaps_between (b :: l)).
Proof.
  rewrite gaps_between_cons, map_app, map_map. simpl.
  now rewrite map_id.
Qed.

(** On a sorted list a number is a gap when it lies above the first
    number, below a later one, and is no number of the list. *)
Lemma gap_from_head a (l : list (Z * string)) (m : Z) :
  StronglySorted by_number (a :: l) ->
  In m (map gap_number (gaps_between (a :: l))) <->
  (fst a < m)%Z /\ (exists hi, In hi (map fst l) /\ (m < hi)%Z) /\
  ~ In m (map fst (a :: l)).
Proof.
  revert a. induction l as [|b l IH]; intros a S.
  - simpl. split; [tauto | intros (_ & (hi & [] & _) & _)].
  - inversion S as [|? ? S' Ha]; subst.
    assert (Hab : (fst a <= fst b)%Z).
    { rewrite Forall_forall in Ha. apply (Ha b). now left. }
    assert (Hrest : forall n, In n (map fst (b :: l)) -> (fst b <= n)%Z).
    { intros n [<-|Hn]; [lia|].
      inversion S' as [|? ? _ Hb]; subst. rewrite Forall_forall in Hb.
      apply in_map_iff in Hn. destruct Hn as (x & <- & Hx). now apply Hb. }
    rewrite numbers_cons, in_app_iff, GapLoop.range_In, (IH b S'). split.
    + intros [H|(Hlo & (hi & Hhi & Hlt) & Hnot)].
      * split; [lia|]. split; [exists (fst b); split; [now left | lia]|].
        intros [E|Hin]; [lia|]. apply Hrest in Hin. lia.
      * split; [lia|]. split; [exists hi; split; [now right | lia]|].
        intros [E|Hin]; [lia | contradiction].
    + intros (Hlo & (hi & Hhi & Hlt) & Hnot).
      destruct (Z_lt_ge_dec m (fst b)) as [Hm|Hm]; [left; lia|]. right.
      assert (Hne : m <> fst b) by (intros ->; apply Hnot; right; now left).
      split; [lia|]. split.
      * exists hi. split; [|exact Hlt].
        destruct Hhi as [E|Hhi]; [lia | exact Hhi].
      * intros Hin. apply Hnot. now right.
Qed.

Lemma gap_iff (l : list (Z * string)) (m : Z) :
  StronglySorted by_number l ->
  In m (map gap_number (gaps_between l)) <->
  ~ In m (map fst l) /\
  exists lo hi, In lo (map fst l) /\ In hi (map fst l) /\ (lo < m < hi)%Z.
Proof.
  intros S. destruct l as [|a l].
  - simpl. split; [tauto | intros (_ & lo & _ & [] & _)].
  - rewrite (gap_from_head a l m S). split.
    + intros (Hlo & (hi & Hhi & Hlt) & Hnot). split; [exact Hnot|].
      exists (fst a), hi. split; [now left|]. split; [now right | lia].
    + intros (Hnot & lo & hi & Hlo & Hhi & Hlt).
      inversion S as [|? ? _ Ha]; subst. rewrite Forall_forall in Ha.
      assert (Hmin : forall n, In n (map fst (a :: l)) -> (fst a <= n)%Z).
      { intros n [<-|Hn]; [lia|].
        apply in_map_iff in Hn. destruct Hn as (x & <- & Hx). now apply Ha. }
      pose proof (Hmin lo Hlo). split; [lia|]. split; [|exact Hnot].
      exists hi. split; [|lia]. destruct Hhi as [E|Hhi]; [lia | exact Hhi].
Qed.

Lemma range_increasing (a b : Z) : StronglySorted Z.lt (Py.range a b).
Proof.
  unfold Py.range. generalize (Z.to_nat (b - a)). intros n.
  generalize 0. induction n as [|n IH]; intros start; simpl; constructor.
  - apply IH.
  - apply Forall_forall. intros x Hx. apply in_map_iff in Hx.
    destruct Hx as (k & <- & Hk). apply in_seq in Hk. lia.
Qed.

Lemma increasing_app (l1 l2 : list Z) :
  StronglySorted Z.lt l1 -> StronglySorted Z.lt l2 ->
  (forall x y, In x l1 -> In y l2 -> (x < y)%Z) ->
  StronglySorted Z.lt (l1 ++ l2).
Proof.
  intros S1 S2 H. induction S1 as [|a l1 S1 IH Ha]; simpl; [exact S2|].
  constructor.
  - apply IH. intros x y Hx. apply H. now right.
  - apply Forall_forall. intros x Hx. apply in_app_or in Hx.
    destruct Hx as [Hx|Hx].
    + rewrite Forall_forall in Ha. now apply Ha.
    + apply H; [now left | exact Hx].
Qed.

Lemma gaps_increasing (l : list (Z * string)) :
  StronglySorted by_number l ->
  StronglySorted Z.lt (map gap_number (gaps_between l)).
Proof.
  induction l as [|a l IH]; intros S; [constructor|].
  destruct l as [|b l]; [constructor|].
  inversion S as [|? ? S' _]; subst. rewrite numbers_cons.
  apply increasing_app; [apply range_increasing | now apply IH|].
  intros x y Hx Hy. apply GapLoop.range_In in Hx.
  apply (gap_from_head b l y S') in Hy. lia.
Qed.

(** The two ids of a gap are neighbours: no number of the list lies
    strictly between theirs. *)
Lemma gap_neighbours (l : list (Z * string)) id1 id2 (m : Z) :
  StronglySorted by_number l ->
  In (id1, id2, m) (gaps_between l) ->
  exists n1 n2,
    In (n1, id1) l /\ In (n2, id2) l /\ (n1 < m < n2)%Z /\
    forall n, In n (map fst l) -> ~ (n1 < n < n2)%Z.
Proof.
  induction l as [|a l IH]; intros S; [intros []|].
  destruct l as [|b l]; [intros []|].
  inversion S as [|? ? S' Ha]; subst.
  rewrite gaps_between_cons, in_app_iff. intros [H|H].
  - apply in_map_iff in H. destruct H as (k & E & Hk). inversion E; subst.
    apply GapLoop.range_In in Hk. exists (fst a), (fst b).
    destruct a as [na ia], b as [nb ib]. simpl in *.
    split; [now left|]. split; [right; now left|]. split; [lia|].
    intros n [<-|[<-|Hn]]; [lia | lia |].
    inversion S' as [|? ? _ Hb]; subst. rewrite Forall_forall in Hb.
    apply in_map_iff in Hn. destruct Hn as (x & <- & Hx).
    specialize (Hb x Hx). unfold by_number in Hb. simpl in Hb. lia.
  - destruct (IH S' H) as (n1 & n2 & H1 & H2 & Hlt & Hnone).
    exists n1, n2. split; [now right|]. split; [now right|].
    split; [exact Hlt|]. intros n [<-|Hn]; [|now apply Hnone].
    rewrite Forall_forall in Ha. specialize (Ha (n1, id1) H1).
    unfold by_number in Ha. simpl in Ha. lia.
Qed.

End Gaps.

(** X9: within a group the gap detector is exhaustive and exact.  The
    numbers of a group are those that [int] returns for the trailing
    segments of which [isdigit] holds, whatever digits the interpreter
    knows.  The detector reports an integer exactly when no id of the group
    carries it while one id carries a smaller and one a larger number; it
    reports each such integer once, in ascending order, and names as
    affected topics the two ids of the group with the nearest numbers below
    and above. *)
Theorem check_numbering_gaps_reports_every_missing_number
    (py : Py.Numerals) (topics : list Topic.t) :
  ValidatorAgent._check_numbering_gaps py topics =
    flat_map (fun key => map anomaly_of_gap (group_gaps py topics key))
      (first_occurrences (map group_key topics)) /\
  forall key,
    (forall n,
        In n (group_numbers py topics key) <->
        exists id seg,
          In id (group_members topics key) /\
          Py.last_item (Py.split "." id) = Some seg /\
          Py.isdigit py seg = true /\ Py.int py seg = Some n) /\
    StronglySorted Z.lt (map gap_number (group_gaps py topics key)) /\
    (forall m,
        In m (map gap_number (group_gaps py topics key)) <->
        ~ In m (group_numbers py topics key) /\
        exists lo hi, In lo (group_numbers py topics key) /\
                      In hi (group_numbers py topics key) /\
                      (lo < m < hi)%Z) /\
    (forall current_id next_id m,
        In (current_id, next_id, m) (group_gaps py topics key) ->
        In current_id (group_members topics key) /\
        In next_id (group_members topics key) /\
        exists lo hi,
          trailing_number_in py current_id = Some lo /\
          trailing_number_in py next_id = Some hi /\ (lo < m < hi)%Z /\
          forall n, In n (group_numbers py topics key) -> ~ (lo < n < hi)%Z).
Proof.
  split.
  - rewrite GapLoop.check_numbering_gaps_groups.
    apply flat_map_ext. intros key. unfold gaps_in_group, group_gaps.
    apply Gaps.missing_between_gaps.
  - intros key. unfold group_gaps, group_numbers.
    set (children := group_members topics key).
    set (sorted := PySort.sort PySort.tuple_lt (numbered py children)).
    assert (P : Permutation sorted (numbered py children))
      by apply SortFacts.sort_perm.
    assert (S : StronglySorted by_number sorted).
    { apply Gaps.sorted_strongly, SortFacts.ascending_by_number,
        SortFacts.sort_ascending. }
    assert (Hnum : forall n, In n (map fst sorted) <->
                             In n (map fst (numbered py children))).
    { intros n. split; apply Permutation_in, Permutation_map;
        [exact P | now apply Permutation_sym]. }
    split; [|split; [now apply Gaps.gaps_increasing|split]].
    + intros n. rewrite in_map_iff. split.
      * intros ([n' id] & E & Hin). simpl in E. subst n'.
        apply Digits.numbered_In in Hin. destruct Hin as (Hid & T).
        apply Digits.trailing_number_some in T.
        destruct T as (seg & Hseg & Hd & Hi). now exists id, seg.
      * intros (id & seg & Hid & Hseg & Hd & Hi). exists (n, id).
        split; [reflexivity|]. apply Digits.numbered_In.
        split; [exact Hid|]. apply Digits.trailing_number_some.
        now exists seg.
    + intros m. rewrite (Gaps.gap_iff sorted m S), Hnum. split.
      * intros (Hnot & lo & hi & Hlo & Hhi & Hlt). split; [exact Hnot|].
        exists lo, hi. now rewrite <- !Hnum.
      * intros (Hnot & lo & hi & Hlo & Hhi & Hlt). split; [exact Hnot|].
        exists lo, hi. now rewrite !Hnum.
    + intros current_id next_id m H.
      destruct (Gaps.gap_neighbours sorted _ _ _ S H)
        as (n1 & n2 & H1 & H2 & Hlt & Hnone).
      apply (Permutation_in _ P), Digits.numbered_In in H1, H2.
      destruct H1 as (H1 & T1), H2 as (H2 & T2).
      split; [exact H1|]. split; [exact H2|].
      exists n1, n2. split; [exact T1|]. split; [exact T2|].
      split; [exact Hlt|]. intros n Hn. apply Hnone. now apply Hnum.
Qed.

Lemma check_numbering_gaps_reports_every_missing_number_witness :
  let topics := [topic "١" None [] [] []; topic "٣" None [] [] []] in
  reads_decimals arabic_indic_numerals /\
  group_numbers arabic_indic_numerals topics "root" = [1; 3]%Z /\
  ValidatorAgent._check_numbering_gaps arabic_indic_numerals topics =
    [ValidatorAgent.gap_anomaly "١" "٣" 2].
Proof.
  cbv zeta. split; [exact Digits.arabic_indic_numerals_read_decimals|].
  split; [reflexivity|].
  rewrite (proj1 (check_numbering_gaps_reports_every_missing_number
                    arabic_indic_numerals
                    [topic "١" None [] [] []; topic "٣" None [] [] []])).
  reflexivity.
Defined.

Module Surplus.

Lemma NoDup_snoc {A : Type} (l : list A) (x : A) :
  NoDup (l ++ [x]) <-> NoDup l /\ ~ In x l.
Proof.
  assert (P : Permutation (x :: l) (l ++ [x])) by apply Permutation_cons_append.
  split.
  - intros H. apply (Permutation_NoDup (Permutation_sym P)) in H.
    inversion H; subst. tauto.
  - intros (H & Hx). apply (Permutation_NoDup P). now constructor.
Qed.

Lemma duplicates_and_distinct_ids (topics : list Topic.t) :
  List.length (ValidatorAgent._check_duplicates topics) +
  List.length (first_occurrences (map Topic.id topics)) =
  List.length topics.
Proof.
  induction topics as [|t topics IH] using rev_ind; [reflexivity|].
  rewrite check_duplicates_snoc, map_app. cbn [map].
  rewrite Groups.first_occurrences_snoc, !length_app.
  destruct (occurs (Topic.id t) (map Topic.id topics));
    simpl; rewrite ?length_app; simpl; lia.
Qed.

Lemma no_duplicates_iff (topics : list Topic.t) :
  ValidatorAgent._check_duplicates topics = [] <->
  NoDup (map Topic.id topics).
Proof.
  induction topics as [|t topics IH] using rev_ind.
  - split; [constructor | reflexivity].
  - rewrite check_duplicates_snoc, map_app. cbn [map]. rewrite NoDup_snoc.
    rewrite <- IH, <- occurs_In.
    destruct (occurs (Topic.id t) (map Topic.id topics)); split.
    + intros H. apply app_eq_nil in H. destruct H; discriminate.
    + intros (_ & H). now contradiction H.
    + rewrite app_nil_r. intros H. split; [exact H | discriminate].
    + rewrite app_nil_r. tauto.
Qed.

End Surplus.

(** X10: the duplicate detector reports what [add_topic] merges.  After
    [add_topic] for every topic of a list the graph has one node per
    distinct id, and the number of [duplicate_topic] anomalies is the number
    of topics beyond that; the detector reports nothing exactly when the ids
    are pairwise distinct. *)
Theorem check_duplicates_counts_merged_topics (topics : list Topic.t) :
  let g := fold_left GraphBuilder.add_topic topics GraphBuilder.init in
  List.length (ValidatorAgent._check_duplicates topics) +
    nx.number_of_nodes g = List.length topics /\
  (ValidatorAgent._check_duplicates topics = [] <->
   NoDup (map Topic.id topics)) /\
  (ValidatorAgent._check_duplicates topics = [] <->
   nx.number_of_nodes g = List.length topics).
Proof.
  cbv zeta.
  assert (N : nx.number_of_nodes
                (fold_left GraphBuilder.add_topic topics GraphBuilder.init) =
              List.length (first_occurrences (map Topic.id topics))).
  { rewrite <- BuiltNodes.add_topics_nodes.
    unfold nx.number_of_nodes, nx.nodes, Dict.keys. now rewrite length_map. }
  pose proof (Surplus.duplicates_and_distinct_ids topics) as E.
  rewrite N. split; [exact E|]. split; [apply Surplus.no_duplicates_iff|].
  split.
  - intros H. rewrite H in E. exact E.
  - intros H. apply length_zero_iff_nil. lia.
Qed.

Module ReferenceEdges.
Import nx GraphFacts WellFormed.

Lemma add_references_adds_edge source type refs r :
  forall g,
    In r refs ->
    has_edge (GraphBuilder.add_references source type refs g) source r = true.
Proof.
  unfold GraphBuilder.add_references.
  induction refs as [|a refs IH]; intros g; [intros []|].
  intros [->|H]; simpl; [|now apply IH].
  apply (Build.add_references_keeps_edges source type refs).
  unfold has_edge, GraphBuilder.add_relationship. simpl.
  now rewrite SingleEdge.add_edge_get.
Qed.

Lemma step_adds_reference_edge (g : DiGraph) (t : Topic.t) r :
  In r (all_references t) ->
  has_edge (GraphBuilder.add_topic_relationships g t) (Topic.id t) r = true.
Proof.
  unfold all_references, GraphBuilder.add_topic_relationships.
  rewrite !in_app_iff. intros [H|[H|H]].
  - do 2 apply Build.add_references_keeps_edges.
    now apply add_references_adds_edge.
  - apply Build.add_references_keeps_edges.
    now apply add_references_adds_edge.
  - now apply add_references_adds_edge.
Qed.

Lemma build_adds_reference_edge (g : DiGraph) (topics : list Topic.t) t r :
  In t topics -> In r (all_references t) ->
  has_edge (GraphBuilder.build_from_topics g topics) (Topic.id t) r = true.
Proof.
  intros Ht Hr. unfold GraphBuilder.build_from_topics.
  generalize (fold_left GraphBuilder.add_topic topics g). intros g0.
  destruct (in_split t topics Ht) as (before & after & ->).
  rewrite fold_left_app. simpl.
  apply Build.relationships_keep_edges.
  now apply step_adds_reference_edge.
Qed.

End ReferenceEdges.

(** X11: a reference that the validator reports as broken is not broken
    in the graph.  When a topic of the list refers to an id that no topic
    carries, [_validate_cross_references] reports it, while the graph that
    [build_from_topics] builds from the same list has the edge to that id
    and the id as a node with an empty attribute dictionary, which
    [export_to_dict] lists with its id alone. *)
Theorem broken_reference_is_a_node_without_attributes
    (topics : list Topic.t) (t : Topic.t) (r : string) :
  In t topics -> In r (all_references t) ->
  ValidatorAgent.in_topic_ids topics r = false ->
  let g := GraphBuilder.build_from_topics GraphBuilder.init topics in
  In (ValidatorAgent.broken_anomaly (Topic.id t) r)
    (ValidatorAgent._validate_cross_references topics) /\
  nx.has_edge g (Topic.id t) r = true /\
  nx.has_node g r = true /\
  Dict.get (nx._node g) r = Some None /\
  In (r, None) (fst (export_to_dict g)).
Proof.
  intros Ht Hr Hid. cbv zeta.
  assert (W : well_formed
                (GraphBuilder.build_from_topics GraphBuilder.init topics))
    by apply OrphanReport.well_formed_build, WellFormed.well_formed_empty.
  pose proof (ReferenceEdges.build_adds_reference_edge GraphBuilder.init
                topics t r Ht Hr) as He.
  assert (Hn : nx.has_node
                 (GraphBuilder.build_from_topics GraphBuilder.init topics) r =
               true)
    by (destruct W as (_ & _ & _ & _ & Htarget); exact (Htarget _ _ He)).
  assert (Ha : Dict.get
                 (nx._node
                    (GraphBuilder.build_from_topics GraphBuilder.init topics))
                 r = Some None).
  { revert Hn. unfold GraphBuilder.build_from_topics.
    set (g0 := fold_left GraphBuilder.add_topic topics GraphBuilder.init).
    assert (W0 : well_formed g0)
      by apply BuiltNodes.well_formed_add_topics, WellFormed.well_formed_empty.
    destruct (BuiltGraph.extends_steps topics g0 topics g0 (incl_refl _)
                (BuiltGraph.extends_refl topics g0 W0))
      as (_ & (extra & Hnodes & Hextra) & _).
    intros Hn. apply GraphFacts.has_node_In in Hn. rewrite Hnodes in Hn.
    apply in_app_or in Hn. destruct Hn as [Hn|Hn]; [|now apply Hextra].
    unfold g0 in Hn. rewrite BuiltNodes.add_topics_nodes in Hn.
    apply BuiltNodes.first_occurrences_In, in_map_iff in Hn.
    destruct Hn as (t' & E & Ht').
    assert (Hyes : ValidatorAgent.in_topic_ids topics r = true)
      by (apply Detectors.in_topic_ids_spec; now exists t').
    congruence. }
  split; [|split; [exact He|split; [exact Hn|split; [exact Ha|]]]].
  - rewrite Detectors.validate_cross_references_flat_map.
    apply in_flat_map. exists t. split; [exact Ht|].
    apply in_map. unfold missing_references. apply filter_In.
    split; [exact Hr | now rewrite Hid].
  - now apply ExportFacts.exported_node.
Qed.

Lemma broken_reference_is_a_node_without_attributes_witness :
  let t := topic "1" None ["99.9"] [] [] in
  let g := GraphBuilder.build_from_topics GraphBuilder.init [t] in
  ValidatorAgent._validate_cross_references [t] =
    [ValidatorAgent.broken_anomaly "1" "99.9"] /\
  nx.nodes g = ["1"; "99.9"] /\
  Dict.get (nx._node g) "99.9" = Some None.
Proof.
  cbv zeta. split; [reflexivity|]. split; [reflexivity|].
  refine (proj1 (proj2 (proj2 (proj2
    (broken_reference_is_a_node_without_attributes
       [topic "1" None ["99.9"] [] []] (topic "1" None ["99.9"] [] [])
       "99.9" _ _ _))))).
  - now left.
  - now left.
  - reflexivity.
Defined.

Module AncestorFacts.
Import nx Ancestors.

Lemma hierarchical_steps_shift (g : DiGraph) a path indices :
  hierarchical_steps g (a :: path) (map S indices) =
  hierarchical_steps g path indices.
Proof.
  induction indices as [|i indices IH]; [reflexivity|].
  simpl. rewrite IH. reflexivity.
Qed.

Lemma is_hierarchical_path_steps (g : DiGraph) (path : list string) :
  _is_hierarchical_path g path =
  forallb (hierarchical_or_absent g) (neighbours path).
Proof.
  unfold _is_hierarchical_path.
  induction path as [|a path IH]; [reflexivity|].
  destruct path as [|b path]; [reflexivity|].
  change (neighbours (a :: b :: path)) with ((a, b) :: neighbours (b :: path)).
  replace (List.length (a :: b :: path) - 1)
    with (S (List.length (b :: path) - 1)) by (simpl; lia).
  rewrite <- cons_seq, <- seq_shift.
  cbn [hierarchical_steps forallb].
  change (nth_error (a :: b :: path) 0) with (Some a).
  change (nth_error (a :: b :: path) (0 + 1)) with (Some b).
  cbv beta iota. rewrite hierarchical_steps_shift, IH.
  change (hierarchical_or_absent g (a, b))
    with (match get_edge_data g a b with
          | Some d => GraphBuilder.is_hierarchical (e_type d)
          | None => true
          end).
  destruct (get_edge_data g a b) as [d|]; [|reflexivity].
  now destruct (GraphBuilder.is_hierarchical (e_type d)).
Qed.

Lemma is_hierarchical_path_iff (g : DiGraph) (path : list string) :
  _is_hierarchical_path g path = true <->
  forall u v d, In (u, v) (neighbours path) ->
                get_edge_data g u v = Some d -> e_type d = hierarchical.
Proof.
  rewrite is_hierarchical_path_steps, forallb_forall. split.
  - intros H u v d Hin Hd. specialize (H (u, v) Hin).
    unfold hierarchical_or_absent in H. simpl in H. rewrite Hd in H.
    now destruct (e_type d).
  - intros H [u v] Hin. unfold hierarchical_or_absent. simpl.
    destruct (get_edge_data g u v) as [d|] eqn:Hd; [|reflexivity].
    now rewrite (H u v d Hin Hd).
Qed.

Lemma ancestors_among_In (sp : ShortestPath) (g : DiGraph) x nodes p :
  (forall n, In n nodes -> sp g n x <> Failed) ->
  In p (ancestors_among sp g x nodes) <->
  In p nodes /\
  exists path, sp g p x = Found path /\ _is_hierarchical_path g path = true.
Proof.
  induction nodes as [|n nodes IH]; intros Hsafe.
  - simpl. split; [tauto | intros ([] & _)].
  - assert (IH' := IH (fun n' Hn' => Hsafe n' (or_intror Hn'))).
    pose proof (Hsafe n (or_introl eq_refl)) as Hn. simpl.
    destruct (sp g n x) as [path| |] eqn:E; [| |congruence].
    + destruct (_is_hierarchical_path g path) eqn:Hp.
      * simpl. rewrite IH'. split.
        -- intros [<-|(Hin & H)]; [|tauto].
           split; [now left | now exists path].
        -- intros ([<-|Hin] & H); [now left | right; tauto].
      * rewrite IH'. split; [tauto|].
        intros ([<-|Hin] & path' & E' & Hp'); [congruence | eauto].
    + rewrite IH'. split; [tauto|].
      intros ([<-|Hin] & path' & E' & Hp'); [congruence | eauto].
Qed.

Lemma path_to_itself (sp : ShortestPath) (g : DiGraph) s :
  finds_shortest_paths sp g -> has_node g s = true -> sp g s s = Found [s].
Proof.
  intros C Hs. specialize (C s s Hs Hs).
  assert (P : is_path g s s [s]) by (repeat split; constructor).
  destruct (sp g s s) as [path| |]; [|now apply C in P|contradiction].
  destruct C as ((Hhd & _) & Hmin). specialize (Hmin [s] P).
  destruct path as [|a [|b path]]; simpl in *; try discriminate; try lia.
  now inversion Hhd.
Qed.

Lemma path_along_edge (sp : ShortestPath) (g : DiGraph) s t :
  finds_shortest_paths sp g ->
  has_node g s = true -> has_node g t = true ->
  s <> t -> has_edge g s t = true -> sp g s t = Found [s; t].
Proof.
  intros C Hs Ht Hne He. specialize (C s t Hs Ht).
  assert (P : is_path g s t [s; t]).
  { repeat split. simpl. constructor; [exact He | constructor]. }
  destruct (sp g s t) as [path| |]; [|now apply C in P|contradiction].
  destruct C as ((Hhd & Hlast & _) & Hmin). specialize (Hmin [s; t] P).
  destruct path as [|a [|b [|c path]]]; simpl in *; try discriminate; try lia.
  - inversion Hhd. inversion Hlast. congruence.
  - inversion Hhd. inversion Hlast. now subst.
Qed.

Lemma direct_paths_contract : finds_shortest_paths direct_paths parent_and_child.
Proof.
  assert (Hnodes : forall s, has_node parent_and_child s = true ->
                             s = "1" \/ s = "1.1").
  { intros s Hs. apply GraphFacts.has_node_In in Hs.
    destruct Hs as [<-|[<-|[]]]; auto. }
  intros s t Hs Ht.
  destruct (Hnodes s Hs) as [->| ->], (Hnodes t Ht) as [->| ->].
  - split; [repeat split; constructor|].
    intros path' (Hhd & _). destruct path'; [discriminate | simpl; lia].
  - split; [repeat split; repeat constructor|].
    intros path' (Hhd & Hlast & _).
    destruct path' as [|a [|b path']]; simpl in *; try discriminate; try lia.
    inversion Hhd. inversion Hlast. congruence.
  - intros path' (Hhd & Hlast & Hedges).
    destruct path' as [|a [|b path']]; simpl in *; try discriminate.
    + inversion Hhd. inversion Hlast. congruence.
    + inversion Hhd; subst. inversion Hedges as [|? ? He _]; subst.
      unfold edge in He. simpl in He. discriminate.
  - split; [repeat split; constructor|].
    intros path' (Hhd & _). destruct path'; [discriminate | simpl; lia].
Qed.

End AncestorFacts.

(** X12: [get_topic_ancestors] on a topic of the graph, with a
    [shortest_path] that finds shortest paths.  The topic is listed among
    its own ancestors; a node with an edge to the topic is listed exactly
    when that edge is hierarchical; and every listed node is a node of the
    graph from which a path leads to the topic whose edges are all
    hierarchical. *)
Theorem get_topic_ancestors_lists_hierarchical_parents
    (shortest_path : ShortestPath) (g : nx.DiGraph) (topic_id : string) :
  well_formed g ->
  finds_shortest_paths shortest_path g ->
  nx.has_node g topic_id = true ->
  let ancestors := Ancestors.get_topic_ancestors shortest_path g topic_id in
  In topic_id ancestors /\
  (forall p d,
      p <> topic_id -> nx.get_edge_data g p topic_id = Some d ->
      (In p ancestors <-> nx.e_type d = hierarchical)) /\
  (forall a,
      In a ancestors ->
      nx.has_node g a = true /\
      exists path,
        is_path g a topic_id path /\
        forall u v, In (u, v) (neighbours path) ->
                    exists d, nx.get_edge_data g u v = Some d /\
                              nx.e_type d = hierarchical).
Proof.
  intros W C Hx. cbv zeta. unfold Ancestors.get_topic_ancestors.
  rewrite Hx. cbn [negb].
  assert (Hsafe : forall n, In n (nx.nodes g) ->
                            shortest_path g n topic_id <> Failed).
  { intros n Hn E. apply GraphFacts.has_node_In in Hn.
    specialize (C n topic_id Hn Hx). now rewrite E in C. }
  split; [|split].
  - apply (AncestorFacts.ancestors_among_In _ _ _ _ _ Hsafe).
    split; [now apply GraphFacts.has_node_In|].
    exists [topic_id]. split; [now apply AncestorFacts.path_to_itself|].
    reflexivity.
  - intros p d Hne Hd.
    assert (He : nx.has_edge g p topic_id = true)
      by (unfold nx.has_edge; now rewrite Hd).
    assert (Hp : nx.has_node g p = true).
    { destruct W as (Hs & _). apply GraphFacts.has_node_In. rewrite <- Hs.
      apply DictFacts.mem_In_keys.
      unfold nx.get_edge_data, nx.inner, Dict.item, Dict.mem in *.
      destruct (Dict.get (nx._succ g) p); [reflexivity | discriminate]. }
    pose proof (AncestorFacts.path_along_edge _ _ _ _ C Hp Hx Hne He) as E.
    rewrite (AncestorFacts.ancestors_among_In _ _ _ _ _ Hsafe). split.
    + intros (_ & path & E' & Hpath). rewrite E in E'. inversion E'; subst.
      apply AncestorFacts.is_hierarchical_path_iff
        with (u := p) (v := topic_id) (d := d) in Hpath; auto.
      now left.
    + intros Ht. split; [now apply GraphFacts.has_node_In|].
      exists [p; topic_id]. split; [exact E|].
      apply AncestorFacts.is_hierarchical_path_iff.
      intros u v d' [Huv|[]] Hd'. inversion Huv; subst. congruence.
  - intros a Ha.
    apply (AncestorFacts.ancestors_among_In _ _ _ _ _ Hsafe) in Ha.
    destruct Ha as (Hin & path & E & Hpath).
    apply GraphFacts.has_node_In in Hin. split; [exact Hin|].
    specialize (C a topic_id Hin Hx). rewrite E in C.
    destruct C as (P & _). exists path. split; [exact P|].
    intros u v Huv. destruct P as (_ & _ & Hedges).
    rewrite Forall_forall in Hedges. specialize (Hedges (u, v) Huv).
    unfold edge, nx.has_edge in Hedges. simpl in Hedges.
    destruct (nx.get_edge_data g u v) as [d|] eqn:Hd; [|discriminate].
    exists d. split; [reflexivity|].
    now apply (proj1 (AncestorFacts.is_hierarchical_path_iff g path) Hpath
                 u v d Huv).
Qed.

Lemma get_topic_ancestors_lists_hierarchical_parents_witness :
  well_formed parent_and_child /\
  finds_shortest_paths direct_paths parent_and_child /\
  Ancestors.get_topic_ancestors direct_paths parent_and_child "1.1" =
    ["1"; "1.1"] /\
  In "1.1" (Ancestors.get_topic_ancestors direct_paths parent_and_child "1.1").
Proof.
  assert (W : well_formed parent_and_child)
    by apply OrphanReport.well_formed_build, WellFormed.well_formed_empty.
  split; [exact W|]. split; [exact AncestorFacts.direct_paths_contract|].
  split; [reflexivity|].
  exact (proj1 (get_topic_ancestors_lists_hierarchical_parents direct_paths
                  parent_and_child "1.1" W
                  AncestorFacts.direct_paths_contract eq_refl)).
Defined.

(** X13: [_is_hierarchical_path] accepts a path unless one of its steps is
    an edge of another type: it returns [True] exactly when every step that
    is an edge of the graph is hierarchical.  Steps that are no edges are
    not checked, so that a path with fewer than two nodes and a path none of
    whose steps is an edge are accepted. *)
Theorem is_hierarchical_path_checks_only_edges
    (g : nx.DiGraph) (path : list string) :
  (Ancestors._is_hierarchical_path g path = true <->
   forall u v d, In (u, v) (neighbours path) ->
                 nx.get_edge_data g u v = Some d ->
                 nx.e_type d = hierarchical) /\
  (Ancestors._is_hierarchical_path g path = false <->
   exists u v d, In (u, v) (neighbours path) /\
                 nx.get_edge_data g u v = Some d /\
                 nx.e_type d <> hierarchical) /\
  (List.length path <= 1 -> Ancestors._is_hierarchical_path g path = true) /\
  ((forall u v, In (u, v) (neighbours path) -> nx.has_edge g u v = false) ->
   Ancestors._is_hierarchical_path g path = true).
Proof.
  split; [apply AncestorFacts.is_hierarchical_path_iff|]. split; [|split].
  - rewrite AncestorFacts.is_hierarchical_path_steps. split.
    + intros H.
      assert (Hex : existsb (fun p => negb (hierarchical_or_absent g p))
                      (neighbours path) = true).
      { revert H. generalize (neighbours path). intros l.
        induction l as [|a l IH]; simpl; [discriminate|].
        destruct (hierarchical_or_absent g a); simpl; [exact IH | reflexivity]. }
      apply existsb_exists in Hex. destruct Hex as ([u v] & Hin & Hbad).
      unfold hierarchical_or_absent in Hbad. simpl in Hbad.
      destruct (nx.get_edge_data g u v) as [d|] eqn:Hd; [|discriminate].
      exists u, v, d. split; [exact Hin|]. split; [exact Hd|].
      intros E. rewrite E in Hbad. discriminate.
    + intros (u & v & d & Hin & Hd & Hne).
      destruct (forallb (hierarchical_or_absent g) (neighbours path)) eqn:E;
        [|reflexivity].
      rewrite forallb_forall in E. specialize (E (u, v) Hin).
      unfold hierarchical_or_absent in E. simpl in E. rewrite Hd in E.
      destruct (nx.e_type d); try discriminate. congruence.
  - intros H. destruct path as [|a [|b path]]; simpl in H; try reflexivity; lia.
  - intros H. apply AncestorFacts.is_hierarchical_path_iff.
    intros u v d Hin Hd. specialize (H u v Hin). unfold nx.has_edge in H.
    rewrite Hd in H. discriminate.
Qed.

Module CacheFacts.
Import LLMClient.

Lemma chat_outcome (api : ChatApi) (self : t) (model key : string)
    (messages : list Message) (temp : Q) (limit : Z)
    (outcome : option Cached * t) :
  outcome =
    match Dict.get (cache self) key with
    | Some cached => (Some cached, self)
    | None =>
        match api model messages temp limit with
        | Some result =>
            (Some (Text result),
             with_cache self (Dict.set (cache self) key (Text result)))
        | None => (None, self)
        end
    end ->
  (fst outcome = None ->
   snd outcome = self /\ Dict.get (cache self) key = None /\
   api model messages temp limit = None) /\
  (forall value,
      fst outcome = Some value ->
      Dict.get (cache (snd outcome)) key = Some value /\
      (forall other, other <> key ->
                     Dict.get (cache (snd outcome)) other =
                     Dict.get (cache self) other)).
Proof.
  intros ->. destruct (Dict.get (cache self) key) as [cached|] eqn:E.
  - simpl. split; [discriminate|]. intros value H. inversion H; subst.
    split; [exact E | reflexivity].
  - destruct (api model messages temp limit) as [result|] eqn:A; simpl.
    + split; [discriminate|]. intros value H. inversion H; subst.
      split; [apply DictFacts.get_set_same|]. intros other Hne.
      apply DictFacts.get_set_other. congruence.
    + split; [auto | discriminate].
Qed.

Lemma typed_cache_set_text (c : Dict.t Cached) key rest result :
  key = ("gpt4:" ++ rest)%string \/ key = ("gpt35:" ++ rest)%string ->
  typed_cache c -> typed_cache (Dict.set c key (Text result)).
Proof.
  intros Hkey T k v. destruct (String.eqb_spec key k) as [<-|Hne].
  - rewrite DictFacts.get_set_same. intros E. inversion E; subst.
    left. exists rest, result. auto.
  - rewrite DictFacts.get_set_other by assumption. apply T.
Qed.

Lemma typed_cache_set_vector (c : Dict.t Cached) rest embedding :
  typed_cache c ->
  typed_cache (Dict.set c ("embed:" ++ rest)%string (Vector embedding)).
Proof.
  intros T k v. destruct (String.eqb_spec ("embed:" ++ rest)%string k) as [<-|Hne].
  - rewrite DictFacts.get_set_same. intros E. inversion E; subst.
    right. exists rest, embedding. auto.
  - rewrite DictFacts.get_set_other by assumption. apply T.
Qed.

Lemma typed_chat_value (c : Dict.t Cached) key rest value :
  key = ("gpt4:" ++ rest)%string \/ key = ("gpt35:" ++ rest)%string ->
  typed_cache c -> Dict.get c key = Some value ->
  exists result, value = Text result.
Proof.
  intros Hkey T E. destruct (T key value E)
    as [(r & result & _ & ->)|(r & embedding & Hk & _)]; [eauto|].
  destruct Hkey as [->| ->]; discriminate.
Qed.

Lemma typed_embed_value (c : Dict.t Cached) rest value :
  typed_cache c -> Dict.get c ("embed:" ++ rest)%string = Some value ->
  exists embedding, value = Vector embedding.
Proof.
  intros T E. destruct (T _ value E)
    as [(r & result & Hk & _)|(r & embedding & _ & ->)]; [|eauto].
  destruct Hk; discriminate.
Qed.

End CacheFacts.

(** X14: a chat call that returns stores its result under the key of the
    system message and the prompt, and changes no other entry; a call that
    finds no entry and whose API call fails raises, stores nothing and
    leaves the client as it was.  A stored result answers every later call
    with the same system message and prompt, whatever the API would return
    and whatever temperature and token limit the later call asks for. *)
Theorem call_gpt4_answers_repeated_calls_from_the_cache
    (api : LLMClient.ChatApi) (self : LLMClient.t) (prompt : string)
    (system_message : option string) (temperature : option Q)
    (max_tokens : option Z) :
  let outcome :=
    LLMClient.call_gpt4 api self prompt system_message temperature max_tokens in
  let key := chat_key "gpt4" system_message prompt in
  (fst outcome = None ->
   snd outcome = self /\ Dict.get (LLMClient.cache self) key = None) /\
  (forall value,
      fst outcome = Some value ->
      Dict.get (LLMClient.cache (snd outcome)) key = Some value /\
      (forall other, other <> key ->
                     Dict.get (LLMClient.cache (snd outcome)) other =
                     Dict.get (LLMClient.cache self) other) /\
      forall api' temperature' max_tokens',
        LLMClient.call_gpt4 api' (snd outcome) prompt system_message
          temperature' max_tokens' = (Some value, snd outcome)).
Proof.
  cbv zeta.
  destruct (CacheFacts.chat_outcome api self (LLMClient.gpt4_model self)
              (chat_key "gpt4" system_message prompt)
              (LLMClient.messages_for prompt system_message)
              (LLMClient.or_temperature temperature (LLMClient.temperature self))
              (LLMClient.or_max_tokens max_tokens (LLMClient.max_tokens self))
              (LLMClient.call_gpt4 api self prompt system_message temperature
                 max_tokens) eq_refl) as (Hnone & Hsome).
  split.
  - intros H. destruct (Hnone H) as (H1 & H2 & _). now split.
  - intros value H. destruct (Hsome value H) as (H1 & H2).
    split; [exact H1|]. split; [exact H2|].
    intros api' temperature' max_tokens'.
    unfold LLMClient.call_gpt4 at 1. cbv zeta.
    change ("gpt4:" ++ LLMClient.format_optional system_message ++ ":" ++ prompt)%string
      with (chat_key "gpt4" system_message prompt).
    now rewrite H1.
Qed.

(** X15: the cache key of a chat call does not tell the system message
    from the prompt.  Two requests whose system message and prompt, joined
    by a colon, give the same text share one cache entry: after the first
    has returned, the second returns the first's result without a call to
    the API, although it would send other messages.  A missing system
    message and the system message ["None"] are such a pair. *)
Theorem call_gpt4_confuses_requests_with_equal_keys
    (api : LLMClient.ChatApi) (self : LLMClient.t)
    (prompt1 prompt2 : string) (system1 system2 : option string)
    (temperature : option Q) (max_tokens : option Z)
    (value : LLMClient.Cached) (self' : LLMClient.t) :
  (LLMClient.format_optional system1 ++ ":" ++ prompt1)%string =
  (LLMClient.format_optional system2 ++ ":" ++ prompt2)%string ->
  LLMClient.call_gpt4 api self prompt1 system1 temperature max_tokens =
    (Some value, self') ->
  (forall api' temperature' max_tokens',
      LLMClient.call_gpt4 api' self' prompt2 system2 temperature' max_tokens' =
      (Some value, self')) /\
  chat_key "gpt4" None prompt1 = chat_key "gpt4" (Some "None") prompt1 /\
  LLMClient.messages_for prompt1 None <>
  LLMClient.messages_for prompt1 (Some "None").
Proof.
  intros Hkey Hcall. split; [|split; [reflexivity | discriminate]].
  intros api' temperature' max_tokens'.
  destruct (CacheFacts.chat_outcome api self (LLMClient.gpt4_model self)
              (chat_key "gpt4" system1 prompt1)
              (LLMClient.messages_for prompt1 system1)
              (LLMClient.or_temperature temperature (LLMClient.temperature self))
              (LLMClient.or_max_tokens max_tokens (LLMClient.max_tokens self))
              (LLMClient.call_gpt4 api self prompt1 system1 temperature
                 max_tokens) eq_refl) as (_ & Hsome).
  rewrite Hcall in Hsome. destruct (Hsome value eq_refl) as (H1 & _).
  simpl in H1. unfold LLMClient.call_gpt4. cbv zeta.
  change ("gpt4:" ++ LLMClient.format_optional system2 ++ ":" ++ prompt2)%string
    with ("gpt4:" ++ (LLMClient.format_optional system2 ++ ":" ++ prompt2))%string.
  rewrite <- Hkey.
  change ("gpt4:" ++ (LLMClient.format_optional system1 ++ ":" ++ prompt1))%string
    with (chat_key "gpt4" system1 prompt1).
  now rewrite H1.
Qed.

Lemma call_gpt4_confuses_requests_with_equal_keys_witness :
  let first :=
    LLMClient.call_gpt4 echo_api new_client "c" (Some "a:b") None None in
  fst first = Some (LLMClient.Text "a:b|c@default") /\
  fst (LLMClient.call_gpt4 echo_api new_client "b:c" (Some "a") None None) =
    Some (LLMClient.Text "a|b:c@default") /\
  LLMClient.call_gpt4 echo_api (snd first) "b:c" (Some "a") None None =
    (Some (LLMClient.Text "a:b|c@default"), snd first).
Proof.
  cbv zeta. split; [reflexivity|]. split; [reflexivity|].
  exact (proj1 (call_gpt4_confuses_requests_with_equal_keys
                  echo_api new_client "c" "b:c" (Some "a:b") (Some "a")
                  None None (LLMClient.Text "a:b|c@default") _
                  eq_refl eq_refl) echo_api None None).
Defined.

(** X16: the cache keeps the calls apart by type.  In a client whose
    cache holds texts under the keys of the chat calls and embeddings under
    the keys of [get_embedding], as it does after [__init__] and after
    [clear_cache], every call leaves such a cache; [call_gpt4] and
    [call_gpt35] return texts only and [get_embedding] embeddings only,
    from the cache or from the API. *)
Theorem cache_entries_keep_their_type (self : LLMClient.t) :
  typed_cache (LLMClient.cache self) ->
  (forall api prompt system_message temperature max_tokens,
      let outcome := LLMClient.call_gpt4 api self prompt system_message
                       temperature max_tokens in
      typed_cache (LLMClient.cache (snd outcome)) /\
      forall value, fst outcome = Some value ->
                    exists result, value = LLMClient.Text result) /\
  (forall api prompt system_message temperature max_tokens,
      let outcome := LLMClient.call_gpt35 api self prompt system_message
                       temperature max_tokens in
      typed_cache (LLMClient.cache (snd outcome)) /\
      forall value, fst outcome = Some value ->
                    exists result, value = LLMClient.Text result) /\
  (forall api text,
      let outcome := LLMClient.get_embedding api self text in
      typed_cache (LLMClient.cache (snd outcome)) /\
      forall value, fst outcome = Some value ->
                    exists embedding, value = LLMClient.Vector embedding) /\
  typed_cache (LLMClient.cache (LLMClient.clear_cache self)).
Proof.
  intros T. split; [|split; [|split]].
  - intros api prompt system_message temperature max_tokens. cbv zeta.
    unfold LLMClient.call_gpt4. cbv zeta.
    set (rest := (LLMClient.format_optional system_message ++ ":" ++ prompt)%string).
    destruct (Dict.get (LLMClient.cache self) ("gpt4:" ++ rest)%string)
      as [cached|] eqn:E.
    + simpl. split; [exact T|]. intros value H. inversion H; subst.
      apply (CacheFacts.typed_chat_value _ _ rest _ (or_introl eq_refl) T E).
    + destruct (api _ _ _ _) as [result|]; simpl.
      * split; [|intros value H; inversion H; eauto].
        apply (CacheFacts.typed_cache_set_text _ _ rest); auto.
      * split; [exact T | discriminate].
  - intros api prompt system_message temperature max_tokens. cbv zeta.
    unfold LLMClient.call_gpt35. cbv zeta.
    set (rest := (LLMClient.format_optional system_message ++ ":" ++ prompt)%string).
    destruct (Dict.get (LLMClient.cache self) ("gpt35:" ++ rest)%string)
      as [cached|] eqn:E.
    + simpl. split; [exact T|]. intros value H. inversion H; subst.
      apply (CacheFacts.typed_chat_value _ _ rest _ (or_intror eq_refl) T E).
    + destruct (api _ _ _ _) as [result|]; simpl.
      * split; [|intros value H; inversion H; eauto].
        apply (CacheFacts.typed_cache_set_text _ _ rest); auto.
      * split; [exact T | discriminate].
  - intros api text. cbv zeta. unfold LLMClient.get_embedding. cbv zeta.
    destruct (Dict.get (LLMClient.cache self)
                ("embed:" ++ LLMClient.take_chars 100 text)%string)
      as [cached|] eqn:E.
    + simpl. split; [exact T|]. intros value H. inversion H; subst.
      apply (CacheFacts.typed_embed_value _ _ _ T E).
    + destruct (api _ _) as [embedding|]; simpl.
      * split; [|intros value H; inversion H; eauto].
        now apply CacheFacts.typed_cache_set_vector.
      * split; [exact T | discriminate].
  - intros key value H. discriminate.
Qed.

Lemma cache_entries_keep_their_type_witness :
  typed_cache (LLMClient.cache new_client) /\
  typed_cache
    (LLMClient.cache
       (snd (LLMClient.call_gpt4 echo_api new_client "c" None None None))).
Proof.
  assert (T : typed_cache (LLMClient.cache new_client))
    by (intros key value H; discriminate).
  split; [exact T|].
  exact (proj1 (proj1 (cache_entries_keep_their_type new_client T)
                  echo_api "c" None None None)).
Defined.

Module Prefix.
Import LLMClient.

Lemma take_chars_all (n : nat) (text : string) :
  char_count text <= n -> take_chars n text = text.
Proof.
  revert n. induction text as [|c text IH]; intros n H; [reflexivity|].
  simpl in *. destruct (is_continuation c).
  - now rewrite IH.
  - destruct n as [|n]; [lia|]. rewrite IH; [reflexivity | lia].
Qed.

Lemma take_chars_app (text rest : string) :
  starts_a_char rest = true ->
  take_chars (char_count text) (text ++ rest) = text.
Proof.
  intros Hrest. induction text as [|c text IH]; simpl.
  - destruct rest as [|c rest]; [reflexivity|]. simpl in *.
    destruct (is_continuation c); [discriminate | reflexivity].
  - destruct (is_continuation c); simpl; now rewrite IH.
Qed.

End Prefix.

(** X17: [get_embedding] tells texts apart by their first hundred
    characters only.  Once the embedding of a text has been stored, every
    text with the same first hundred characters gets that embedding, without
    a call to the API; two texts that continue one common text of a hundred
    characters are such a pair. *)
Theorem get_embedding_shares_entries_of_long_texts
    (api : LLMClient.EmbedApi) (self : LLMClient.t) (text1 text2 : string)
    (value : LLMClient.Cached) (self' : LLMClient.t) :
  LLMClient.take_chars 100 text1 = LLMClient.take_chars 100 text2 ->
  LLMClient.get_embedding api self text1 = (Some value, self') ->
  (forall api', LLMClient.get_embedding api' self' text2 = (Some value, self')) /\
  (forall common rest1 rest2,
      char_count common = 100 ->
      starts_a_char rest1 = true -> starts_a_char rest2 = true ->
      LLMClient.take_chars 100 (common ++ rest1) =
      LLMClient.take_chars 100 (common ++ rest2)).
Proof.
  intros Hprefix Hcall. split.
  - intros api'. unfold LLMClient.get_embedding in *. cbv zeta in *.
    rewrite <- Hprefix.
    destruct (Dict.get (LLMClient.cache self)
                ("embed:" ++ LLMClient.take_chars 100 text1)%string)
      as [cached|] eqn:E.
    + inversion Hcall; subst. now rewrite E.
    + destruct (api (LLMClient.embedding_model self) text1) as [embedding|];
        inversion Hcall; subst. simpl.
      now rewrite DictFacts.get_set_same.
  - intros common rest1 rest2 Hn H1 H2. rewrite <- Hn.
    now rewrite !Prefix.take_chars_app.
Qed.

Lemma get_embedding_shares_entries_of_long_texts_witness :
  let first := LLMClient.get_embedding length_api new_client (padded 100 "x") in
  fst first = Some (LLMClient.Vector [inject_Z 101]) /\
  fst (LLMClient.get_embedding length_api new_client (padded 100 "yz")) =
    Some (LLMClient.Vector [inject_Z 102]) /\
  LLMClient.get_embedding length_api (snd first) (padded 100 "yz") =
    (Some (LLMClient.Vector [inject_Z 101]), snd first).
Proof.
  cbv zeta.
  assert (Hprefix : LLMClient.take_chars 100 (padded 100 "x") =
                    LLMClient.take_chars 100 (padded 100 "yz"))
    by (vm_compute; reflexivity).
  assert (Hfirst : LLMClient.get_embedding length_api new_client
                     (padded 100 "x") =
                   (Some (LLMClient.Vector [inject_Z 101]),
                    snd (LLMClient.get_embedding length_api new_client
                           (padded 100 "x"))))
    by (vm_compute; reflexivity).
  split; [vm_compute; reflexivity|]. split; [vm_compute; reflexivity|].
  destruct (get_embedding_shares_entries_of_long_texts
              length_api new_client (padded 100 "x") (padded 100 "yz")
              (LLMClient.Vector [inject_Z 101]) _ Hprefix Hfirst) as (H & _).
  exact (H length_api).
Defined.

(** X18: a chat call treats a temperature of 0, a token limit of 0 and an
    empty system message as not given.  With a temperature of 0 or a limit
    of 0 it behaves as the call without that argument, so that the API gets
    the client's default; with the empty system message it sends the
    messages of the call without one, yet stores the result under a key of
    its own. *)
Theorem call_gpt4_replaces_zero_arguments_by_defaults
    (api : LLMClient.ChatApi) (self : LLMClient.t) (prompt : string)
    (system_message : option string) (temperature : option Q)
    (max_tokens : option Z) :
  LLMClient.call_gpt4 api self prompt system_message (Some 0%Q) max_tokens =
  LLMClient.call_gpt4 api self prompt system_message None max_tokens /\
  LLMClient.call_gpt4 api self prompt system_message temperature (Some 0%Z) =
  LLMClient.call_gpt4 api self prompt system_message temperature None /\
  (Dict.get (LLMClient.cache self) (chat_key "gpt4" system_message prompt) =
     None ->
   fst (LLMClient.call_gpt4 api self prompt system_message (Some 0%Q)
          (Some 0%Z)) =
   option_map LLMClient.Text
     (api (LLMClient.gpt4_model self)
        (LLMClient.messages_for prompt system_message)
        (LLMClient.temperature self) (LLMClient.max_tokens self))) /\
  LLMClient.messages_for prompt (Some "") = LLMClient.messages_for prompt None /\
  chat_key "gpt4" (Some "") prompt <> chat_key "gpt4" None prompt.
Proof.
  split; [reflexivity|]. split; [reflexivity|]. split; [|split].
  - intros Hmiss. unfold LLMClient.call_gpt4. cbv zeta.
    change ("gpt4:" ++ LLMClient.format_optional system_message ++ ":" ++ prompt)%string
      with (chat_key "gpt4" system_message prompt).
    rewrite Hmiss. simpl.
    now destruct (api _ _ _ _).
  - reflexivity.
  - discriminate.
Qed.

Module Mapper.
Import nx GraphFacts WellFormed RelationshipMapperAgent.

Lemma fold_left_invariant {A S : Type} (I : S -> Prop) (f : S -> A -> S)
    (l : list A) (init : S) :
  (forall s x, In x l -> I s -> I (f s x)) -> I init -> I (fold_left f l init).
Proof.
  revert init. induction l as [|x l IH]; intros init Hstep Hinit; simpl; auto.
  apply IH.
  - intros s y Hy. apply Hstep. now right.
  - apply Hstep; [now left | exact Hinit].
Qed.

Lemma enumerate_In {A : Type} (l : list A) i x :
  In (i, x) (enumerate l) -> In x l.
Proof. apply in_combine_r. Qed.

Lemma implicit_references_shape embeds related (topics : list Topic.t) :
  Forall (implicit_between topics)
    (_detect_implicit_references embeds related topics).
Proof.
  unfold _detect_implicit_references. cbv zeta.
  apply fold_left_invariant; [|constructor].
  intros refs [i topic] Hi Hrefs. apply enumerate_In in Hi.
  destruct (negb (Dict.mem (topic_embeddings embeds topics) (Topic.id topic)));
    [exact Hrefs|].
  apply fold_left_invariant; [|exact Hrefs].
  clear refs Hrefs. intros refs [j other_topic] Hj Hrefs.
  apply enumerate_In in Hj.
  destruct (String.eqb_spec (Topic.id topic) (Topic.id other_topic)) as [|Hne];
    [exact Hrefs|].
  destruct (negb (Dict.mem (topic_embeddings embeds topics)
                    (Topic.id other_topic))); [exact Hrefs|].
  destruct (existsb (String.eqb (Topic.id other_topic))
              (Topic.cross_references topic)) eqn:Hx; [exact Hrefs|].
  destruct (related i j) as [context|]; [|exact Hrefs].
  apply Forall_app. split; [exact Hrefs|]. constructor; [|constructor].
  split; [reflexivity|]. split; [reflexivity|]. split; [exact Hne|].
  exists topic, other_topic. repeat (split; [assumption || reflexivity|]).
  intros Hin. apply occurs_In in Hin. unfold occurs in Hin. congruence.
Qed.

Lemma add_relationship_known_nodes (g : DiGraph) (r : Relationship.t) :
  well_formed g ->
  has_node g (Relationship.source r) = true ->
  has_node g (Relationship.target r) = true ->
  nodes (GraphBuilder.add_relationship g r) = nodes g.
Proof.
  intros W Hs Ht. unfold GraphBuilder.add_relationship.
  rewrite add_edge_nodes.
  rewrite (ensure_node_known g (Relationship.source r))
    by now rewrite (succ_mem_node g _ W).
  rewrite (ensure_node_known g (Relationship.target r))
    by now rewrite (succ_mem_node g _ W).
  reflexivity.
Qed.

Lemma build_has_topics (g : DiGraph) (topics : list Topic.t) t :
  In t topics ->
  has_node (GraphBuilder.build_from_topics g topics) (Topic.id t) = true.
Proof.
  intros Ht. unfold GraphBuilder.build_from_topics.
  apply fold_left_invariant.
  - intros s x _ Hs. unfold GraphBuilder.add_topic_relationships.
    unfold GraphBuilder.add_references.
    repeat (apply fold_left_invariant;
            [intros; now apply Orphans.has_node_add_relationship|]).
    destruct (Topic.parent x) as [p|]; [|exact Hs].
    destruct (Py.truthy (Some p)); [|exact Hs].
    now apply Orphans.has_node_add_relationship.
  - destruct (in_split t topics Ht) as (before & after & ->).
    rewrite fold_left_app. simpl.
    apply fold_left_invariant.
    + intros s x _ Hs. apply Orphans.has_node_add_topic. now left.
    + apply Orphans.has_node_add_topic. now right.
Qed.

Lemma fold_add_relationship_edge (refs : list Relationship.t) (g : DiGraph) u v :
  get_edge_data (fold_left GraphBuilder.add_relationship refs g) u v =
  match find (links u v) (rev refs) with
  | Some r => Some (edge_attributes r)
  | None => get_edge_data g u v
  end.
Proof.
  induction refs as [|r refs IH] using rev_ind; [reflexivity|].
  rewrite fold_left_snoc, rev_app_distr. simpl.
  change (GraphBuilder.add_relationship
            (fold_left GraphBuilder.add_relationship refs g) r)
    with (add_edge (fold_left GraphBuilder.add_relationship refs g)
            (Relationship.source r) (Relationship.target r)
            (edge_attributes r)).
  unfold links at 1.
  destruct (String.eqb_spec (Relationship.source r) u) as [<-|Hu]; simpl.
  - destruct (String.eqb_spec (Relationship.target r) v) as [<-|Hv].
    + apply SingleEdge.add_edge_get.
    + rewrite SingleEdge.add_edge_get_other by congruence. exact IH.
  - rewrite SingleEdge.add_edge_get_other by congruence. exact IH.
Qed.

End Mapper.

(** X19: the implicit references of [map_relationships] change edges,
    not nodes.  Each links the ids of two topics of the list with different
    ids, so that the graph keeps the nodes of [build_from_topics] and all of
    its edges; the edge of every implicit reference is afterwards a valid
    cross reference, whatever type [build_from_topics] gave to an edge
    between the same two nodes, and the attributes of all other edges are
    unchanged. *)
Theorem map_relationships_changes_edges_only
    (embeds : nat -> bool) (related : nat -> nat -> option string)
    (graph : nx.DiGraph) (topics : list Topic.t) :
  well_formed graph ->
  let built := GraphBuilder.build_from_topics graph topics in
  let implicit_refs :=
    RelationshipMapperAgent._detect_implicit_references embeds related topics in
  let g := RelationshipMapperAgent.map_relationships embeds related graph
             topics in
  Forall (implicit_between topics) implicit_refs /\
  nx.nodes g = nx.nodes built /\
  (forall u v, nx.has_edge built u v = true -> nx.has_edge g u v = true) /\
  (forall r, In r implicit_refs ->
             exists d,
               nx.get_edge_data g (Relationship.source r)
                 (Relationship.target r) = Some d /\
               nx.e_type d = cross_reference /\ nx.e_status d = valid) /\
  (forall u v,
      (forall r, In r implicit_refs -> links u v r = false) ->
      nx.get_edge_data g u v = nx.get_edge_data built u v).
Proof.
  intros W. cbv zeta. unfold RelationshipMapperAgent.map_relationships.
  cbv zeta.
  pose proof (Mapper.implicit_references_shape embeds related topics) as Hshape.
  set (refs := RelationshipMapperAgent._detect_implicit_references embeds
                 related topics) in *.
  set (built := GraphBuilder.build_from_topics graph topics).
  assert (Wb : well_formed built) by now apply OrphanReport.well_formed_build.
  rewrite Forall_forall in Hshape.
  split; [now apply Forall_forall|]. split; [|split; [|split]].
  - assert (H : well_formed (fold_left GraphBuilder.add_relationship refs built)
                /\ nx.nodes (fold_left GraphBuilder.add_relationship refs built)
                   = nx.nodes built).
    { apply (Mapper.fold_left_invariant
               (fun s => well_formed s /\ nx.nodes s = nx.nodes built));
        [|now split].
      intros s r Hr (Ws & Hn).
      destruct (Hshape r Hr)
        as (_ & _ & _ & topic & other & Ht & Ho & Es & Et & _).
      split; [now apply WellFormed.well_formed_add_edge|].
      rewrite <- Hn. apply Mapper.add_relationship_known_nodes; [exact Ws| |].
      - apply GraphFacts.has_node_In. rewrite Hn. apply GraphFacts.has_node_In.
        rewrite Es. now apply Mapper.build_has_topics.
      - apply GraphFacts.has_node_In. rewrite Hn. apply GraphFacts.has_node_In.
        rewrite Et. now apply Mapper.build_has_topics. }
    apply H.
  - intros u v He. apply Mapper.fold_left_invariant; [|exact He].
    intros s r _ Hs. now apply Build.add_relationship_keeps_edges.
  - intros r Hr. rewrite Mapper.fold_add_relationship_edge.
    destruct (find (links (Relationship.source r) (Relationship.target r))
                (rev refs)) as [r'|] eqn:F.
    + apply find_some in F. destruct F as (Hin & _).
      apply in_rev in Hin. destruct (Hshape r' Hin) as (Ty & St & _).
      exists (edge_attributes r'). split; [reflexivity|]. now split.
    + exfalso. apply in_rev in Hr.
      pose proof (find_none _ _ F r Hr) as Hl. unfold links in Hl.
      rewrite !String.eqb_refl in Hl. discriminate.
  - intros u v Hnone. rewrite Mapper.fold_add_relationship_edge.
    destruct (find (links u v) (rev refs)) as [r'|] eqn:F; [|reflexivity].
    apply find_some in F. destruct F as (Hin & Hl).
    apply in_rev in Hin. rewrite (Hnone r' Hin) in Hl. discriminate.
Qed.

Lemma map_relationships_changes_edges_only_witness :
  let topics := [topic "1" None [] [] []; topic "1.1" (Some "1") [] [] []] in
  let g := RelationshipMapperAgent.map_relationships (fun _ => true)
             all_related GraphBuilder.init topics in
  well_formed GraphBuilder.init /\
  nx.nodes g = ["1"; "1.1"] /\
  option_map nx.e_type (nx.get_edge_data parent_and_child "1" "1.1") =
    Some hierarchical /\
  option_map nx.e_type (nx.get_edge_data g "1" "1.1") = Some cross_reference /\
  GraphBuilder.get_topic_hierarchy g = [].
Proof.
  cbv zeta. split; [exact WellFormed.well_formed_empty|].
  split; [|repeat split].
  exact (proj1 (proj2 (map_relationships_changes_edges_only (fun _ => true)
                         all_related GraphBuilder.init
                         [topic "1" None [] [] [];
                          topic "1.1" (Some "1") [] [] []]
                         WellFormed.well_formed_empty))).
Defined.

Module ParserFacts.
Import DocumentParserAgent RelationshipMapperAgent.

Lemma string_app_assoc (a b c : string) :
  ((a ++ b) ++ c = a ++ (b ++ c))%string.
Proof. induction a as [|x a IH]; simpl; [reflexivity | now rewrite IH]. Qed.

Lemma string_length_app (a b : string) :
  String.length (a ++ b) = String.length a + String.length b.
Proof. induction a as [|x a IH]; simpl; [reflexivity | now rewrite IH]. Qed.

Lemma join_snoc (sep : string) (l : list string) (x : string) :
  l <> [] -> Py.join sep (l ++ [x]) = (Py.join sep l ++ sep ++ x)%string.
Proof.
  unfold Py.join. induction l as [|a l IH]; [congruence|]. intros _.
  destruct l as [|b l]; [reflexivity|].
  change (String.concat sep ((a :: b :: l) ++ [x]))
    with (a ++ sep ++ String.concat sep ((b :: l) ++ [x]))%string.
  rewrite IH by discriminate.
  change (String.concat sep (a :: b :: l))
    with (a ++ sep ++ String.concat sep (b :: l))%string.
  now rewrite !string_app_assoc.
Qed.

Lemma last_item_removelast {A : Type} (l : list A) (x : A) :
  Py.last_item l = Some x -> l = removelast l ++ [x].
Proof.
  induction l as [|a l IH]; [discriminate|].
  destruct l as [|b l]; [intros H; now inversion H|].
  intros H. change (a :: b :: l = a :: (removelast (b :: l) ++ [x])).
  f_equal. now apply IH.
Qed.

(** An id with a parent is the parent, a dot and the trailing segment. *)
Lemma find_parent_some (id p : string) :
  _find_parent_id id = Some p ->
  exists seg, Py.last_item (Py.split "." id) = Some seg /\
              id = (p ++ "." ++ seg)%string /\
              leading_segments id <> [] /\
              p = Py.join "." (leading_segments id).
Proof.
  unfold _find_parent_id, leading_segments. cbv zeta.
  destruct (1 <? List.length (Py.split "." id)) eqn:L; [|discriminate].
  intros H. inversion H; subst. clear H. apply Nat.ltb_lt in L.
  destruct (Digits.split_last id) as (seg & Hseg). exists seg.
  pose proof (last_item_removelast _ _ Hseg) as E.
  assert (Hne : removelast (Py.split "." id) <> []).
  { intros Hnil. rewrite Hnil in E. rewrite E in L. simpl in L. lia. }
  split; [exact Hseg|]. split; [|split; [exact Hne | reflexivity]].
  rewrite <- (Segments.join_split "."%char id) at 1.
  rewrite E at 1. now apply join_snoc.
Qed.

Lemma find_parent_none (id : string) :
  _find_parent_id id = None <-> has_char "." id = false.
Proof.
  unfold _find_parent_id. cbv zeta. split.
  - destruct (1 <? List.length (Py.split "." id)) eqn:L; [discriminate|].
    intros _. apply Nat.ltb_ge in L.
    destruct (has_char "." id) eqn:H; [|reflexivity]. exfalso.
    revert L H. clear. induction id as [|c id IH]; simpl; [discriminate|].
    destruct (Ascii.eqb c ".") eqn:E; simpl.
    + pose proof (Digits.split_not_nil "." id).
      destruct (Py.split "." id); [congruence | simpl; lia].
    + pose proof (Digits.split_not_nil "." id) as Hne.
      destruct (Py.split "." id) as [|q qs]; [congruence|].
      simpl in *. exact IH.
  - intros H. now rewrite (Segments.split_single "."%char id H).
Qed.

Lemma find_parent_shorter (id p : string) :
  _find_parent_id id = Some p -> String.length p < String.length id.
Proof.
  intros H. destruct (find_parent_some id p H) as (seg & _ & E & _).
  rewrite E, !string_length_app. simpl. lia.
Qed.

Lemma enumerate_snoc {A : Type} (l : list A) (x : A) :
  enumerate (l ++ [x]) = enumerate l ++ [(List.length l, x)].
Proof.
  unfold enumerate. rewrite length_app. simpl.
  rewrite seq_app. simpl.
  assert (H : forall start,
             combine (seq start (List.length l) ++ [start + List.length l])
               (l ++ [x]) =
             combine (seq start (List.length l)) l ++
             [(start + List.length l, x)]).
  { induction l as [|a l IH]; intros start; simpl.
    - now rewrite Nat.add_0_r.
    - rewrite <- Nat.add_succ_comm. now rewrite IH. }
  exact (H 0).
Qed.

Lemma topic_map_snoc (topics : list Topic.t) (t : Topic.t) :
  topic_map (topics ++ [t]) =
  Dict.set (topic_map topics) (Topic.id t) (List.length topics).
Proof.
  unfold topic_map. now rewrite enumerate_snoc, fold_left_snoc.
Qed.

Lemma topic_map_get (topics : list Topic.t) (p : string) (j : nat) :
  Dict.get (topic_map topics) p = Some j -> last_position topics p j.
Proof.
  revert j. induction topics as [|t topics IH] using rev_ind; intros j.
  - discriminate.
  - rewrite topic_map_snoc.
    destruct (String.eqb_spec (Topic.id t) p) as [E|Hne].
    + subst p. rewrite DictFacts.get_set_same. intros H. inversion H; subst.
      split.
      * exists t. split; [|reflexivity].
        rewrite nth_error_app2, Nat.sub_diag by lia. reflexivity.
      * intros j' t' Hlt Hnth.
        assert (Hnone : nth_error (topics ++ [t]) j' = None).
        { apply nth_error_None. rewrite length_app. simpl. lia. }
        congruence.
    + rewrite DictFacts.get_set_other by assumption. intros H.
      destruct (IH j H) as ((tj & Hj & Hid) & Hlast).
      assert (Hlen : j < List.length topics)
        by (apply nth_error_Some; congruence).
      split.
      * exists tj. split; [|exact Hid]. now rewrite nth_error_app1.
      * intros j' t' Hlt Hnth.
        destruct (Nat.lt_ge_cases j' (List.length topics)) as [Hin|Hout].
        -- rewrite nth_error_app1 in Hnth by assumption. eauto.
        -- rewrite nth_error_app2 in Hnth by assumption.
           destruct (j' - List.length topics) as [|n];
             [|destruct n; discriminate].
           inversion Hnth; subst. exact Hne.
Qed.

Lemma topic_map_mem (topics : list Topic.t) (p : string) :
  Dict.mem (topic_map topics) p = true <-> In p (map Topic.id topics).
Proof.
  induction topics as [|t topics IH] using rev_ind.
  - split; [discriminate | intros []].
  - rewrite topic_map_snoc, map_app, in_app_iff. simpl.
    destruct (String.eqb_spec (Topic.id t) p) as [E|Hne].
    + subst. rewrite DictFacts.mem_set_same. tauto.
    + rewrite DictFacts.mem_set_other by assumption. rewrite IH.
      split; [tauto | intros [H|[H|[]]]; [exact H | contradiction]].
Qed.

Lemma topic_map_last (topics : list Topic.t) (p : string) (j : nat) :
  last_position topics p j -> Dict.get (topic_map topics) p = Some j.
Proof.
  intros ((tj & Hj & Hid) & Hlast).
  assert (Hmem : Dict.mem (topic_map topics) p = true).
  { apply topic_map_mem. rewrite <- Hid. apply in_map.
    eapply nth_error_In; eassumption. }
  unfold Dict.mem in Hmem.
  destruct (Dict.get (topic_map topics) p) as [j'|] eqn:E; [|discriminate].
  destruct (topic_map_get topics p j' E) as ((tj' & Hj' & Hid') & Hlast').
  destruct (Nat.lt_trichotomy j j') as [H|[H|H]].
  - exfalso. exact (Hlast j' tj' H Hj' Hid').
  - now subst.
  - exfalso. exact (Hlast' j tj H Hj Hid).
Qed.

Lemma nth_error_update_at {A : Type} (l : list A) (i : nat) (f : A -> A) j :
  nth_error (update_at l i f) j =
  if i =? j then option_map f (nth_error l j) else nth_error l j.
Proof.
  revert i j. induction l as [|x l IH]; intros i j; simpl.
  - destruct (i =? j); destruct j; reflexivity.
  - destruct i as [|i], j as [|j]; simpl; try reflexivity. apply IH.
Qed.

End ParserFacts.

Module HierarchyLoop.
Import DocumentParserAgent RelationshipMapperAgent ParserFacts.

Lemma firstn_S_nth {A : Type} (l : list A) (k : nat) (x : A) :
  nth_error l k = Some x -> firstn (S k) l = firstn k l ++ [x].
Proof.
  revert k. induction l as [|a l IH]; intros [|k] H; try discriminate.
  - now inversion H.
  - simpl in H. change (a :: firstn (S k) l = a :: (firstn k l ++ [x])).
    f_equal. now apply IH.
Qed.

Lemma adopted_zero (topics : list Topic.t) j t : adopted topics 0 j t = t.
Proof.
  unfold adopted. simpl. rewrite app_nil_r. now destruct t.
Qed.

Lemma children_step (topics : list Topic.t) k j tk :
  nth_error topics k = Some tk ->
  map Topic.id (filter (adopts topics j) (firstn (S k) topics)) =
  map Topic.id (filter (adopts topics j) (firstn k topics)) ++
  (if adopts topics j tk then [Topic.id tk] else []).
Proof.
  intros H. rewrite (firstn_S_nth _ _ _ H), filter_app, map_app. simpl.
  now destruct (adopts topics j tk).
Qed.

Lemma ltb_step (j k : nat) : j <> k -> (j <? S k) = (j <? k).
Proof.
  intros H. destruct (j <? k) eqn:E.
  - apply Nat.ltb_lt in E. apply Nat.ltb_lt. lia.
  - apply Nat.ltb_ge in E. apply Nat.ltb_ge. lia.
Qed.

(** A round that assigns no parent changes no object. *)
Lemma adopted_step_none (topics : list Topic.t) k j t tk :
  nth_error topics k = Some tk -> nth_error topics j = Some t ->
  assigned_parent topics tk = None ->
  adopted topics (S k) j t = adopted topics k j t.
Proof.
  intros Hk Hj Hnone. unfold adopted.
  rewrite (children_step topics k j tk Hk).
  assert (Ha : adopts topics j tk = false)
    by (unfold adopts; now rewrite Hnone).
  rewrite Ha, app_nil_r. f_equal.
  destruct (Nat.eq_dec j k) as [->|Hne].
  - assert (t = tk) by congruence. subst.
    rewrite Nat.ltb_irrefl, Hnone.
    now rewrite (proj2 (Nat.ltb_lt k (S k)) (Nat.lt_succ_diag_r k)).
  - now rewrite ltb_step.
Qed.

(** A round that assigns a parent changes the child and the parent, the
    one at its position and the other at the position of the map. *)
Lemma adopted_step_some (topics : list Topic.t) k j t tk p jp :
  nth_error topics k = Some tk -> nth_error topics j = Some t ->
  assigned_parent topics tk = Some p ->
  Dict.get (topic_map topics) p = Some jp -> jp <> k ->
  adopted topics (S k) j t =
  (if jp =? j then append_child (Topic.id tk) else fun x => x)
    ((if k =? j then set_parent p else fun x => x) (adopted topics k j t)).
Proof.
  intros Hk Hj Hsome Hg Hne. unfold adopted.
  rewrite (children_step topics k j tk Hk).
  assert (Ha : adopts topics j tk = (jp =? j))
    by (unfold adopts; now rewrite Hsome, Hg).
  rewrite Ha.
  destruct (Nat.eqb_spec jp j) as [->|Hjp].
  - destruct (Nat.eqb_spec k j) as [E|_]; [congruence|].
    unfold append_child. simpl. rewrite ltb_step by assumption.
    now rewrite app_assoc.
  - rewrite app_nil_r. destruct (Nat.eqb_spec k j) as [<-|Hkj].
    + assert (t = tk) by congruence. subst.
      unfold set_parent. simpl.
      rewrite (proj2 (Nat.ltb_lt k (S k)) (Nat.lt_succ_diag_r k)).
      now rewrite Hsome.
    + rewrite ltb_step by congruence. reflexivity.
Qed.

Lemma assigned_parent_spec (topics : list Topic.t) (t : Topic.t) (p : string) :
  assigned_parent topics t = Some p <->
  _find_parent_id (Topic.id t) = Some p /\ p <> "" /\
  In p (map Topic.id topics).
Proof.
  unfold assigned_parent. rewrite <- topic_map_mem.
  destruct (_find_parent_id (Topic.id t)) as [q|]; [|split; [discriminate | intros (H & _); discriminate]].
  unfold Py.truthy.
  destruct (String.eqb_spec q "") as [E|Hne]; simpl.
  - split; [discriminate|]. intros (H & Hp & _). inversion H. congruence.
  - destruct (Dict.mem (topic_map topics) q) eqn:M.
    + split; [intros H; inversion H; subst; auto|].
      intros (H & _). exact H.
    + split; [discriminate|]. intros (H & _ & Hm). inversion H; subst.
      congruence.
Qed.

Lemma build_prefix (topics : list Topic.t) (k : nat) :
  k <= List.length topics ->
  forall j,
    nth_error (fold_left (build_step (topic_map topics)) (seq 0 k) topics) j =
    option_map (adopted topics k j) (nth_error topics j).
Proof.
  induction k as [|k IH]; intros Hk j.
  - simpl. destruct (nth_error topics j); simpl; [|reflexivity].
    now rewrite adopted_zero.
  - rewrite seq_S, fold_left_app. simpl.
    specialize (IH (Nat.lt_le_incl _ _ Hk)).
    set (objects := fold_left (build_step (topic_map topics)) (seq 0 k) topics)
      in *.
    destruct (nth_error topics k) as [tk|] eqn:Htk;
      [|apply nth_error_None in Htk; lia].
    unfold build_step. rewrite (IH k), Htk. simpl option_map. cbv iota.
    change (Topic.id (adopted topics k k tk)) with (Topic.id tk).
    destruct (nth_error topics j) as [t|] eqn:Hj.
    + destruct (assigned_parent topics tk) as [p|] eqn:Hassigned.
      * pose proof Hassigned as Hspec.
        apply assigned_parent_spec in Hspec.
        destruct Hspec as (Hp & Hne & Hin).
        rewrite Hp.
        assert (Htruthy : Py.truthy (Some p) = true).
        { unfold Py.truthy. now destruct (String.eqb_spec p ""). }
        rewrite Htruthy.
        apply topic_map_mem in Hin. unfold Dict.mem in Hin.
        destruct (Dict.get (topic_map topics) p) as [jp|] eqn:Hg;
          [|discriminate].
        assert (Hjp : jp <> k).
        { intros ->. destruct (topic_map_get topics p k Hg)
            as ((t' & Ht' & Hid) & _).
          assert (t' = tk) by congruence. subst t'.
          apply find_parent_shorter in Hp. rewrite Hid in Hp. lia. }
        rewrite !nth_error_update_at, IH, Hj. simpl option_map.
        rewrite (adopted_step_some topics k j t tk p jp Htk Hj Hassigned Hg Hjp).
        destruct (jp =? j), (k =? j); reflexivity.
      * simpl option_map.
        rewrite (adopted_step_none topics k j t tk Htk Hj Hassigned).
        assert (E : match _find_parent_id (Topic.id tk) with
                    | Some parent_id =>
                        if Py.truthy (Some parent_id)
                        then match Dict.get (topic_map topics) parent_id with
                             | Some j0 =>
                                 update_at
                                   (update_at objects k (set_parent parent_id))
                                   j0 (append_child (Topic.id tk))
                             | None => objects
                             end
                        else objects
                    | None => objects
                    end = objects).
        { unfold assigned_parent in Hassigned.
          destruct (_find_parent_id (Topic.id tk)) as [q|]; [|reflexivity].
          destruct (Py.truthy (Some q)); [|reflexivity].
          simpl in Hassigned. unfold Dict.mem in Hassigned.
          destruct (Dict.get (topic_map topics) q); [discriminate | reflexivity]. }
        rewrite E, IH, Hj. reflexivity.
    + assert (Hlen : forall l : list Topic.t,
                 (forall i, nth_error l i =
                            option_map (adopted topics k i) (nth_error topics i)) ->
                 List.length l = List.length topics).
      { intros l Hl.
        destruct (Nat.lt_trichotomy (List.length l) (List.length topics))
          as [H|[H|H]]; [|exact H|].
        - exfalso. pose proof (Hl (List.length l)) as E.
          rewrite (proj2 (nth_error_None l _) (Nat.le_refl _)) in E.
          destruct (nth_error topics (List.length l)) eqn:N; [discriminate|].
          apply nth_error_None in N. lia.
        - exfalso. pose proof (Hl (List.length topics)) as E.
          rewrite (proj2 (nth_error_None topics _) (Nat.le_refl _)) in E.
          simpl in E. apply nth_error_None in E. lia. }
      cbn [option_map]. apply nth_error_None. apply nth_error_None in Hj.
      assert (Hobj : List.length objects = List.length topics)
        by (apply Hlen; exact IH).
      destruct (_find_parent_id (Topic.id tk)) as [q|]; [|lia].
      destruct (Py.truthy (Some q)); [|lia].
      destruct (Dict.get (topic_map topics) q); [|lia].
      assert (Hup : forall (l : list Topic.t) i f,
                 List.length (update_at l i f) = List.length l).
      { intros l. induction l as [|a l IHl]; intros [|i] f; simpl; auto. }
      rewrite !Hup. lia.
Qed.

Lemma build_hierarchy_nth (topics : list Topic.t) (j : nat) :
  nth_error (_build_hierarchy topics) j =
  option_map (adopted topics (List.length topics) j) (nth_error topics j).
Proof. apply build_prefix. lia. Qed.

End HierarchyLoop.

(** X20: [_find_parent_id] drops the trailing segment of an id.  An id
    without a dot has no parent; any other id is its parent, a dot and a
    trailing segment without dots, so that the parent is shorter than the id
    and has the leading segments of the id as its segments.  The id that the
    validator constructs for a missing number has the parent of the id it
    was constructed from. *)
Theorem find_parent_id_drops_trailing_segment (topic_id : string) :
  (DocumentParserAgent._find_parent_id topic_id = None <->
   has_char "." topic_id = false) /\
  (forall p,
      DocumentParserAgent._find_parent_id topic_id = Some p ->
      (exists seg, topic_id = (p ++ "." ++ seg)%string /\
                   has_char "." seg = false) /\
      String.length p < String.length topic_id /\
      Py.split "." p = leading_segments topic_id) /\
  (forall m,
      DocumentParserAgent._find_parent_id
        (ValidatorAgent._construct_missing_id topic_id m) =
      DocumentParserAgent._find_parent_id topic_id).
Proof.
  split; [apply ParserFacts.find_parent_none|]. split.
  - intros p H.
    destruct (ParserFacts.find_parent_some topic_id p H)
      as (seg & Hseg & E & Hne & Hp).
    split; [|split].
    + exists seg. split; [exact E|].
      apply (Segments.split_has_no_sep "."%char topic_id).
      rewrite (ParserFacts.last_item_removelast _ _ Hseg).
      apply in_or_app. right. now left.
    + now apply ParserFacts.find_parent_shorter.
    + rewrite Hp. apply (Segments.split_join "."%char); [exact Hne|].
      intros q Hq. apply (Segments.split_has_no_sep "."%char topic_id).
      unfold leading_segments in Hq. revert Hq.
      generalize (Py.split "." topic_id). intros l.
      induction l as [|a l IH]; simpl; [tauto|].
      destruct l; [intros [] | intros [<-|Hq]; [now left | right; now apply IH]].
  - intros m. unfold DocumentParserAgent._find_parent_id. cbv zeta.
    rewrite Segments.construct_missing_id_split, removelast_last, length_app.
    unfold leading_segments. simpl.
    destruct (Digits.split_last topic_id) as (seg & Hseg).
    rewrite (ParserFacts.last_item_removelast _ _ Hseg) at 3.
    rewrite length_app. simpl. reflexivity.
Qed.

Module HierarchyFacts.
Import DocumentParserAgent ParserFacts HierarchyLoop.

Lemma build_hierarchy_length (topics : list Topic.t) :
  List.length (_build_hierarchy topics) = List.length topics.
Proof.
  destruct (Nat.lt_trichotomy (List.length (_build_hierarchy topics))
              (List.length topics)) as [H|[H|H]]; [|exact H|]; exfalso.
  - pose proof (build_hierarchy_nth topics
                  (List.length (_build_hierarchy topics))) as E.
    rewrite (proj2 (nth_error_None _ _) (Nat.le_refl _)) in E.
    destruct (nth_error topics (List.length (_build_hierarchy topics))) eqn:N;
      [discriminate|].
    apply nth_error_None in N. lia.
  - pose proof (build_hierarchy_nth topics (List.length topics)) as E.
    rewrite (proj2 (nth_error_None topics _) (Nat.le_refl _)) in E.
    simpl in E. apply nth_error_None in E. lia.
Qed.

Lemma adopted_all (topics : list Topic.t) j t :
  nth_error topics j = Some t ->
  adopted topics (List.length topics) j t =
  Topic.mk (Topic.id t) (Topic.title t) (Topic.content t)
    match assigned_parent topics t with
    | Some p => Some p
    | None => Topic.parent t
    end
    (Topic.children t ++ map Topic.id (filter (adopts topics j) topics))
    (Topic.cross_references t) (Topic.forward_references t)
    (Topic.backward_references t) (Topic.position t) (Topic.confidence t).
Proof.
  intros H. unfold adopted. rewrite firstn_all.
  assert (Hlt : j < List.length topics) by (apply nth_error_Some; congruence).
  now rewrite (proj2 (Nat.ltb_lt _ _) Hlt).
Qed.

Lemma adopts_spec (topics : list Topic.t) j c :
  adopts topics j c = true <->
  exists p, assigned_parent topics c = Some p /\ last_position topics p j.
Proof.
  unfold adopts. split.
  - destruct (assigned_parent topics c) as [p|]; [|discriminate].
    destruct (Dict.get (topic_map topics) p) as [j'|] eqn:G; [|discriminate].
    intros H. apply Nat.eqb_eq in H. subst. exists p.
    split; [reflexivity | now apply topic_map_get].
  - intros (p & -> & Hlast). rewrite (topic_map_last topics p j Hlast).
    apply Nat.eqb_refl.
Qed.

Lemma kept_ids_NoDup (keep : Topic.t -> bool) (topics : list Topic.t) :
  NoDup (map Topic.id topics) ->
  NoDup (map Topic.id (filter keep topics)).
Proof.
  induction topics as [|t topics IH]; simpl; intros H; [constructor|].
  inversion H as [|? ? Hnotin Hnd]; subst.
  destruct (keep t); simpl; [|now apply IH].
  constructor; [|now apply IH].
  intros Hin. apply Hnotin. apply in_map_iff in Hin.
  destruct Hin as (x & E & Hx). apply filter_In in Hx.
  apply in_map_iff. exists x. tauto.
Qed.

Lemma unique_position (topics : list Topic.t) j t :
  NoDup (map Topic.id topics) -> nth_error topics j = Some t ->
  last_position topics (Topic.id t) j.
Proof.
  intros Hnd Hj. split; [now exists t|].
  intros j' t' Hlt Hj' E.
  assert (H1 : nth_error (map Topic.id topics) j = Some (Topic.id t))
    by now apply map_nth_error.
  assert (H2 : nth_error (map Topic.id topics) j' = Some (Topic.id t))
    by (rewrite <- E; now apply map_nth_error).
  assert (Hlen : j < List.length (map Topic.id topics))
    by (apply nth_error_Some; congruence).
  pose proof (proj1 (NoDup_nth_error _) Hnd j j' Hlen) as Hinj.
  rewrite H1, H2 in Hinj. specialize (Hinj eq_refl). lia.
Qed.

End HierarchyFacts.

(** X21: [_build_hierarchy] returns the topics of the list in their
    order and writes only to their parents and children.  A topic gets as
    parent the id without its trailing segment when that id is not empty
    and is the id of a topic of the list, and keeps its parent otherwise;
    its own id is then appended to the children of the last topic of the
    list with the parent's id, the children arriving in list order. *)
Theorem build_hierarchy_links_parents_and_children (topics : list Topic.t) :
  let result := DocumentParserAgent._build_hierarchy topics in
  List.length result = List.length topics /\
  (forall j t,
      nth_error topics j = Some t ->
      exists t',
        nth_error result j = Some t' /\ same_but_hierarchy t t' /\
        Topic.parent t' =
          match assigned_parent topics t with
          | Some p => Some p
          | None => Topic.parent t
          end /\
        Topic.children t' =
          Topic.children t ++
          map Topic.id (filter (adopts topics j) topics)) /\
  (forall t p,
      assigned_parent topics t = Some p <->
      DocumentParserAgent._find_parent_id (Topic.id t) = Some p /\
      p <> "" /\ In p (map Topic.id topics)) /\
  (forall j c,
      adopts topics j c = true <->
      exists p, assigned_parent topics c = Some p /\
                last_position topics p j).
Proof.
  cbv zeta. split; [apply HierarchyFacts.build_hierarchy_length|].
  split; [|split].
  - intros j t Hj. rewrite HierarchyLoop.build_hierarchy_nth, Hj. simpl.
    rewrite (HierarchyFacts.adopted_all topics j t Hj).
    eexists. split; [reflexivity|]. simpl.
    split; [repeat split | split; reflexivity].
  - apply HierarchyLoop.assigned_parent_spec.
  - apply HierarchyFacts.adopts_spec.
Qed.

(** X22: on topics with pairwise distinct ids, as the parser creates them
    without parent and without children, [_build_hierarchy] makes parents
    and children agree: an id is among the children of a topic exactly when
    it is the id of a topic whose parent is that topic, no child is listed
    twice, and the parent of every topic is the id of a topic of the
    list. *)
Theorem build_hierarchy_is_consistent (topics : list Topic.t) :
  NoDup (map Topic.id topics) ->
  Forall fresh_topic topics ->
  let result := DocumentParserAgent._build_hierarchy topics in
  map Topic.id result = map Topic.id topics /\
  (forall parent_topic,
      In parent_topic result ->
      NoDup (Topic.children parent_topic) /\
      forall c,
        In c (Topic.children parent_topic) <->
        exists child,
          In child result /\ Topic.id child = c /\
          Topic.parent child = Some (Topic.id parent_topic)) /\
  (forall child p,
      In child result -> Topic.parent child = Some p ->
      DocumentParserAgent._find_parent_id (Topic.id child) = Some p /\
      exists parent_topic,
        In parent_topic result /\ Topic.id parent_topic = p /\
        In (Topic.id child) (Topic.children parent_topic)).
Proof.
  intros Hnd Hfresh. cbv zeta. rewrite Forall_forall in Hfresh.
  assert (Hresult : forall x,
             In x (DocumentParserAgent._build_hierarchy topics) <->
             exists j t, nth_error topics j = Some t /\
                         x = adopted topics (List.length topics) j t).
  { intros x. split.
    - intros H. apply In_nth_error in H. destruct H as (j & Hj).
      rewrite HierarchyLoop.build_hierarchy_nth in Hj.
      destruct (nth_error topics j) as [t|] eqn:E; [|discriminate].
      inversion Hj. now exists j, t.
    - intros (j & t & Hj & ->). apply nth_error_In with (n := j).
      now rewrite HierarchyLoop.build_hierarchy_nth, Hj. }
  assert (Hchildren : forall j t c,
             nth_error topics j = Some t ->
             (In c (Topic.children (adopted topics (List.length topics) j t)) <->
              exists i ct, nth_error topics i = Some ct /\ Topic.id ct = c /\
                           assigned_parent topics ct = Some (Topic.id t))).
  { intros j t c Hj. rewrite (HierarchyFacts.adopted_all topics j t Hj). simpl.
    destruct (Hfresh t (nth_error_In _ _ Hj)) as (_ & ->). simpl.
    rewrite in_map_iff. split.
    - intros (ct & Hid & Hct). apply filter_In in Hct.
      destruct Hct as (Hin & Ha). apply HierarchyFacts.adopts_spec in Ha.
      destruct Ha as (p & Hp & (tj & Htj & Hidj) & _).
      assert (tj = t) by congruence. subst.
      apply In_nth_error in Hin. destruct Hin as (i & Hi).
      now exists i, ct.
    - intros (i & ct & Hi & Hid & Hp). exists ct. split; [exact Hid|].
      apply filter_In. split; [eapply nth_error_In; eassumption|].
      apply HierarchyFacts.adopts_spec. exists (Topic.id t).
      split; [exact Hp | now apply HierarchyFacts.unique_position]. }
  assert (Hparent : forall i ct,
             nth_error topics i = Some ct ->
             Topic.parent (adopted topics (List.length topics) i ct) =
             assigned_parent topics ct).
  { intros i ct Hi. rewrite (HierarchyFacts.adopted_all topics i ct Hi). simpl.
    destruct (Hfresh ct (nth_error_In _ _ Hi)) as (-> & _).
    now destruct (assigned_parent topics ct). }
  split; [|split].
  - apply nth_error_ext. intros j. rewrite !nth_error_map.
    rewrite HierarchyLoop.build_hierarchy_nth.
    now destruct (nth_error topics j).
  - intros parent_topic Hin. apply Hresult in Hin.
    destruct Hin as (j & t & Hj & ->). split.
    + rewrite (HierarchyFacts.adopted_all topics j t Hj). simpl.
      destruct (Hfresh t (nth_error_In _ _ Hj)) as (_ & ->). simpl.
      now apply HierarchyFacts.kept_ids_NoDup.
    + intros c. rewrite (Hchildren j t c Hj).
      change (Topic.id (adopted topics (List.length topics) j t))
        with (Topic.id t).
      split.
      * intros (i & ct & Hi & Hid & Hp).
        exists (adopted topics (List.length topics) i ct).
        split; [apply Hresult; now exists i, ct|]. split; [exact Hid|].
        now rewrite (Hparent i ct Hi).
      * intros (child & Hc & Hid & Hp). apply Hresult in Hc.
        destruct Hc as (i & ct & Hi & ->). exists i, ct.
        split; [exact Hi|]. split; [exact Hid|].
        now rewrite <- (Hparent i ct Hi).
  - intros child p Hc Hp. apply Hresult in Hc.
    destruct Hc as (i & ct & Hi & ->). rewrite (Hparent i ct Hi) in Hp.
    pose proof Hp as Hspec. apply HierarchyLoop.assigned_parent_spec in Hspec.
    destruct Hspec as (Hfind & _ & Hin). split; [exact Hfind|].
    apply in_map_iff in Hin. destruct Hin as (t & Hid & Ht).
    apply In_nth_error in Ht. destruct Ht as (j & Hj).
    exists (adopted topics (List.length topics) j t).
    split; [apply Hresult; now exists j, t|]. split; [exact Hid|].
    apply (Hchildren j t _ Hj). exists i, ct.
    split; [exact Hi|]. split; [reflexivity|]. now rewrite Hid.
Qed.

Lemma build_hierarchy_is_consistent_witness :
  let topics := [topic "1" None [] [] []; topic "1.1" None [] [] [];
                 topic "1.2" None [] [] []; topic "2.1" None [] [] []] in
  let result := DocumentParserAgent._build_hierarchy topics in
  map Topic.parent result = [None; Some "1"; Some "1"; None] /\
  map Topic.children result = [["1.1"; "1.2"]; []; []; []] /\
  map Topic.id result = ["1"; "1.1"; "1.2"; "2.1"].
Proof.
  cbv zeta. split; [reflexivity|]. split; [reflexivity|].
  refine (proj1 (build_hierarchy_is_consistent
                   [topic "1" None [] [] []; topic "1.1" None [] [] [];
                    topic "1.2" None [] [] []; topic "2.1" None [] [] []]
                   _ _)).
  - repeat constructor; simpl; intuition discriminate.
  - repeat constructor.
Defined.
